(** * Crypto-App: the encryption envelope protocol, checked against its code

    A shallow embedding of [src/lib/crypto.ts] and [src/lib/storage.ts].

    - JavaScript strings are sequences of UTF-16 code units ([jsstring]).
    - A [Uint8Array] / [ArrayBuffer] is a [list byte].
    - A [throw] is the [Throw] branch of [result]; the thrown object is an
      [exn].  A rejected promise is a [Throw] too: the code awaits every
      promise it makes.
    - JavaScript numbers are the integers [Z]: the numbers of an envelope
      and of a history item are iteration counts, sizes and timestamps.
    - The browser built-ins the code calls but does not define (Web Crypto,
      [JSON], [TextEncoder] / [TextDecoder], the random source) are the
      fields of the class [Platform]; what the proofs need from them are
      the classes [CipherLaws], [TamperLaws] and [JSONLaws].  The module
      [Reference] is an instance that runs.  [btoa], [atob],
      [String.prototype.trim], [String.prototype.includes] and the
      regular-expression tests are written out.
    - [Math.log2] is not computed in floating point: the product
      [length * log2 charSetSize] is kept as the pair (length, charSetSize)
      and compared exactly, see [entropy_bits]; [StrengthSpec] relates it
      to the real logarithm, and [StrengthMargins] shows that no threshold
      comparison is close enough for rounding to matter.
    - [localStorage] holds the history as the array it is the JSON text
      of, see [stored].
    - The two [crypto.subtle] calls on JSON Web Keys are the fields of
      the class [KeyPlatform], with [KeyLaws] for what the proofs need of
      them; [TagLaws] is the length of an AES-GCM ciphertext.
    - A [Uint32Array] filled by [crypto.getRandomValues] is read off the
      random bytes, low byte first.
    - The handlers of the two tabs ([EncryptTab], [DecryptTab]) and the
      strength meter ([Meter]) are functions of the [useState] values
      they read and of the storage, to the values and the storage they
      leave. *)

From Stdlib Require Import List ZArith NArith Lia Bool String Ascii.
From Stdlib Require Import Strings.Byte.
From Stdlib Require Import Sorting.Sorted.
From Stdlib Require Import ZifyNat ZifyN ZifyBool.
From Stdlib Require DecimalZ.
From Stdlib Require Reals Lra.
Import ListNotations.

Set Implicit Arguments.

(* ################################################################# *)
(** * Part I: definitions *)

(* ================================================================= *)
(** ** JavaScript values *)

Module JS.

(** A string is its sequence of UTF-16 code units. *)
Definition jsstring := list N.

(** The code units of an ASCII literal. *)
Definition js (s : string) : jsstring :=
  map N_of_ascii (list_ascii_of_string s).
Arguments js s%_string.

Definition str_eqb (a b : jsstring) : bool :=
  if list_eq_dec N.eq_dec a b then true else false.

(** What a [throw] throws.  [new Error(m)] is [ErrorObj "Error" m]; a
    [DOMException] is an [Error] instance too ([err instanceof Error]
    holds for it); [NonError] is any thrown value that is not. *)
Inductive exn :=
| ErrorObj (name message : jsstring)
| NonError.

Definition Error (message : jsstring) : exn := ErrorObj (js "Error") message.

Inductive result (A : Type) :=
| Ok (a : A)
| Throw (e : exn).
Arguments Ok {A} a.
Arguments Throw {A} e.

Definition bind {A B} (r : result A) (k : A -> result B) : result B :=
  match r with
  | Ok a => k a
  | Throw e => Throw e
  end.

(** [try { body } catch (err) { handler }] *)
Definition try_catch {A} (body : result A) (handler : exn -> result A) : result A :=
  match body with
  | Ok a => Ok a
  | Throw e => handler e
  end.

(** ECMAScript [WhiteSpace] and [LineTerminator] code points, the ones
    [String.prototype.trim] strips. *)
Definition is_js_whitespace (c : N) : bool :=
  (((9 <=? c) && (c <=? 13)) || (c =? 32) || (c =? 160) || (c =? 5760)
   || ((8192 <=? c) && (c <=? 8202)) || (c =? 8232) || (c =? 8233)
   || (c =? 8239) || (c =? 8287) || (c =? 12288) || (c =? 65279))%N.

Fixpoint trim_start (s : jsstring) : jsstring :=
  match s with
  | c :: rest => if is_js_whitespace c then trim_start rest else s
  | [] => []
  end.

Definition trim (s : jsstring) : jsstring :=
  rev (trim_start (rev (trim_start s))).

Fixpoint starts_with (needle s : jsstring) : bool :=
  match needle, s with
  | [], _ => true
  | n :: needle', c :: s' => (n =? c)%N && starts_with needle' s'
  | _ :: _, [] => false
  end.

(** [s.includes(needle)] *)
Fixpoint includes (needle s : jsstring) : bool :=
  starts_with needle s ||
  match s with
  | [] => false
  | _ :: s' => includes needle s'
  end.

(** The values [JSON.parse] can return, and [undefined] for an absent
    property.  Numbers are the integers: the only numbers an envelope
    holds are iteration counts. *)
#[warnings="-register-all"]
Inductive value :=
| VUndefined
| VNull
| VBool (b : bool)
| VNum (n : Z)
| VStr (s : jsstring)
| VArr (items : list value)
| VObj (props : list (jsstring * value)).

(** [!!v] *)
Definition truthy (v : value) : bool :=
  match v with
  | VUndefined | VNull => false
  | VBool b => b
  | VNum n => negb (n =? 0)%Z
  | VStr s => match s with [] => false | _ => true end
  | VArr _ | VObj _ => true
  end.

(** [v === 'literal'] *)
Definition strict_eq_str (v : value) (lit : jsstring) : bool :=
  match v with
  | VStr s => str_eqb s lit
  | _ => false
  end.

(** Own-property lookup in an object literal; a later duplicate key wins,
    as in [JSON.parse]. *)
Fixpoint lookup (key : jsstring) (props : list (jsstring * value)) : option value :=
  match props with
  | [] => None
  | (k, v) :: rest =>
      match lookup key rest with
      | Some v' => Some v'
      | None => if str_eqb k key then Some v else None
      end
  end.

(** [Number::toString] of a safe integer (below 2^53 in absolute value):
    its decimal digits. *)
Fixpoint uint_chars (d : Decimal.uint) : jsstring :=
  match d with
  | Decimal.Nil => []
  | Decimal.D0 d => 48 :: uint_chars d
  | Decimal.D1 d => 49 :: uint_chars d
  | Decimal.D2 d => 50 :: uint_chars d
  | Decimal.D3 d => 51 :: uint_chars d
  | Decimal.D4 d => 52 :: uint_chars d
  | Decimal.D5 d => 53 :: uint_chars d
  | Decimal.D6 d => 54 :: uint_chars d
  | Decimal.D7 d => 55 :: uint_chars d
  | Decimal.D8 d => 56 :: uint_chars d
  | Decimal.D9 d => 57 :: uint_chars d
  end%N.

Definition Number_toString (n : Z) : jsstring :=
  match Z.to_int n with
  | Decimal.Pos d => uint_chars d
  | Decimal.Neg d => 45%N :: uint_chars d
  end.

Fixpoint join (sep : jsstring) (parts : list jsstring) : jsstring :=
  match parts with
  | [] => []
  | [p] => p
  | p :: rest => p ++ sep ++ join sep rest
  end.

(** [`${v}`] throws a [TypeError]: [ToPrimitive] finds no callable
    [toString] and no [valueOf] that returns a primitive.  Of the values
    [JSON.parse] returns these are the objects with an own property
    [toString] (it is not callable, and [Object.prototype.valueOf]
    returns the object itself), and the arrays with such an object among
    their elements, which [Array.prototype.join] converts one by one. *)
Fixpoint toString_throws (v : value) : bool :=
  match v with
  | VObj props =>
      match lookup (js "toString") props with
      | Some _ => true
      | None => false
      end
  | VArr items => existsb toString_throws items
  | _ => false
  end.

End JS.
Export JS.

(* ================================================================= *)
(** ** [btoa] and [atob] *)

Module Base64.

Definition alphabet : jsstring :=
  js "ABCDEFGHIJKLMNOPQRSTUVWXYZabcdefghijklmnopqrstuvwxyz0123456789+/".

Definition b64_char (i : N) : N := nth (N.to_nat i) alphabet 0%N.

Definition b64_index (c : N) : option N :=
  if ((65 <=? c) && (c <=? 90))%N then Some (c - 65)%N
  else if ((97 <=? c) && (c <=? 122))%N then Some (c - 71)%N
  else if ((48 <=? c) && (c <=? 57))%N then Some (c + 4)%N
  else if (c =? 43)%N then Some 62%N
  else if (c =? 47)%N then Some 63%N
  else None.

(** The 6-bit groups of a byte sequence, the last one zero-filled. *)
Fixpoint sextets (bytes : list N) : list N :=
  match bytes with
  | a :: b :: c :: rest =>
      (a / 4) :: ((a mod 4) * 16 + b / 16) :: ((b mod 16) * 4 + c / 64)
        :: (c mod 64) :: sextets rest
  | [a; b] => [a / 4; (a mod 4) * 16 + b / 16; (b mod 16) * 4]
  | [a] => [a / 4; (a mod 4) * 16]
  | [] => []
  end%N.

Definition padding (n : nat) : jsstring :=
  match (n mod 3)%nat with
  | 1%nat => [61; 61]
  | 2%nat => [61]
  | _ => []
  end%N.

(** [btoa(s)]: [None] is the [InvalidCharacterError] thrown when [s] has
    a code unit above 0xFF. *)
Definition btoa (s : jsstring) : option jsstring :=
  if forallb (fun c => c <? 256)%N s
  then Some (map b64_char (sextets s) ++ padding (List.length s))
  else None.

Definition is_ascii_whitespace (c : N) : bool :=
  ((c =? 9) || (c =? 10) || (c =? 12) || (c =? 13) || (c =? 32))%N.

Definition strip_padding (data : jsstring) : jsstring :=
  if (List.length data mod 4 =? 0)%nat then
    match rev data with
    | c1 :: r1 =>
        if (c1 =? 61)%N then
          match r1 with
          | c2 :: r2 => if (c2 =? 61)%N then rev r2 else rev r1
          | [] => rev r1
          end
        else data
    | [] => data
    end
  else data.

Fixpoint indices (data : jsstring) : option (list N) :=
  match data with
  | [] => Some []
  | c :: rest =>
      match b64_index c, indices rest with
      | Some i, Some sx => Some (i :: sx)
      | _, _ => None
      end
  end.

(** Bytes of a run of 6-bit groups; the bits left over at the end are
    dropped. *)
Fixpoint unsextets (sx : list N) : list N :=
  match sx with
  | a :: b :: c :: d :: rest =>
      (a * 4 + b / 16) :: ((b mod 16) * 16 + c / 4) :: ((c mod 4) * 64 + d)
        :: unsextets rest
  | [a; b; c] => [a * 4 + b / 16; (b mod 16) * 16 + c / 4]
  | [a; b] => [a * 4 + b / 16]
  | _ => []
  end%N.

(** [atob(s)], the forgiving-base64 decode of the HTML standard: ASCII
    whitespace is removed, one or two trailing [=] are removed when the
    length is a multiple of 4, a length of 1 modulo 4 or a character
    outside the alphabet fails ([None]: [InvalidCharacterError]). *)
Definition atob (s : jsstring) : option jsstring :=
  let data := strip_padding (filter (fun c => negb (is_ascii_whitespace c)) s) in
  if (List.length data mod 4 =? 1)%nat then None
  else
    match indices data with
    | Some sx => Some (unsextets sx)
    | None => None
    end.

End Base64.
Export Base64.

(* ================================================================= *)
(** ** The browser platform *)

Module Env.

(** The built-ins [crypto.ts] calls.  A rejected promise and a thrown
    exception are both a [Throw]. *)
Class Platform := {
  (** [typeof window !== 'undefined' && 'crypto' in window && ...] *)
  crypto_available : bool;
  (** the message text the engine gives a built-in error, by error name *)
  engine_message : jsstring -> jsstring;
  (** state of the random source behind [crypto.getRandomValues] *)
  rng : Type;
  getRandomValues : nat -> rng -> list byte * rng;
  CryptoKey : Type;
  (** [importKey('raw', pw, 'PBKDF2', ...)] followed by
      [deriveKey({name: 'PBKDF2', salt, iterations, hash: 'SHA-256'}, _,
      {name: 'AES-GCM', length: 256}, ...)] *)
  subtle_deriveKey : list byte -> list byte -> Z -> result CryptoKey;
  (** [crypto.subtle.encrypt({name, iv}, key, data)] *)
  subtle_encrypt : jsstring -> list byte -> CryptoKey -> list byte -> result (list byte);
  (** [crypto.subtle.decrypt({name, iv}, key, data)] *)
  subtle_decrypt : jsstring -> list byte -> CryptoKey -> list byte -> result (list byte);
  (** [new TextEncoder().encode(s)] *)
  TextEncoder_encode : jsstring -> list byte;
  (** [new TextDecoder().decode(buffer)] *)
  TextDecoder_decode : list byte -> jsstring;
  (** [JSON.parse(text)]; [None] is its [SyntaxError] *)
  JSON_parse : jsstring -> option value;
  (** [JSON.stringify(v)] *)
  JSON_stringify : value -> jsstring;
  (** [String(n)] of a number beyond the safe integers: there
      [Number::toString] prints the digits of the nearest double, and
      from 10^21 on the exponent form, as in "1e+21" *)
  Number_toString_large : Z -> jsstring;
}.

(** The [DOMException] the platform throws under a given name. *)
Definition DOMException {P : Platform} (name : jsstring) : exn :=
  ErrorObj name (engine_message name).

Definition InvalidCharacterError {P : Platform} : exn :=
  DOMException (js "InvalidCharacterError").

Definition OperationError {P : Platform} : exn :=
  DOMException (js "OperationError").

(** The engine's [TypeError]: reading a property of [null] or
    [undefined], or making a string of an object that has neither a
    callable [toString] nor a [valueOf] that returns a primitive. *)
Definition TypeError {P : Platform} : exn :=
  ErrorObj (js "TypeError") (engine_message (js "TypeError")).

End Env.
Export Env.

Declare Scope result_scope.
Delimit Scope result_scope with result.
Notation "x <- e ;; k" := (bind e (fun x => k))
  (at level 61, e at next level, right associativity) : result_scope.
Open Scope result_scope.

(* ================================================================= *)
(** ** [src/lib/crypto.ts] *)

Module Crypto.

Record EncryptionPayload := {
  alg : jsstring;
  kdf : jsstring;
  salt : jsstring;
  iv : jsstring;
  iterations : Z;
  ct : jsstring;
}.

(** [algorithm?: 'AES-GCM'] has a single inhabitant. *)
Inductive algorithm_name := AES_GCM.

Definition algorithm_string (a : algorithm_name) : jsstring :=
  match a with AES_GCM => js "AES-GCM" end.

(** A number a caller may pass for [iterations?: number]: an integer, or
    [NaN]. *)
Inductive js_number :=
| NaN
| Num (n : Z).

Record EncryptionOptions := {
  opt_iterations : option js_number;
  opt_algorithm : option algorithm_name;
}.

(** [!options.iterations]: left out, [NaN] or 0. *)
Definition iterations_falsy (options : EncryptionOptions) : bool :=
  match opt_iterations options with
  | None | Some NaN => true
  | Some (Num n) => (n =? 0)%Z
  end.

(** [options: EncryptionOptions = {}] *)
Definition no_options : EncryptionOptions :=
  {| opt_iterations := None; opt_algorithm := None |}.

(** [plaintext: string | ArrayBuffer] *)
Inductive plaintext_input :=
| Text (s : jsstring)
| Buffer (bytes : list byte).

(** Storing a number into a [Uint8Array] keeps it modulo 256. *)
Definition to_uint8 (n : N) : byte :=
  match Byte.of_N (n mod 256) with
  | Some b => b
  | None => x00
  end.

Section WithPlatform.
Context {P : Platform}.

Definition isCryptoSupported : bool := crypto_available.

Definition generateSalt (length : nat) (r : rng) : list byte * rng :=
  getRandomValues length r.

Definition generateIV (r : rng) : list byte * rng :=
  getRandomValues 12 r.

Definition lift_atob (r : option jsstring) : result jsstring :=
  match r with
  | Some s => Ok s
  | None => Throw InvalidCharacterError
  end.

Definition arrayBufferToBase64 (bytes : list byte) : result jsstring :=
  let binary := map Byte.to_N bytes in
  lift_atob (btoa binary).

Definition base64ToArrayBuffer (base64 : jsstring) : result (list byte) :=
  binary <- lift_atob (atob base64) ;;
  Ok (map to_uint8 binary).

Definition deriveKey (passphrase : jsstring) (salt : list byte) (iterations : Z)
  : result CryptoKey :=
  let passphraseBytes := TextEncoder_encode passphrase in
  subtle_deriveKey passphraseBytes salt iterations.

(** [!passphrase || passphrase.trim().length === 0] *)
Definition passphrase_blank (passphrase : jsstring) : bool :=
  match passphrase with
  | [] => true
  | _ => (List.length (trim passphrase) =? 0)%nat
  end.

(** [options.iterations || 200000] *)
Definition resolve_iterations (options : EncryptionOptions) : Z :=
  match opt_iterations options with
  | Some (Num n) => if (n =? 0)%Z then 200000%Z else n
  | Some NaN | None => 200000%Z
  end.

(** [options.algorithm || 'AES-GCM'] *)
Definition resolve_algorithm (options : EncryptionOptions) : jsstring :=
  match opt_algorithm options with
  | Some a => algorithm_string a
  | None => js "AES-GCM"
  end.

(** [typeof plaintext === 'string' ? new TextEncoder().encode(plaintext)
    : new Uint8Array(plaintext)] *)
Definition plaintext_bytes (plaintext : plaintext_input) : list byte :=
  match plaintext with
  | Text s => TextEncoder_encode s
  | Buffer bytes => bytes
  end.

Definition encrypt (plaintext : plaintext_input) (passphrase : jsstring)
    (options : EncryptionOptions) (r : rng) : result EncryptionPayload :=
  if negb isCryptoSupported then
    Throw (Error (js "Web Crypto API is not supported in this browser"))
  else if passphrase_blank passphrase then
    Throw (Error (js "Passphrase cannot be empty"))
  else
    let iterations := resolve_iterations options in
    let algorithm := resolve_algorithm options in
    let (salt, r1) := generateSalt 16 r in
    let (iv, _) := generateIV r1 in
    key <- deriveKey passphrase salt iterations ;;
    let plaintextBytes := plaintext_bytes plaintext in
    ciphertextBuffer <- subtle_encrypt algorithm iv key plaintextBytes ;;
    salt64 <- arrayBufferToBase64 salt ;;
    iv64 <- arrayBufferToBase64 iv ;;
    ct64 <- arrayBufferToBase64 ciphertextBuffer ;;
    Ok {| alg := algorithm;
          kdf := js "PBKDF2";
          salt := salt64;
          iv := iv64;
          iterations := iterations;
          ct := ct64 |}.

(** The [catch (err)] block of [decrypt]. *)
Definition decrypt_catch (err : exn) : result jsstring :=
  match err with
  | ErrorObj _ message =>
      if includes (js "operation-specific") message then
        Throw (Error (js "Incorrect passphrase or corrupted data"))
      else if includes (js "InvalidAccessError") message then
        Throw (Error (js "Incorrect passphrase"))
      else Throw err
  | NonError =>
      Throw (Error (js "Decryption failed. Please check your passphrase and payload."))
  end.

Definition decrypt (payload : EncryptionPayload) (passphrase : jsstring)
  : result jsstring :=
  if negb isCryptoSupported then
    Throw (Error (js "Web Crypto API is not supported in this browser"))
  else if passphrase_blank passphrase then
    Throw (Error (js "Passphrase cannot be empty"))
  else
    try_catch
      (salt <- base64ToArrayBuffer (salt payload) ;;
       iv <- base64ToArrayBuffer (iv payload) ;;
       ciphertext <- base64ToArrayBuffer (ct payload) ;;
       key <- deriveKey passphrase salt (iterations payload) ;;
       plaintextBuffer <- subtle_decrypt (alg payload) iv key ciphertext ;;
       Ok (TextDecoder_decode plaintextBuffer))
      decrypt_catch.

(** [payload: any], as [parsePayload] receives or parses it. *)
Inductive payload_input :=
| InString (s : jsstring)
| InObject (v : value).

Definition lift_json (r : option value) : result value :=
  match r with
  | Some v => Ok v
  | None => Throw (ErrorObj (js "SyntaxError") (engine_message (js "SyntaxError")))
  end.

(** [payload.key] *)
Definition get (payload : value) (key : jsstring) : result value :=
  match payload with
  | VObj props =>
      Ok match lookup key props with
         | Some v => v
         | None => VUndefined
         end
  | VNull | VUndefined => Throw TypeError
  | VBool _ | VNum _ | VStr _ | VArr _ => Ok VUndefined
  end.

(** [!payload.key] *)
Definition absent (payload : value) (key : jsstring) : result bool :=
  v <- get payload key ;; Ok (negb (truthy v)).

(** [a || b] on conditions that may throw *)
Definition or_else (a b : result bool) : result bool :=
  x <- a ;; if x then Ok true else b.

(** The first [try] block of [parsePayload]. *)
Definition parse_input (input : payload_input) : result value :=
  try_catch
    match input with
    | InString s =>
        try_catch
          (decoded <- lift_atob (atob s) ;; lift_json (JSON_parse decoded))
          (fun _ => lift_json (JSON_parse s))
    | InObject v => Ok v
    end
    (fun _ => Throw (Error
       (js "Invalid payload format. Must be valid JSON or Base64-encoded JSON."))).

(** The string a template literal makes of a value, where that does not
    throw. *)
Fixpoint ToString (v : value) : jsstring :=
  match v with
  | VUndefined => js "undefined"
  | VNull => js "null"
  | VBool true => js "true"
  | VBool false => js "false"
  | VNum n =>
      if (Z.abs n <? 2 ^ 53)%Z then Number_toString n
      else Number_toString_large n
  | VStr s => s
  | VArr items =>
      join (js ",")
        (map (fun x => match x with
                       | VUndefined | VNull => []
                       | _ => ToString x
                       end) items)
  | VObj _ => js "[object Object]"
  end.

(** [`${v}`] *)
Definition template (v : value) : result jsstring :=
  if toString_throws v then Throw TypeError else Ok (ToString v).

(** The checks [parsePayload] makes once it has a payload. *)
Definition check (payload : value) : result value :=
  missing <- or_else (absent payload (js "alg"))
            (or_else (absent payload (js "kdf"))
            (or_else (absent payload (js "salt"))
            (or_else (absent payload (js "iv"))
            (or_else (absent payload (js "iterations"))
                     (absent payload (js "ct")))))) ;;
  if missing then
    Throw (Error (js "Payload missing required fields: alg, kdf, salt, iv, iterations, ct"))
  else
    a <- get payload (js "alg") ;;
    if negb (strict_eq_str a (js "AES-GCM")) then
      named <- template a ;;
      Throw (Error (js "Unsupported algorithm: " ++ named
                      ++ js ". Only AES-GCM is supported."))
    else
      k <- get payload (js "kdf") ;;
      if negb (strict_eq_str k (js "PBKDF2")) then
        named <- template k ;;
        Throw (Error (js "Unsupported KDF: " ++ named
                        ++ js ". Only PBKDF2 is supported."))
      else Ok payload.

Definition parsePayload (input : payload_input) : result value :=
  payload <- parse_input input ;;
  check payload.

(** The object an [EncryptionPayload] is, keys in declaration order. *)
Definition payload_value (p : EncryptionPayload) : value :=
  VObj [ (js "alg", VStr (alg p));
         (js "kdf", VStr (kdf p));
         (js "salt", VStr (salt p));
         (js "iv", VStr (iv p));
         (js "iterations", VNum (iterations p));
         (js "ct", VStr (ct p)) ].

Definition encodePayload (payload : EncryptionPayload) : result jsstring :=
  let json := JSON_stringify (payload_value payload) in
  lift_atob (btoa json).

End WithPlatform.

(** *** [calculatePasswordStrength] *)

(** [/[a-z]/], [/[A-Z]/], [/[0-9]/] and [/[^a-zA-Z0-9]/] on one code unit. *)
Definition is_lower (c : N) : bool := ((97 <=? c) && (c <=? 122))%N.
Definition is_upper (c : N) : bool := ((65 <=? c) && (c <=? 90))%N.
Definition is_digit (c : N) : bool := ((48 <=? c) && (c <=? 57))%N.
Definition is_symbol (c : N) : bool :=
  negb (is_lower c || is_upper c || is_digit c).

(** [regex.test(password)] for a one-character class *)
Definition test (class : N -> bool) (password : jsstring) : bool :=
  existsb class password.

(** The number [chars * Math.log2(charset)], kept exact: [chars] and
    [charset] are integers, and every comparison with an integer is a
    comparison of integer powers. *)
Record entropy_bits := {
  chars : Z;
  charset : Z;
}.

(** [e < t] *)
Definition entropy_ltb (e : entropy_bits) (t : Z) : bool :=
  (charset e ^ chars e <? 2 ^ t)%Z.

(** [Math.round(e)]: the integer [k] with [k - 1/2 <= e < k + 1/2].  It
    is the exact product that is rounded here; the binary64 product can
    round to the neighbouring integer only where it lies within its own
    rounding error of a half. *)
Definition Math_round (e : entropy_bits) : Z :=
  ((Z.log2 (charset e ^ (2 * chars e)) + 1) / 2)%Z.

Record strength := {
  score : Z;
  entropy : Z;
  feedback : jsstring;
}.

Definition charSetSize (password : jsstring) : Z :=
  ((if test is_lower password then 26 else 0)
   + (if test is_upper password then 26 else 0)
   + (if test is_digit password then 10 else 0)
   + (if test is_symbol password then 32 else 0))%Z.

Definition calculatePasswordStrength (password : jsstring) : strength :=
  match password with
  | [] => {| score := 0; entropy := 0; feedback := js "Password required" |}
  | _ =>
      let size := charSetSize password in
      let e := {| chars := Z.of_nat (List.length password);
                  charset := if (size =? 0)%Z then 1%Z else size |} in
      let (score, feedback) :=
        if entropy_ltb e 28 then (0, js "Very weak - use longer passphrase")
        else if entropy_ltb e 36 then (1, js "Weak - add more characters")
        else if entropy_ltb e 60 then (2, js "Fair - consider more complexity")
        else if entropy_ltb e 128 then (3, js "Strong - good passphrase")
        else (4, js "Very strong - excellent") in
      {| score := score; entropy := Math_round e; feedback := feedback |}
  end%Z.

End Crypto.
Export Crypto.

(* ================================================================= *)
(** ** The strength estimate, in the words of the specification *)

Module StrengthSpec.

Import Stdlib.Reals.Reals.
Local Open Scope R_scope.

Definition log2 (x : R) : R := ln x / ln 2.

(** [length * log2(charsetSize)], the charset size floored at 1. *)
Definition exact_entropy (password : jsstring) : R :=
  INR (List.length password) * log2 (IZR (Z.max 1 (charSetSize password))).

(** The step function from entropy to score and feedback. *)
Inductive step (h : R) : Z -> jsstring -> Prop :=
| very_weak : h < 28 -> step h 0 (js "Very weak - use longer passphrase")
| weak : 28 <= h < 36 -> step h 1 (js "Weak - add more characters")
| fair : 36 <= h < 60 -> step h 2 (js "Fair - consider more complexity")
| strong : 60 <= h < 128 -> step h 3 (js "Strong - good passphrase")
| very_strong : 128 <= h -> step h 4 (js "Very strong - excellent").

(** [k] is [h] rounded to the nearest integer, halves upwards. *)
Definition rounds_to (h : R) (k : Z) : Prop :=
  IZR k - 1 / 2 <= h < IZR k + 1 / 2.

(** The thresholds, read on the rounded entropy that is reported. *)
Definition score_of_reported (entropy : Z) : Z :=
  if (entropy <? 28)%Z then 0%Z
  else if (entropy <? 36)%Z then 1%Z
  else if (entropy <? 60)%Z then 2%Z
  else if (entropy <? 128)%Z then 3%Z
  else 4%Z.

(** How far [chars * log2 charset] keeps from a threshold.  [last_below]
    is the largest length whose entropy is below [t] bits; [margin_check]
    says that this length stays more than 1/8 bit below [t] and the next
    one gets more than 1/8 bit above it. *)
Definition last_below (charset : Z) (t : nat) : nat :=
  Nat.pred (List.length
    (filter (fun n => (charset ^ Z.of_nat n <? 2 ^ Z.of_nat t)%Z) (seq 0 (S t)))).

Definition margin_check (charset : Z) (t : nat) : bool :=
  let n0 := last_below charset t in
  ((charset ^ Z.of_nat (8 * n0) <? 2 ^ Z.of_nat (8 * t - 1))
   && (2 ^ Z.of_nat (8 * t + 1) <=? charset ^ Z.of_nat (8 * S n0)))%Z.

End StrengthSpec.

(** The four classes of characters the estimate tells apart. *)
Inductive char_class := Lowercase | Uppercase | Digit | Symbol.

Definition in_class (cls : char_class) (c : N) : bool :=
  match cls with
  | Lowercase => is_lower c
  | Uppercase => is_upper c
  | Digit => is_digit c
  | Symbol => is_symbol c
  end.

(** The share of each class in the charset size. *)
Definition class_size (cls : char_class) : Z :=
  match cls with
  | Lowercase | Uppercase => 26%Z
  | Digit => 10%Z
  | Symbol => 32%Z
  end.

(* ================================================================= *)
(** ** [src/lib/storage.ts] *)

Module Storage.

Record HistoryItem := {
  id : jsstring;
  name : jsstring;
  timestamp : Z;
  payload : EncryptionPayload;
  size : Z;
}.

(** [Omit<HistoryItem, 'id' | 'timestamp'>] *)
Record NewItem := {
  new_name : jsstring;
  new_payload : EncryptionPayload;
  new_size : Z;
}.

Definition MAX_ITEMS : nat := 20.

(** What [localStorage.getItem(STORAGE_KEY)] finds.  The stored text is
    always written as [JSON.stringify] of an array of items and read back
    with [JSON.parse]; the model keeps the array and not its text.
    [Unreadable] is any text [getHistory] gives up on: the empty string
    or one [JSON.parse] rejects.  [Holds] is a store as this module
    leaves it, the JSON text of an array of items; a text that parses to
    anything else (say [[null]], which other code would have to put
    there) has no value here, and nothing below speaks of it. *)
Inductive stored :=
| Absent
| Unreadable
| Holds (items : list HistoryItem).

(** The [localStorage] object: its content under [STORAGE_KEY], and
    whether a [setItem] of a given array goes through (it throws when the
    quota is exceeded). *)
Record localStorage := {
  content : stored;
  accepts : list HistoryItem -> bool;
}.

(** [None] where [typeof window === 'undefined'].  [isCryptoSupported]
    makes the same test first, so [crypto_available] is false wherever
    there is no window: a state with [None] here and [crypto_available]
    true is not one the code is ever in. *)
Definition window := option localStorage.

(** [items.sort((a, b) => b.timestamp - a.timestamp)]: the stable sort,
    larger timestamps first. *)
Fixpoint insert_newest_first (x : HistoryItem) (l : list HistoryItem) : list HistoryItem :=
  match l with
  | [] => [x]
  | y :: rest =>
      if (timestamp x <? timestamp y)%Z
      then y :: insert_newest_first x rest
      else x :: l
  end.

Fixpoint sort_newest_first (l : list HistoryItem) : list HistoryItem :=
  match l with
  | [] => []
  | x :: rest => insert_newest_first x (sort_newest_first rest)
  end.

Definition getHistory (w : window) : list HistoryItem :=
  match w with
  | None => []
  | Some ls =>
      match content ls with
      | Absent | Unreadable => []
      | Holds items => sort_newest_first items
      end
  end.

(** [localStorage.setItem(STORAGE_KEY, JSON.stringify(items))] *)
Definition setItem (w : window) (items : list HistoryItem) : result window :=
  match w with
  | None => Throw (ErrorObj (js "ReferenceError") (js "localStorage is not defined"))
  | Some ls =>
      if accepts ls items
      then Ok (Some {| content := Holds items; accepts := accepts ls |})
      else Throw (ErrorObj (js "QuotaExceededError") [])
  end.

(** [uuid] is what [crypto.randomUUID()] returns and [now] what
    [Date.now()] returns in this call. *)
Definition addToHistory (item : NewItem) (uuid : jsstring) (now : Z) (w : window)
  : result window :=
  try_catch
    (let history := getHistory w in
     let newItem := {| id := uuid;
                       name := new_name item;
                       timestamp := now;
                       payload := new_payload item;
                       size := new_size item |} in
     let history := newItem :: history in
     let trimmed := firstn MAX_ITEMS history in
     setItem w trimmed)
    (fun _ => Throw (Error (js "Could not save to history. Storage may be full."))).

Definition removeFromHistory (target : jsstring) (w : window) : window :=
  let history := getHistory w in
  let filtered := filter (fun item => negb (str_eqb (id item) target)) history in
  match setItem w filtered with
  | Ok w' => w'
  | Throw _ => w
  end.

Definition clearHistory (w : window) : window :=
  match w with
  | None => None
  | Some ls => Some {| content := Absent; accepts := accepts ls |}
  end.

(** One [addToHistory] call: the entry and what the random source and
    the clock gave it. *)
Record append := {
  entry : NewItem;
  uuid : jsstring;
  now : Z;
}.


(** A run of [addToHistory] calls, oldest first; it stops at the first
    call that throws. *)
Fixpoint appends (calls : list append) (w : window) : result window :=
  match calls with
  | [] => Ok w
  | a :: rest =>
      w' <- addToHistory (entry a) (uuid a) (now a) w ;;
      appends rest w'
  end.

(** Larger timestamps first. *)
Definition newest_first (l : list HistoryItem) : Prop :=
  StronglySorted (fun a b => (timestamp b <= timestamp a)%Z) l.


End Storage.
Export Storage.

(* ================================================================= *)
(** ** A reference platform

    An executable instance of [Platform], used to run the code on
    concrete inputs and to show that [PlatformLaws] can be met.  Its
    UTF-8 codec follows the Encoding standard and its JSON follows
    ECMA-404 on texts whose numbers are integer literals; its key
    derivation and cipher are stand-ins with the interface of PBKDF2 and
    AES-GCM (a 16-byte tag after the ciphertext), not the real ones, and
    it prints a number beyond the safe integers by its digits, where an
    engine rounds and, from 10^21 on, writes an exponent. *)

Module Reference.

Local Open Scope N_scope.

(** *** UTF-8 *)

Definition is_high_surrogate (c : N) : bool := (55296 <=? c) && (c <=? 56319).
Definition is_low_surrogate (c : N) : bool := (56320 <=? c) && (c <=? 57343).

(** The scalar values of a string; a lone surrogate becomes U+FFFD. *)
Fixpoint scalar_values (s : jsstring) : list N :=
  match s with
  | [] => []
  | c :: rest =>
      if is_high_surrogate c then
        match rest with
        | d :: rest' =>
            if is_low_surrogate d
            then (65536 + (c - 55296) * 1024 + (d - 56320)) :: scalar_values rest'
            else 65533 :: scalar_values rest
        | [] => [65533]
        end
      else if is_low_surrogate c then 65533 :: scalar_values rest
      else c :: scalar_values rest
  end.

Definition utf8_bytes (cp : N) : list N :=
  if cp <? 128 then [cp]
  else if cp <? 2048 then [192 + cp / 64; 128 + cp mod 64]
  else if cp <? 65536 then
    [224 + cp / 4096; 128 + (cp / 64) mod 64; 128 + cp mod 64]
  else
    [240 + cp / 262144; 128 + (cp / 4096) mod 64;
     128 + (cp / 64) mod 64; 128 + cp mod 64].

Definition utf8_encode (s : jsstring) : list byte :=
  map to_uint8 (flat_map utf8_bytes (scalar_values s)).

(** State of the UTF-8 decoder inside a multi-byte sequence. *)
Record pending := {
  code_point : N;
  bytes_needed : N;
  lower_boundary : N;
  upper_boundary : N;
}.

(** A byte met outside a sequence: what it emits and the state after. *)
Definition lead_byte (b : N) : list N * option pending :=
  if b <=? 127 then ([b], None)
  else if (194 <=? b) && (b <=? 223) then
    ([], Some {| code_point := b - 192; bytes_needed := 1;
                 lower_boundary := 128; upper_boundary := 191 |})
  else if (224 <=? b) && (b <=? 239) then
    ([], Some {| code_point := b - 224; bytes_needed := 2;
                 lower_boundary := if b =? 224 then 160 else 128;
                 upper_boundary := if b =? 237 then 159 else 191 |})
  else if (240 <=? b) && (b <=? 244) then
    ([], Some {| code_point := b - 240; bytes_needed := 3;
                 lower_boundary := if b =? 240 then 144 else 128;
                 upper_boundary := if b =? 244 then 143 else 191 |})
  else ([65533], None).

Fixpoint utf8_code_points (st : option pending) (bytes : list N) : list N :=
  match bytes with
  | [] => match st with Some _ => [65533] | None => [] end
  | b :: rest =>
      match st with
      | None =>
          let (out, st') := lead_byte b in out ++ utf8_code_points st' rest
      | Some p =>
          if (lower_boundary p <=? b) && (b <=? upper_boundary p) then
            let cp := code_point p * 64 + (b - 128) in
            if bytes_needed p =? 1 then cp :: utf8_code_points None rest
            else utf8_code_points
                   (Some {| code_point := cp; bytes_needed := bytes_needed p - 1;
                            lower_boundary := 128; upper_boundary := 191 |}) rest
          else
            let (out, st') := lead_byte b in
            65533 :: out ++ utf8_code_points st' rest
      end
  end.

Definition utf16_units (cp : N) : jsstring :=
  if cp <? 65536 then [cp]
  else [55296 + (cp - 65536) / 1024; 56320 + (cp - 65536) mod 1024].

Definition strip_bom (bytes : list N) : list N :=
  match bytes with
  | 239 :: 187 :: 191 :: rest => rest
  | _ => bytes
  end.

Definition utf8_decode (bytes : list byte) : jsstring :=
  flat_map utf16_units (utf8_code_points None (strip_bom (map Byte.to_N bytes))).

(** A Unicode scalar value. *)
Definition scalar (cp : N) : Prop :=
  cp < 1114112 /\ ~ (55296 <= cp <= 57343).

(** A string with no lone surrogate, and one that opens with U+FEFF. *)
Fixpoint well_formed (s : jsstring) : bool :=
  match s with
  | [] => true
  | c :: rest =>
      if is_high_surrogate c then
        match rest with
        | d :: rest' => is_low_surrogate d && well_formed rest'
        | [] => false
        end
      else negb (is_low_surrogate c) && (c <? 65536) && well_formed rest
  end.

Definition starts_with_bom (s : jsstring) : bool :=
  match s with
  | c :: _ => c =? 65279
  | [] => false
  end.

(** *** JSON *)

Definition hex_digit (n : N) : N := if n <? 10 then 48 + n else 87 + n.

Definition unicode_escape (c : N) : jsstring :=
  [92; 117; hex_digit (c / 4096); hex_digit ((c / 256) mod 16);
   hex_digit ((c / 16) mod 16); hex_digit (c mod 16)].

Definition quote_char (c : N) : jsstring :=
  if c =? 34 then [92; 34]
  else if c =? 92 then [92; 92]
  else if c =? 8 then [92; 98]
  else if c =? 9 then [92; 116]
  else if c =? 10 then [92; 110]
  else if c =? 12 then [92; 102]
  else if c =? 13 then [92; 114]
  else if c <? 32 then unicode_escape c
  else [c].

Fixpoint quote_chars (s : jsstring) : jsstring :=
  match s with
  | [] => []
  | c :: rest =>
      if is_high_surrogate c then
        match rest with
        | d :: rest' =>
            if is_low_surrogate d then c :: d :: quote_chars rest'
            else unicode_escape c ++ quote_chars rest
        | [] => unicode_escape c
        end
      else if is_low_surrogate c then unicode_escape c ++ quote_chars rest
      else quote_char c ++ quote_chars rest
  end.

(** [QuoteJSONString] *)
Definition quote (s : jsstring) : jsstring := 34 :: quote_chars s ++ [34].

Fixpoint stringify (v : value) : jsstring :=
  match v with
  | VUndefined => js "undefined"
  | VNull => js "null"
  | VBool true => js "true"
  | VBool false => js "false"
  | VNum n => Number_toString n
  | VStr s => quote s
  | VArr items =>
      91 :: join [44] (map (fun x => match x with
                                     | VUndefined => js "null"
                                     | _ => stringify x
                                     end) items) ++ [93]
  | VObj props =>
      123 :: join [44]
        ((fix members (ps : list (jsstring * value)) : list jsstring :=
            match ps with
            | [] => []
            | (k, VUndefined) :: rest => members rest
            | (k, x) :: rest => (quote k ++ 58 :: stringify x) :: members rest
            end) props) ++ [125]
  end.

Definition is_json_whitespace (c : N) : bool :=
  (c =? 9) || (c =? 10) || (c =? 13) || (c =? 32).

Fixpoint skip_ws (s : jsstring) : jsstring :=
  match s with
  | c :: rest => if is_json_whitespace c then skip_ws rest else s
  | [] => []
  end.

Definition hex_value (c : N) : option N :=
  if (48 <=? c) && (c <=? 57) then Some (c - 48)
  else if (97 <=? c) && (c <=? 102) then Some (c - 87)
  else if (65 <=? c) && (c <=? 70) then Some (c - 55)
  else None.

Definition unescape (e : N) : option N :=
  if e =? 34 then Some 34
  else if e =? 92 then Some 92
  else if e =? 47 then Some 47
  else if e =? 98 then Some 8
  else if e =? 102 then Some 12
  else if e =? 110 then Some 10
  else if e =? 114 then Some 13
  else if e =? 116 then Some 9
  else None.

Definition consed (c : N) (r : option (jsstring * jsstring)) : option (jsstring * jsstring) :=
  match r with
  | Some (s, rest) => Some (c :: s, rest)
  | None => None
  end.

(** The characters of a string literal after its opening quote, and the
    text after its closing quote. *)
Fixpoint parse_chars (s : jsstring) : option (jsstring * jsstring) :=
  match s with
  | [] => None
  | c :: rest =>
      if c =? 34 then Some ([], rest)
      else if c =? 92 then
        match rest with
        | 117 :: h1 :: h2 :: h3 :: h4 :: rest' =>
            match hex_value h1, hex_value h2, hex_value h3, hex_value h4 with
            | Some a, Some b, Some c', Some d =>
                consed (a * 4096 + b * 256 + c' * 16 + d) (parse_chars rest')
            | _, _, _, _ => None
            end
        | e :: rest' =>
            match unescape e with
            | Some c' => consed c' (parse_chars rest')
            | None => None
            end
        | [] => None
        end
      else if c <? 32 then None
      else consed c (parse_chars rest)
  end.

Definition digit_of (c : N) (d : Decimal.uint) : option Decimal.uint :=
  match c with
  | 48 => Some (Decimal.D0 d) | 49 => Some (Decimal.D1 d)
  | 50 => Some (Decimal.D2 d) | 51 => Some (Decimal.D3 d)
  | 52 => Some (Decimal.D4 d) | 53 => Some (Decimal.D5 d)
  | 54 => Some (Decimal.D6 d) | 55 => Some (Decimal.D7 d)
  | 56 => Some (Decimal.D8 d) | 57 => Some (Decimal.D9 d)
  | _ => None
  end.

(** The longest run of digits at the front of a text. *)
Fixpoint parse_digits (s : jsstring) : Decimal.uint * jsstring :=
  match s with
  | [] => (Decimal.Nil, [])
  | c :: rest =>
      let (d, rest') := parse_digits rest in
      match digit_of c d with
      | Some d' => (d', rest')
      | None => (Decimal.Nil, s)
      end
  end.

(** An integer literal; a fraction or an exponent is not read. *)
Definition parse_unsigned (s : jsstring) : option (Decimal.uint * jsstring) :=
  let (d, rest) := parse_digits s in
  match d with
  | Decimal.Nil => None
  | Decimal.D0 Decimal.Nil | Decimal.D1 _ | Decimal.D2 _ | Decimal.D3 _
  | Decimal.D4 _ | Decimal.D5 _ | Decimal.D6 _ | Decimal.D7 _
  | Decimal.D8 _ | Decimal.D9 _ =>
      match rest with
      | c :: _ => if (c =? 46) || (c =? 101) || (c =? 69) then None else Some (d, rest)
      | [] => Some (d, rest)
      end
  | Decimal.D0 _ => None
  end.

Definition parse_number (s : jsstring) : option (Z * jsstring) :=
  match s with
  | 45 :: s' =>
      match parse_unsigned s' with
      | Some (d, rest) => Some (Z.of_int (Decimal.Neg d), rest)
      | None => None
      end
  | _ =>
      match parse_unsigned s with
      | Some (d, rest) => Some (Z.of_int (Decimal.Pos d), rest)
      | None => None
      end
  end.

Definition expect (lit : jsstring) (v : value) (s : jsstring) : option (value * jsstring) :=
  if starts_with lit s then Some (v, skipn (List.length lit) s) else None.

(** A JSON value at the front of a text (after white space), the
    elements of an array after its [[], and the members of an object
    after its [{]. *)
Fixpoint parse_value (fuel : nat) (s : jsstring) : option (value * jsstring) :=
  match fuel with
  | O => None
  | S fuel =>
      match skip_ws s with
      | 34 :: rest =>
          match parse_chars rest with
          | Some (str, rest') => Some (VStr str, rest')
          | None => None
          end
      | 91 :: rest =>
          match skip_ws rest with
          | 93 :: rest' => Some (VArr [], rest')
          | _ =>
              match parse_elements fuel rest with
              | Some (items, rest') => Some (VArr items, rest')
              | None => None
              end
          end
      | 123 :: rest =>
          match skip_ws rest with
          | 125 :: rest' => Some (VObj [], rest')
          | _ =>
              match parse_members fuel rest with
              | Some (props, rest') => Some (VObj props, rest')
              | None => None
              end
          end
      | 116 :: _ => expect (js "true") (VBool true) (skip_ws s)
      | 102 :: _ => expect (js "false") (VBool false) (skip_ws s)
      | 110 :: _ => expect (js "null") VNull (skip_ws s)
      | _ =>
          match parse_number (skip_ws s) with
          | Some (n, rest) => Some (VNum n, rest)
          | None => None
          end
      end
  end

with parse_elements (fuel : nat) (s : jsstring) : option (list value * jsstring) :=
  match fuel with
  | O => None
  | S fuel =>
      match parse_value fuel s with
      | Some (v, rest) =>
          match skip_ws rest with
          | 44 :: rest' =>
              match parse_elements fuel rest' with
              | Some (items, rest'') => Some (v :: items, rest'')
              | None => None
              end
          | 93 :: rest' => Some ([v], rest')
          | _ => None
          end
      | None => None
      end
  end

with parse_members (fuel : nat) (s : jsstring) : option (list (jsstring * value) * jsstring) :=
  match fuel with
  | O => None
  | S fuel =>
      match skip_ws s with
      | 34 :: rest =>
          match parse_chars rest with
          | Some (key, rest1) =>
              match skip_ws rest1 with
              | 58 :: rest2 =>
                  match parse_value fuel rest2 with
                  | Some (v, rest3) =>
                      match skip_ws rest3 with
                      | 44 :: rest4 =>
                          match parse_members fuel rest4 with
                          | Some (props, rest5) => Some ((key, v) :: props, rest5)
                          | None => None
                          end
                      | 125 :: rest4 => Some ([(key, v)], rest4)
                      | _ => None
                      end
                  | None => None
                  end
              | _ => None
              end
          | None => None
          end
      | _ => None
      end
  end.

Definition parse (text : jsstring) : option value :=
  match parse_value (2 * List.length text + 2) text with
  | Some (v, rest) =>
      match skip_ws rest with
      | [] => Some v
      | _ => None
      end
  | None => None
  end.

(** A character that ends an integer literal. *)
Definition ends_number (c : N) : Prop :=
  (forall d, digit_of c d = None) /\ c <> 46 /\ c <> 101 /\ c <> 69.

(** No leading zero, and at least one digit. *)
Definition canonical (d : Decimal.uint) : Prop :=
  match d with
  | Decimal.Nil => False
  | Decimal.D0 Decimal.Nil => True
  | Decimal.D0 _ => False
  | _ => True
  end.

(** *** Stand-ins for the random source, PBKDF2 and AES-GCM *)

Definition random_byte (seed : N) (i : nat) : byte :=
  to_uint8 (seed * 37 + N.of_nat i * 101 + 11).

Definition random_values (n : nat) (seed : N) : list byte * N :=
  (map (random_byte seed) (seq 0 n), seed + N.of_nat n).

Definition checksum (bytes : list byte) : N :=
  fold_right (fun b acc => Byte.to_N b + acc) 0 bytes mod 256.

(** A key is one byte here. *)
Definition derive (engine_message : jsstring -> jsstring)
    (passphrase salt : list byte) (iterations : Z) : result N :=
  if ((0 <? iterations) && (iterations <? 2 ^ 32))%Z then
    Ok ((checksum passphrase + checksum salt + Z.to_N iterations) mod 256)
  else Throw (ErrorObj (js "OperationError") (engine_message (js "OperationError"))).

Definition tag (iv : list byte) (key : N) (body : list byte) : list byte :=
  to_uint8 (checksum body) :: to_uint8 (checksum iv) :: to_uint8 key
    :: repeat x00 13.

Definition seal (engine_message : jsstring -> jsstring)
    (name : jsstring) (iv : list byte) (key : N) (data : list byte)
  : result (list byte) :=
  if str_eqb name (js "AES-GCM") then
    let body := map (fun d => to_uint8 (Byte.to_N d + key)) data in
    Ok (body ++ tag iv key body)
  else Throw (ErrorObj (js "NotSupportedError") (engine_message (js "NotSupportedError"))).

Definition bytes_eqb (a b : list byte) : bool :=
  if list_eq_dec Byte.byte_eq_dec a b then true else false.

Definition open (engine_message : jsstring -> jsstring)
    (name : jsstring) (iv : list byte) (key : N) (data : list byte)
  : result (list byte) :=
  if str_eqb name (js "AES-GCM") then
    let n := (List.length data - 16)%nat in
    let body := firstn n data in
    if (16 <=? List.length data)%nat && bytes_eqb (skipn n data) (tag iv key body) then
      Ok (map (fun c => to_uint8 (Byte.to_N c + 256 - key mod 256)) body)
    else Throw (ErrorObj (js "OperationError") (engine_message (js "OperationError")))
  else Throw (ErrorObj (js "NotSupportedError") (engine_message (js "NotSupportedError"))).

(** The messages Firefox gives the errors met here. *)
Definition gecko_messages (name : jsstring) : jsstring :=
  if str_eqb name (js "OperationError") then
    js "The operation failed for an operation-specific reason"
  else if str_eqb name (js "InvalidCharacterError") then
    js "String contains an invalid character"
  else if str_eqb name (js "SyntaxError") then
    js "JSON.parse: unexpected character"
  else if str_eqb name (js "TypeError") then
    js "payload is null"
  else [].

(** An engine that gives its [DOMException]s no message text. *)
Definition silent_messages (name : jsstring) : jsstring := [].

Definition platform_with (messages : jsstring -> jsstring) : Platform :=
  {| crypto_available := true;
     engine_message := messages;
     rng := N;
     getRandomValues := random_values;
     CryptoKey := N;
     subtle_deriveKey := derive messages;
     subtle_encrypt := seal messages;
     subtle_decrypt := open messages;
     TextEncoder_encode := utf8_encode;
     TextDecoder_decode := utf8_decode;
     JSON_parse := parse;
     JSON_stringify := stringify;
     Number_toString_large := Number_toString |}.

Definition platform : Platform := platform_with gecko_messages.

End Reference.

(* ================================================================= *)
(** ** What the proofs ask of the platform *)

Module Laws.

(** Bit [i] of a byte sequence, counted from the low bit of the first
    byte, inverted. *)
Definition flip (b : byte) (k : nat) : byte :=
  to_uint8 (N.lxor (Byte.to_N b) (2 ^ N.of_nat k)).

Fixpoint flip_bit (i : nat) (bytes : list byte) : list byte :=
  match bytes with
  | [] => []
  | b :: rest =>
      if (i <? 8)%nat then flip b i :: rest
      else b :: flip_bit (i - 8) rest
  end.

(** A string [btoa] takes: every code unit is at most 0xFF. *)
Definition latin1 (s : jsstring) : Prop :=
  forallb (fun c => c <? 256)%N s = true.

(** The random source returns as many bytes as asked for; PBKDF2 accepts
    an iteration count that fits its unsigned 32-bit parameter and is not
    zero; AES-GCM encrypts under a 12-byte IV and decrypts what it
    encrypted. *)
Class CipherLaws (P : Platform) : Prop := {
  random_length : forall n (r : rng),
    List.length (fst (getRandomValues n r)) = n;
  deriveKey_total : forall passphrase salt n,
    (0 < n < 2 ^ 32)%Z -> exists key, subtle_deriveKey passphrase salt n = Ok key;
  encrypt_total : forall iv (key : CryptoKey) data,
    List.length iv = 12%nat ->
    exists c, subtle_encrypt (js "AES-GCM") iv key data = Ok c;
  decrypt_encrypt : forall iv (key : CryptoKey) data c,
    subtle_encrypt (js "AES-GCM") iv key data = Ok c ->
    subtle_decrypt (js "AES-GCM") iv key c = Ok data;
}.

(** AES-GCM rejects, with an [OperationError], a ciphertext or an IV one
    bit away from what it produced or was given. *)
Class TamperLaws (P : Platform) : Prop := {
  tampered_ciphertext : forall iv (key : CryptoKey) data c i,
    subtle_encrypt (js "AES-GCM") iv key data = Ok c ->
    (i < 8 * List.length c)%nat ->
    subtle_decrypt (js "AES-GCM") iv key (flip_bit i c) = Throw OperationError;
  tampered_iv : forall iv (key : CryptoKey) data c i,
    subtle_encrypt (js "AES-GCM") iv key data = Ok c ->
    (i < 8 * List.length iv)%nat ->
    subtle_decrypt (js "AES-GCM") (flip_bit i iv) key c = Throw OperationError;
}.

(** [JSON.parse] reads back what [JSON.stringify] writes for a payload;
    that text opens with a brace, and has no code unit above 0xFF when
    the strings of the payload have none. *)
Class JSONLaws (P : Platform) : Prop := {
  parse_stringify : forall p,
    JSON_parse (JSON_stringify (payload_value p)) = Some (payload_value p);
  stringify_object : forall p,
    latin1 (alg p) -> latin1 (kdf p) -> latin1 (salt p) -> latin1 (iv p) ->
    latin1 (ct p) ->
    exists rest, JSON_stringify (payload_value p) = 123%N :: rest /\ latin1 rest;
}.

(** What a successful [encrypt] did. *)
Record encrypted {P : Platform} (plaintext : plaintext_input) (passphrase : jsstring)
    (options : EncryptionOptions) (payload : EncryptionPayload) : Prop := {
  enc_supported : crypto_available = true;
  enc_passphrase : passphrase_blank passphrase = false;
  enc_alg : alg payload = js "AES-GCM";
  enc_kdf : kdf payload = js "PBKDF2";
  enc_iterations : iterations payload = resolve_iterations options;
  enc_parts : exists salt_bytes iv_bytes key c,
    base64ToArrayBuffer (salt payload) = Ok salt_bytes /\
    base64ToArrayBuffer (iv payload) = Ok iv_bytes /\
    base64ToArrayBuffer (ct payload) = Ok c /\
    deriveKey passphrase salt_bytes (iterations payload) = Ok key /\
    subtle_encrypt (js "AES-GCM") iv_bytes key (plaintext_bytes plaintext) = Ok c;
}.

(** An envelope with bit [i] of its ciphertext bytes, or of its IV
    bytes, inverted and the bytes encoded again. *)
Definition flip_ciphertext_bit {P : Platform} (i : nat) (p : EncryptionPayload)
  : result EncryptionPayload :=
  bytes <- base64ToArrayBuffer (ct p) ;;
  ct' <- arrayBufferToBase64 (flip_bit i bytes) ;;
  Ok {| alg := alg p; kdf := kdf p; salt := salt p; iv := iv p;
        iterations := iterations p; ct := ct' |}.

Definition flip_iv_bit {P : Platform} (i : nat) (p : EncryptionPayload)
  : result EncryptionPayload :=
  bytes <- base64ToArrayBuffer (iv p) ;;
  iv' <- arrayBufferToBase64 (flip_bit i bytes) ;;
  Ok {| alg := alg p; kdf := kdf p; salt := salt p; iv := iv';
        iterations := iterations p; ct := ct p |}.

(** The number of bytes a Base64 field holds. *)
Definition byte_length {P : Platform} (field : jsstring) : nat :=
  match base64ToArrayBuffer field with
  | Ok bytes => List.length bytes
  | Throw _ => 0
  end.

(** The value of a property of a payload that is not [null]. *)
Definition field (payload : value) (key : jsstring) : value :=
  match payload with
  | VObj props =>
      match lookup key props with
      | Some v => v
      | None => VUndefined
      end
  | _ => VUndefined
  end.

(** A field that is there and is not empty: not [undefined], [null],
    [false], [0] or the empty string. *)
Definition present (payload : value) (key : jsstring) : Prop :=
  truthy (field payload key) = true.

(** What [parsePayload] asks of a payload. *)
Definition accepted (payload : value) : Prop :=
  present payload (js "alg") /\ present payload (js "kdf") /\
  present payload (js "salt") /\ present payload (js "iv") /\
  present payload (js "iterations") /\ present payload (js "ct") /\
  field payload (js "alg") = VStr (js "AES-GCM") /\
  field payload (js "kdf") = VStr (js "PBKDF2").

(** A Base64 text of at least one byte. *)
Definition decodes_nonempty (s : jsstring) : Prop :=
  exists bytes, atob s = Some bytes /\ bytes <> [].

(** The invariant the data model gives an envelope, on a parsed payload. *)
Definition envelope_invariant (payload : value) : Prop :=
  present payload (js "alg") /\ present payload (js "kdf") /\
  present payload (js "salt") /\ present payload (js "iv") /\
  present payload (js "iterations") /\ present payload (js "ct") /\
  field payload (js "alg") = VStr (js "AES-GCM") /\
  field payload (js "kdf") = VStr (js "PBKDF2") /\
  (exists s, field payload (js "salt") = VStr s /\ decodes_nonempty s) /\
  (exists s, field payload (js "iv") = VStr s /\ decodes_nonempty s) /\
  (exists n, field payload (js "iterations") = VNum n /\ (0 < n)%Z).

(** The same invariant on a typed envelope. *)
Definition valid_envelope (E : EncryptionPayload) : Prop :=
  alg E = js "AES-GCM" /\ kdf E = js "PBKDF2" /\
  decodes_nonempty (salt E) /\ decodes_nonempty (iv E) /\
  (0 < iterations E)%Z /\ decodes_nonempty (ct E).

(** What the caller of [decrypt] gets back stands for the plaintext: the
    same text, or a text whose UTF-8 bytes are the same bytes. *)
Definition recovers {P : Platform} (plaintext : plaintext_input) (text : jsstring) : Prop :=
  match plaintext with
  | Text s => text = s
  | Buffer bytes => TextEncoder_encode text = bytes
  end.

End Laws.
Export Laws.

(* ================================================================= *)
(** ** Inputs for the runs *)

Module Samples.

(** The scenario of the specification. *)
Definition hello : plaintext_input := Text (js "hello world").
Definition staple : jsstring := js "correct horse battery staple".

(** A payload with fields that are there and are not Base64. *)
Definition envelope_with (a : jsstring) (its : Z) : value :=
  VObj [ (js "alg", VStr a);
         (js "kdf", VStr (js "PBKDF2"));
         (js "salt", VStr (js "!"));
         (js "iv", VStr (js "!"));
         (js "iterations", VNum its);
         (js "ct", VStr (js "x")) ].

(** An envelope the reference platform makes of [hello]. *)
Definition sample : EncryptionPayload :=
  {| alg := js "AES-GCM";
     kdf := js "PBKDF2";
     salt := js "C3DVOp8Eac4zmP1ixyyR9g==";
     iv := js "W8Aliu9UuR6D6E2y";
     iterations := 200000;
     ct := js "p6Srq65ftq6xq6MRTj8AAAAAAAAAAAAA" |}.

(** History calls, one per tick of the clock. *)
Definition blank_item : NewItem :=
  {| new_name := js "Untitled";
     new_payload := sample;
     new_size := 11 |}.

Definition call (t : nat) : append :=
  {| entry := blank_item; uuid := Number_toString (Z.of_nat t); now := Z.of_nat t |}.

Definition empty_browser : window :=
  Some {| content := Absent; accepts := fun _ => true |}.

End Samples.
Export Samples.

(* ================================================================= *)
(** ** [src/lib/crypto.ts]: keys handed over as files *)

Module Keys.

(** The two [crypto.subtle] calls on JSON Web Keys. *)
Class KeyPlatform (P : Platform) := {
  (** [crypto.subtle.exportKey('jwk', key)] *)
  subtle_exportKey : CryptoKey -> result value;
  (** [crypto.subtle.importKey('jwk', jwk, {name: 'AES-GCM', length: 256},
      true, ['encrypt', 'decrypt'])] *)
  subtle_importKey : value -> result CryptoKey;
}.

Section WithPlatform.
Context {P : Platform} {K : KeyPlatform P}.

Definition exportKey (key : CryptoKey) : result jsstring :=
  exported <- subtle_exportKey key ;;
  lift_atob (btoa (JSON_stringify exported)).

Definition importKey (exportedKey : jsstring) : result CryptoKey :=
  try_catch
    (decoded <- lift_atob (atob exportedKey) ;;
     jwk <- lift_json (JSON_parse decoded) ;;
     subtle_importKey jwk)
    (fun _ => Throw (Error (js "Invalid key format"))).

Definition decryptWithKey (payload : EncryptionPayload) (key : CryptoKey)
  : result jsstring :=
  if negb isCryptoSupported then
    Throw (Error (js "Web Crypto API is not supported in this browser"))
  else
    try_catch
      (iv <- base64ToArrayBuffer (iv payload) ;;
       ciphertext <- base64ToArrayBuffer (ct payload) ;;
       plaintextBuffer <- subtle_decrypt (alg payload) iv key ciphertext ;;
       Ok (TextDecoder_decode plaintextBuffer))
      (fun _ => Throw (Error
         (js "Decryption with key failed. The key may not match this payload."))).

End WithPlatform.

(** A key that can be exported is imported back from its JSON Web Key;
    [JSON.parse] reads back the text [JSON.stringify] makes of a JSON Web
    Key, and that text has no code unit above 0xFF. *)
Class KeyLaws (P : Platform) (K : KeyPlatform P) : Prop := {
  import_export : forall (key : CryptoKey) jwk,
    subtle_exportKey key = Ok jwk -> subtle_importKey jwk = Ok key;
  jwk_parse : forall (key : CryptoKey) jwk,
    subtle_exportKey key = Ok jwk ->
    JSON_parse (JSON_stringify jwk) = Some jwk;
  jwk_latin1 : forall (key : CryptoKey) jwk,
    subtle_exportKey key = Ok jwk -> latin1 (JSON_stringify jwk);
}.

(** AES-GCM appends a 16-byte tag to the ciphertext. *)
Class TagLaws (P : Platform) : Prop := {
  ciphertext_length : forall iv (key : CryptoKey) data c,
    subtle_encrypt (js "AES-GCM") iv key data = Ok c ->
    List.length c = (List.length data + 16)%nat;
}.

(** *** JSON Web Keys on the reference platform

    The one-byte key of the reference platform as an octet-sequence key;
    its [k] is the Base64 text [btoa] gives the byte. *)

Definition jwk_of (k : jsstring) : value :=
  VObj [ (js "alg", VStr (js "A256GCM"));
         (js "ext", VBool true);
         (js "k", VStr k);
         (js "key_ops", VArr [VStr (js "encrypt"); VStr (js "decrypt")]);
         (js "kty", VStr (js "oct")) ].

Definition export_jwk (messages : jsstring -> jsstring) (key : N) : result value :=
  match btoa [key] with
  | Some k => Ok (jwk_of k)
  | None => Throw (ErrorObj (js "InvalidAccessError") (messages (js "InvalidAccessError")))
  end.

Definition import_jwk (messages : jsstring -> jsstring) (jwk : value) : result N :=
  let data_error := ErrorObj (js "DataError") (messages (js "DataError")) in
  match field jwk (js "kty"), field jwk (js "k") with
  | VStr kty, VStr k =>
      if str_eqb kty (js "oct") then
        match atob k with
        | Some [b] => Ok b
        | _ => Throw data_error
        end
      else Throw data_error
  | _, _ => Throw data_error
  end.

Definition reference_keys : KeyPlatform Reference.platform :=
  {| subtle_exportKey := export_jwk Reference.gecko_messages : @CryptoKey Reference.platform -> _;
     subtle_importKey := import_jwk Reference.gecko_messages : _ -> result (@CryptoKey Reference.platform) |}.

End Keys.
Export Keys.

(* ================================================================= *)
(** ** [src/lib/crypto.ts]: [generatePassphrase] *)

Module Passphrases.

Definition words : list jsstring :=
  [ js "anchor"; js "brief"; js "cloak"; js "dance"; js "ember"; js "frost";
    js "glory"; js "haven"; js "iron"; js "jewel"; js "knight"; js "lunar";
    js "maple"; js "noble"; js "ocean"; js "prism"; js "quest"; js "raven";
    js "sage"; js "tiger"; js "unity"; js "viper"; js "waves"; js "xenon";
    js "yield"; js "zenith"; js "alpha"; js "bravo"; js "coral"; js "delta";
    js "echo"; js "flame"; js "gamma"; js "halo"; js "iris"; js "jade" ].

(** The elements of a [Uint32Array] laid over a byte buffer, low byte
    first. *)
Fixpoint uint32_elements (bytes : list byte) : list N :=
  match bytes with
  | b0 :: b1 :: b2 :: b3 :: rest =>
      (Byte.to_N b0 + 2 ^ 8 * Byte.to_N b1 + 2 ^ 16 * Byte.to_N b2
       + 2 ^ 24 * Byte.to_N b3)%N :: uint32_elements rest
  | _ => []
  end.

Section WithPlatform.
Context {P : Platform}.

(** [crypto.getRandomValues(new Uint32Array(length))]: the array is
    filled with random bytes, and an array of more than 65536 bytes is
    turned down with a [QuotaExceededError]. *)
Definition getRandomUint32 (length : nat) (r : rng) : result (list N * rng) :=
  if (65536 <? 4 * N.of_nat length)%N then
    Throw (DOMException (js "QuotaExceededError"))
  else
    let (bytes, r') := getRandomValues (4 * length) r in
    Ok (uint32_elements bytes, r').

(** [length] is the argument; the call without one is
    [generatePassphrase 6].  [randomValues[i]] is read with [nth]: the
    array has [length] elements, all of them filled, whenever the random
    source returns as many bytes as it was asked for. *)
Definition generatePassphrase (length : nat) (r : rng) : result (jsstring * rng) :=
  random <- getRandomUint32 length r ;;
  let (randomValues, r') := random in
  let selected :=
    map (fun i =>
           let index := (nth i randomValues 0 mod N.of_nat (List.length words))%N in
           nth (N.to_nat index) words [])
        (seq 0 length) in
  Ok (join (js "-") selected, r').

End WithPlatform.

End Passphrases.
Export Passphrases.

(* ================================================================= *)
(** ** [src/lib/storage.ts]: [getHistoryItem] *)

Module Lookup.

(** [history.find((item) => item.id === id) || null] *)
Definition getHistoryItem (target : jsstring) (w : window) : option HistoryItem :=
  let history := getHistory w in
  find (fun item => str_eqb (id item) target) history.

(** The test of the [filter] in [removeFromHistory]. *)
Definition keeps (target : jsstring) (item : HistoryItem) : bool :=
  negb (str_eqb (id item) target).

(** The item an [addToHistory] call makes. *)
Definition new_item (item : NewItem) (uuid : jsstring) (now : Z) : HistoryItem :=
  {| id := uuid;
     name := new_name item;
     timestamp := now;
     payload := new_payload item;
     size := new_size item |}.

End Lookup.
Export Lookup.

(* ================================================================= *)
(** ** [src/components/crypto/PasswordStrengthMeter.tsx] *)

Module Meter.

Local Open Scope Z_scope.

Definition getColor (score : Z) : jsstring :=
  if score =? 0 then js "bg-red-500"
  else if score =? 1 then js "bg-orange-500"
  else if score =? 2 then js "bg-yellow-500"
  else if score =? 3 then js "bg-lime-500"
  else if score =? 4 then js "bg-green-500"
  else js "bg-slate-300".

Definition getTextColor (score : Z) : jsstring :=
  if score =? 0 then js "text-red-600 dark:text-red-400"
  else if score =? 1 then js "text-orange-600 dark:text-orange-400"
  else if score =? 2 then js "text-yellow-600 dark:text-yellow-400"
  else if score =? 3 then js "text-lime-600 dark:text-lime-400"
  else if score =? 4 then js "text-green-600 dark:text-green-400"
  else js "text-slate-500".

(** What the component renders: the colour class of each of the five
    bars ([i <= score ? getColor(score) : 'bg-slate-200 ...']), the
    feedback with its colour class, and the entropy. *)
Record rendered := {
  meter_bars : list jsstring;
  meter_text_colour : jsstring;
  meter_text : jsstring;
  meter_bits : Z;
}.

(** [None] is the [null] of [if (!password) return null]. *)
Definition PasswordStrengthMeter (password : jsstring) : option rendered :=
  let r := calculatePasswordStrength password in
  match password with
  | [] => None
  | _ =>
      Some {| meter_bars := map (fun i => if i <=? score r then getColor (score r)
                                    else js "bg-slate-200 dark:bg-slate-700")
                          [0; 1; 2; 3; 4];
              meter_text_colour := getTextColor (score r);
              meter_text := feedback r;
              meter_bits := entropy r |}
  end.

End Meter.
Export Meter.

(* ================================================================= *)
(** ** The encryption tab: [handleEncrypt] and the history buttons *)

Module EncryptTab.

(** The state the component keeps with [useState], as far as the
    handlers below read or set it. *)
Record state {P : Platform} := {
  st_plaintext : jsstring;
  st_passphrase : jsstring;
  st_filename : jsstring;
  st_isEncrypting : bool;
  st_result : option (EncryptionPayload * CryptoKey);
  st_error : option jsstring;
  st_history : list HistoryItem;
}.

(** [err instanceof Error ? err.message : fallback] *)
Definition message_or (fallback : jsstring) (err : exn) : jsstring :=
  match err with
  | ErrorObj _ message => message
  | NonError => fallback
  end.

(** [!s.trim()] *)
Definition blank (s : jsstring) : bool :=
  match trim s with
  | [] => true
  | _ => false
  end.

Section WithPlatform.
Context {P : Platform}.

Definition setError (e : option jsstring) (st : state) : state :=
  {| st_plaintext := st_plaintext st; st_passphrase := st_passphrase st;
     st_filename := st_filename st; st_isEncrypting := st_isEncrypting st;
     st_result := st_result st; st_error := e; st_history := st_history st |}.

Definition setResult (res : option (EncryptionPayload * CryptoKey)) (st : state) : state :=
  {| st_plaintext := st_plaintext st; st_passphrase := st_passphrase st;
     st_filename := st_filename st; st_isEncrypting := st_isEncrypting st;
     st_result := res; st_error := st_error st; st_history := st_history st |}.

Definition setIsEncrypting (b : bool) (st : state) : state :=
  {| st_plaintext := st_plaintext st; st_passphrase := st_passphrase st;
     st_filename := st_filename st; st_isEncrypting := b;
     st_result := st_result st; st_error := st_error st; st_history := st_history st |}.

Definition setHistory (h : list HistoryItem) (st : state) : state :=
  {| st_plaintext := st_plaintext st; st_passphrase := st_passphrase st;
     st_filename := st_filename st; st_isEncrypting := st_isEncrypting st;
     st_result := st_result st; st_error := st_error st; st_history := h |}.

(** The handler of the Encrypt button.  [r] is the state of the random
    source, [uuid] and [now] are what [crypto.randomUUID()] and
    [Date.now()] give [addToHistory], [w] is the browser's storage. *)
Definition handleEncrypt (st : state) (r : rng) (uuid : jsstring) (now : Z)
    (w : window) : state * window :=
  if blank (st_plaintext st) then
    (setError (Some (js "Please enter text or upload a file")) st, w)
  else if blank (st_passphrase st) then
    (setError (Some (js "Please enter a passphrase")) st, w)
  else
    let st := setResult None (setError None (setIsEncrypting true st)) in
    match
      (payload <- encrypt (Text (st_plaintext st)) (st_passphrase st) no_options r ;;
       binary <- lift_atob (atob (salt payload)) ;;
       let salt := map to_uint8 binary in
       key <- deriveKey (st_passphrase st) salt (iterations payload) ;;
       Ok (payload, key))
    with
    | Throw err =>
        (setIsEncrypting false
           (setError (Some (message_or (js "Encryption failed") err)) st), w)
    | Ok (payload, key) =>
        let st := setResult (Some (payload, key)) st in
        match
          addToHistory
            {| new_name := match st_filename st with
                           | [] => js "Untitled"
                           | _ => st_filename st
                           end;
               new_payload := payload;
               new_size := Z.of_nat (List.length (st_plaintext st)) |}
            uuid now w
        with
        | Throw err =>
            (setIsEncrypting false
               (setError (Some (message_or (js "Encryption failed") err)) st), w)
        | Ok w' =>
            (setIsEncrypting false (setHistory (getHistory w') st), w')
        end
    end.

(** [confirmed] is what [confirm(...)] returned. *)
Definition handleClearHistory (confirmed : bool) (st : state) (w : window)
  : state * window :=
  if confirmed then (setHistory [] st, clearHistory w) else (st, w).

Definition handleDeleteHistoryItem (target : jsstring) (st : state) (w : window)
  : state * window :=
  let w' := removeFromHistory target w in
  (setHistory (getHistory w') st, w').

End WithPlatform.

End EncryptTab.

(* ================================================================= *)
(** ** More inputs for the runs *)

Module Runs.

(** The envelope the reference platform makes of [hello] under [staple]
    from the seed 0, and the key it derives. *)
Definition sealed_hello : EncryptionPayload :=
  {| alg := js "AES-GCM";
     kdf := js "PBKDF2";
     salt := js "C3DVOp8Eac4zmP1ixyyR9g==";
     iv := js "W8Aliu9UuR6D6E2y";
     iterations := 200000;
     ct := js "p6Srq65ftq6xq6MRTj8AAAAAAAAAAAAAAAAA" |}.

Definition sealed_salt : list byte :=
  [x0b; x70; xd5; x3a; x9f; x04; x69; xce; x33; x98; xfd; x62; xc7; x2c; x91; xf6].

Definition sealed_key : N := 63.

(** The encryption tab with a text and a passphrase typed in. *)
Definition typed_in : EncryptTab.state (P := Reference.platform) :=
  {| EncryptTab.st_plaintext := js "hello world";
     EncryptTab.st_passphrase := staple;
     EncryptTab.st_filename := js "encrypted";
     EncryptTab.st_isEncrypting := false;
     EncryptTab.st_result := None;
     EncryptTab.st_error := None;
     EncryptTab.st_history := [] |}.



(** A browser whose storage is full. *)
Definition full_browser : window :=
  Some {| content := Absent; accepts := fun _ => false |}.

End Runs.
Export Runs.

(* ================================================================= *)
(** ** The decryption tab: [handleKeyImport] and [handleDecrypt] *)

Module DecryptTab.

(** The state the component keeps with [useState], as far as the
    handlers below read or set it. *)
Record state {P : Platform} := {
  st_ciphertextInput : jsstring;
  st_passphrase : jsstring;
  st_isDecrypting : bool;
  st_result : option jsstring;
  st_error : option jsstring;
  st_metadata : option value;
  st_importedKey : option CryptoKey;
}.

(** [payload as EncryptionPayload], for a payload whose fields have the
    types the interface declares.  [None] marks the payloads that
    [parsePayload] lets through with a field of another type (a number
    for [salt], a string for [iterations]); what [decrypt] makes of those
    runs on the platform's conversions and is left out of this model. *)
Definition as_EncryptionPayload (v : value) : option EncryptionPayload :=
  match field v (js "alg"), field v (js "kdf"), field v (js "salt"),
        field v (js "iv"), field v (js "iterations"), field v (js "ct") with
  | VStr a, VStr k, VStr s, VStr i, VNum n, VStr c =>
      Some {| alg := a; kdf := k; salt := s; iv := i; iterations := n; ct := c |}
  | _, _, _, _, _, _ => None
  end.

Section WithPlatform.
Context {P : Platform} {K : KeyPlatform P}.

Definition setError (e : option jsstring) (st : state) : state :=
  {| st_ciphertextInput := st_ciphertextInput st; st_passphrase := st_passphrase st;
     st_isDecrypting := st_isDecrypting st; st_result := st_result st;
     st_error := e; st_metadata := st_metadata st;
     st_importedKey := st_importedKey st |}.

Definition setResult (res : option jsstring) (st : state) : state :=
  {| st_ciphertextInput := st_ciphertextInput st; st_passphrase := st_passphrase st;
     st_isDecrypting := st_isDecrypting st; st_result := res;
     st_error := st_error st; st_metadata := st_metadata st;
     st_importedKey := st_importedKey st |}.

Definition setMetadata (m : option value) (st : state) : state :=
  {| st_ciphertextInput := st_ciphertextInput st; st_passphrase := st_passphrase st;
     st_isDecrypting := st_isDecrypting st; st_result := st_result st;
     st_error := st_error st; st_metadata := m;
     st_importedKey := st_importedKey st |}.

Definition setIsDecrypting (b : bool) (st : state) : state :=
  {| st_ciphertextInput := st_ciphertextInput st; st_passphrase := st_passphrase st;
     st_isDecrypting := b; st_result := st_result st;
     st_error := st_error st; st_metadata := st_metadata st;
     st_importedKey := st_importedKey st |}.

Definition setImportedKey (k : option CryptoKey) (st : state) : state :=
  {| st_ciphertextInput := st_ciphertextInput st; st_passphrase := st_passphrase st;
     st_isDecrypting := st_isDecrypting st; st_result := st_result st;
     st_error := st_error st; st_metadata := st_metadata st;
     st_importedKey := k |}.

Definition setPassphrase (s : jsstring) (st : state) : state :=
  {| st_ciphertextInput := st_ciphertextInput st; st_passphrase := s;
     st_isDecrypting := st_isDecrypting st; st_result := st_result st;
     st_error := st_error st; st_metadata := st_metadata st;
     st_importedKey := st_importedKey st |}.

(** [file] is [None] where no file was chosen, and otherwise what
    [readFileAsText] made of the file. *)
Definition handleKeyImport (file : option (result jsstring)) (st : state) : state :=
  match file with
  | None => st
  | Some read =>
      match (content <- read ;; importKey content) with
      | Ok key => setPassphrase [] (setError None (setImportedKey (Some key) st))
      | Throw _ =>
          setError (Some (js "Failed to import key. Please check the file format.")) st
      end
  end.

(** The handler of the Decrypt button; [None] where the parsed payload
    is outside [as_EncryptionPayload]. *)
Definition handleDecrypt (st : state) : option state :=
  if EncryptTab.blank (st_ciphertextInput st) then
    Some (setError (Some (js "Please enter encrypted data or upload a file")) st)
  else if EncryptTab.blank (st_passphrase st)
          && match st_importedKey st with Some _ => false | None => true end then
    Some (setError (Some (js "Please enter a passphrase or import a key")) st)
  else
    let st := setMetadata None (setResult None (setError None (setIsDecrypting true st))) in
    match parsePayload (InString (st_ciphertextInput st)) with
    | Throw err =>
        Some (setIsDecrypting false
                (setError (Some (EncryptTab.message_or (js "Decryption failed") err)) st))
    | Ok payload =>
        let st := setMetadata (Some payload) st in
        match as_EncryptionPayload payload with
        | None => None
        | Some typed =>
            match
              match st_importedKey st with
              | Some key => decryptWithKey typed key
              | None => decrypt typed (st_passphrase st)
              end
            with
            | Ok plaintext => Some (setIsDecrypting false (setResult (Some plaintext) st))
            | Throw err =>
                Some (setIsDecrypting false
                        (setError (Some (EncryptTab.message_or (js "Decryption failed") err)) st))
            end
        end
    end.

End WithPlatform.

(** The decryption tab as it opens, with a text pasted in. *)
Definition pasted {P : Platform} (text passphrase : jsstring) : state :=
  {| st_ciphertextInput := text;
     st_passphrase := passphrase;
     st_isDecrypting := false;
     st_result := None;
     st_error := None;
     st_metadata := None;
     st_importedKey := None |}.

End DecryptTab.

(* ################################################################# *)
(** * Part II: proofs *)

(* ================================================================= *)
(** ** Base64 *)

Module Base64Facts.

Local Open Scope N_scope.

Lemma list_ind3 (A : Type) (P : list A -> Prop) :
  P [] -> (forall a, P [a]) -> (forall a b, P [a; b]) ->
  (forall a b c l, P l -> P (a :: b :: c :: l)) ->
  forall l, P l.
Proof.
  intros H0 H1 H2 H3.
  fix IH 1.
  intros [|a [|b [|c l]]].
  - exact H0.
  - apply H1.
  - apply H2.
  - apply H3, IH.
Qed.

Lemma unsextets_sextets (l : list N) :
  Forall (fun a => a < 256) l -> unsextets (sextets l) = l.
Proof.
  induction l as [|a|a b|a b c l IH] using list_ind3; intros Hl.
  - reflexivity.
  - inversion_clear Hl. cbn [sextets unsextets]. f_equal. lia.
  - inversion_clear Hl as [|? ? Ha Hl']. inversion_clear Hl' as [|? ? Hb _].
    cbn [sextets unsextets]. repeat f_equal; lia.
  - inversion_clear Hl as [|? ? Ha Hl']. inversion_clear Hl' as [|? ? Hb Hl''].
    inversion_clear Hl'' as [|? ? Hc Hl].
    cbn [sextets unsextets]. rewrite IH by assumption.
    repeat f_equal; lia.
Qed.

Lemma sextets_bound (l : list N) :
  Forall (fun a => a < 256) l -> Forall (fun i => i < 64) (sextets l).
Proof.
  induction l as [|a|a b|a b c l IH] using list_ind3; intros Hl; cbn [sextets].
  - constructor.
  - inversion_clear Hl. repeat constructor; lia.
  - inversion_clear Hl as [|? ? Ha Hl']. inversion_clear Hl' as [|? ? Hb _].
    repeat constructor; lia.
  - inversion_clear Hl as [|? ? Ha Hl']. inversion_clear Hl' as [|? ? Hb Hl''].
    inversion_clear Hl'' as [|? ? Hc Hl].
    repeat (constructor; [lia|]). auto.
Qed.

Lemma sextets_length (l : list N) :
  (List.length (sextets l) + List.length (padding (List.length l))
   = 4 * ((List.length l + 2) / 3))%nat
  /\ (List.length (sextets l) mod 4 <> 1)%nat.
Proof.
  induction l as [|a|a b|a b c l [IH1 IH2]] using list_ind3.
  - split; reflexivity || discriminate.
  - split; reflexivity || discriminate.
  - split; reflexivity || discriminate.
  - cbn [sextets List.length].
    replace (padding (S (S (S (List.length l))))) with (padding (List.length l)).
    + split; lia.
    + unfold padding.
      replace (S (S (S (List.length l))) mod 3)%nat with (List.length l mod 3)%nat by lia.
      reflexivity.
Qed.

Lemma b64_index_char (i : N) : i < 64 -> b64_index (b64_char i) = Some i.
Proof.
  intros Hi.
  assert (H : forallb (fun n => match b64_index (b64_char n) with
                                | Some m => m =? n
                                | None => false
                                end) (map N.of_nat (seq 0 64)) = true)
    by (vm_compute; reflexivity).
  rewrite forallb_forall in H.
  specialize (H i).
  destruct (b64_index (b64_char i)) as [m|].
  - f_equal. apply N.eqb_eq, H.
    apply in_map_iff. exists (N.to_nat i). split; [lia|]. apply in_seq. lia.
  - discriminate H.
    apply in_map_iff. exists (N.to_nat i). split; [lia|]. apply in_seq. lia.
Qed.

Lemma indices_chars (sx : list N) :
  Forall (fun i => i < 64) sx -> indices (map b64_char sx) = Some sx.
Proof.
  induction 1 as [|i sx Hi _ IH]; cbn [map indices].
  - reflexivity.
  - now rewrite b64_index_char, IH.
Qed.

(** A character of the alphabet is neither white space nor [=]. *)
Lemma b64_index_plain (c : N) :
  b64_index c <> None -> is_ascii_whitespace c = false /\ (c =? 61) = false.
Proof.
  unfold b64_index, is_ascii_whitespace. intros H.
  destruct (65 <=? c) eqn:?, (c <=? 90) eqn:?, (97 <=? c) eqn:?, (c <=? 122) eqn:?,
    (48 <=? c) eqn:?, (c <=? 57) eqn:?, (c =? 43) eqn:?, (c =? 47) eqn:?;
    cbn in H; try congruence;
    split; repeat (apply orb_false_intro); lia.
Qed.

Lemma chars_plain (sx : list N) :
  Forall (fun i => i < 64) sx ->
  Forall (fun c => is_ascii_whitespace c = false /\ (c =? 61) = false) (map b64_char sx).
Proof.
  induction 1 as [|i sx Hi _ IH]; cbn [map]; constructor; auto.
  apply b64_index_plain. rewrite b64_index_char by assumption. discriminate.
Qed.

Lemma filter_plain (core pad : jsstring) :
  Forall (fun c => is_ascii_whitespace c = false /\ (c =? 61) = false) core ->
  Forall (fun c => c = 61) pad ->
  filter (fun c => negb (is_ascii_whitespace c)) (core ++ pad) = core ++ pad.
Proof.
  intros Hc Hp. apply forallb_filter_id. apply forallb_forall. intros c Hin.
  apply in_app_or in Hin as [Hin|Hin].
  - rewrite Forall_forall in Hc. now destruct (Hc c Hin) as [-> _].
  - rewrite Forall_forall in Hp. now rewrite (Hp c Hin).
Qed.

Lemma padding_cases (n : nat) :
  padding n = [] \/ padding n = [61] \/ padding n = [61; 61].
Proof.
  unfold padding. destruct (n mod 3)%nat as [|[|[|k]]]; auto.
Qed.

Lemma strip_padding_core (core : jsstring) (n : nat) :
  Forall (fun c => is_ascii_whitespace c = false /\ (c =? 61) = false) core ->
  (List.length (core ++ padding n) mod 4 = 0)%nat ->
  strip_padding (core ++ padding n) = core.
Proof.
  intros Hc Hlen. unfold strip_padding.
  rewrite Hlen. cbn [Nat.eqb]. rewrite rev_app_distr.
  assert (Hrev : match rev core with
                 | c :: _ => (c =? 61) = false
                 | [] => True
                 end).
  { destruct (rev core) as [|c r] eqn:E; [exact I|].
    rewrite Forall_forall in Hc. apply Hc.
    apply in_rev. rewrite E. now left. }
  destruct (padding_cases n) as [-> | [-> | ->]]; cbn [rev app].
  - rewrite app_nil_r.
    destruct (rev core) as [|c r]; [reflexivity|]. now rewrite Hrev.
  - cbn. destruct (rev core) as [|c r] eqn:E.
    + now rewrite <- (rev_involutive core), E.
    + rewrite Hrev, <- E. apply rev_involutive.
  - cbn. apply rev_involutive.
Qed.

(** [atob] undoes [btoa]. *)
Theorem atob_btoa (s t : jsstring) : btoa s = Some t -> atob t = Some s.
Proof.
  unfold btoa. destruct (forallb _ s) eqn:Hs; [|discriminate].
  intros [= <-].
  assert (Hb : Forall (fun a => a < 256) s).
  { apply Forall_forall. intros a Ha. rewrite forallb_forall in Hs.
    apply N.ltb_lt, Hs, Ha. }
  pose proof (sextets_bound Hb) as Hsx.
  pose proof (chars_plain Hsx) as Hplain.
  destruct (sextets_length s) as [Hlen Hmod].
  unfold atob.
  rewrite filter_plain; [|assumption|].
  2:{ destruct (padding_cases (List.length s)) as [-> | [-> | ->]];
      repeat constructor. }
  rewrite strip_padding_core; [|assumption|].
  2:{ rewrite length_app, length_map, Hlen. lia. }
  rewrite length_map.
  destruct (List.length (sextets s) mod 4 =? 1)%nat eqn:E;
    [apply Nat.eqb_eq in E; contradiction|].
  now rewrite indices_chars, unsextets_sextets.
Qed.

End Base64Facts.

(* ================================================================= *)
(** ** [encrypt] and [decrypt] *)

Module CryptoFacts.

Import Base64Facts.

Lemma trim_start_head (s : jsstring) :
  match trim_start s with
  | c :: _ => is_js_whitespace c = false
  | [] => forallb is_js_whitespace s = true
  end.
Proof.
  induction s as [|c s IH]; cbn [trim_start forallb]; [reflexivity|].
  destruct (is_js_whitespace c) eqn:E; cbn [andb]; assumption.
Qed.

Lemma trim_start_in (s : jsstring) (c : N) : In c (trim_start s) -> In c s.
Proof.
  induction s as [|d s IH]; cbn [trim_start]; [tauto|].
  destruct (is_js_whitespace d); [right; auto | auto].
Qed.

(** [passphrase.trim().length === 0] holds of the strings made of white
    space only, the empty one among them. *)
Lemma passphrase_blank_spec (passphrase : jsstring) :
  passphrase_blank passphrase = forallb is_js_whitespace passphrase.
Proof.
  unfold passphrase_blank.
  destruct passphrase as [|c s]; [reflexivity|].
  set (p := c :: s). unfold trim.
  rewrite length_rev.
  pose proof (trim_start_head p) as H1.
  destruct (trim_start p) as [|d t] eqn:E1.
  - now rewrite H1.
  - assert (Hall : forallb is_js_whitespace p = false).
    { apply not_true_is_false. intros Hall. rewrite forallb_forall in Hall.
      rewrite Hall in H1; [discriminate|].
      apply trim_start_in. rewrite E1. now left. }
    rewrite Hall.
    pose proof (trim_start_head (rev (d :: t))) as H2.
    destruct (trim_start (rev (d :: t))) as [|e u]; [|reflexivity].
    rewrite forallb_forall in H2. rewrite H2 in H1; [discriminate|].
    apply -> in_rev. now left.
Qed.

Lemma to_uint8_to_N (b : byte) : to_uint8 (Byte.to_N b) = b.
Proof.
  unfold to_uint8. pose proof (Byte.to_N_bounded b).
  rewrite N.mod_small by lia. now rewrite Byte.of_to_N.
Qed.

Lemma to_N_to_uint8 (n : N) : Byte.to_N (to_uint8 n) = (n mod 256)%N.
Proof.
  unfold to_uint8.
  destruct (Byte.of_N (n mod 256)) as [b|] eqn:E.
  - now apply Byte.to_of_N.
  - apply Byte.of_N_None_iff in E. lia.
Qed.

Section WithPlatform.
Context {P : Platform}.

(** [arrayBufferToBase64] never throws, and [base64ToArrayBuffer] gives
    the bytes back. *)
Lemma base64_roundtrip (bytes : list byte) :
  exists s, arrayBufferToBase64 bytes = Ok s /\ base64ToArrayBuffer s = Ok bytes.
Proof.
  unfold arrayBufferToBase64, base64ToArrayBuffer.
  destruct (btoa (map Byte.to_N bytes)) as [s|] eqn:E.
  - exists s. split; [reflexivity|].
    rewrite (atob_btoa _ E). cbn [lift_atob bind].
    f_equal. rewrite map_map. rewrite <- (map_id bytes) at 2.
    apply map_ext, to_uint8_to_N.
  - exfalso. unfold btoa in E.
    destruct (forallb _ _) eqn:F; [discriminate|].
    apply not_true_iff_false in F. apply F, forallb_forall.
    intros n Hn. apply in_map_iff in Hn as (b & <- & _).
    pose proof (Byte.to_N_bounded b). lia.
Qed.

Lemma resolve_algorithm_const (options : EncryptionOptions) :
  resolve_algorithm options = js "AES-GCM".
Proof. unfold resolve_algorithm. now destruct (opt_algorithm options) as [[]|]. Qed.

Lemma encrypt_inv plaintext passphrase options r payload :
  encrypt plaintext passphrase options r = Ok payload ->
  encrypted plaintext passphrase options payload.
Proof.
  unfold encrypt, isCryptoSupported.
  destruct crypto_available eqn:Hs; cbn [negb]; [|discriminate].
  destruct (passphrase_blank passphrase) eqn:Hb; [discriminate|].
  rewrite resolve_algorithm_const.
  destruct (generateSalt 16 r) as [salt_bytes r1].
  destruct (generateIV r1) as [iv_bytes r2].
  destruct (deriveKey _ _ _) as [key|] eqn:Hk; cbn [bind]; [|discriminate].
  destruct (subtle_encrypt _ _ _ _) as [c|] eqn:Hc; cbn [bind]; [|discriminate].
  destruct (base64_roundtrip salt_bytes) as (s64 & -> & Hs64).
  destruct (base64_roundtrip iv_bytes) as (i64 & -> & Hi64).
  destruct (base64_roundtrip c) as (c64 & -> & Hc64).
  cbn [bind]. intros [= <-].
  constructor; cbn; try reflexivity; try assumption.
  exists salt_bytes, iv_bytes, key, c. auto.
Qed.

(** With a usable passphrase and an iteration count PBKDF2 accepts,
    [encrypt] returns an envelope. *)
Lemma encrypt_total_ok {L : CipherLaws P} plaintext passphrase options r :
  crypto_available = true ->
  passphrase_blank passphrase = false ->
  (0 < resolve_iterations options < 2 ^ 32)%Z ->
  exists payload, encrypt plaintext passphrase options r = Ok payload.
Proof.
  intros Hs Hb Hit. unfold encrypt, isCryptoSupported.
  rewrite Hs, Hb. cbn [negb]. rewrite resolve_algorithm_const.
  pose proof (random_length 16 r) as Hl1.
  unfold generateSalt, generateIV.
  destruct (getRandomValues 16 r) as [salt_bytes r1].
  pose proof (random_length 12 r1) as Hl2.
  destruct (getRandomValues 12 r1) as [iv_bytes r2]. cbn [fst] in *.
  unfold deriveKey.
  destruct (deriveKey_total (TextEncoder_encode passphrase) salt_bytes Hit) as [key ->].
  cbn [bind].
  destruct (encrypt_total iv_bytes key (plaintext_bytes plaintext) Hl2) as [c ->].
  cbn [bind].
  destruct (base64_roundtrip salt_bytes) as (s64 & -> & _).
  destruct (base64_roundtrip iv_bytes) as (i64 & -> & _).
  destruct (base64_roundtrip c) as (c64 & -> & _).
  cbn [bind]. eauto.
Qed.

Lemma decrypt_encrypted {L : CipherLaws P} plaintext passphrase options payload :
  encrypted plaintext passphrase options payload ->
  decrypt payload passphrase = Ok (TextDecoder_decode (plaintext_bytes plaintext)).
Proof.
  intros [Hs Hb Ha _ _ (salt_bytes & iv_bytes & key & c & H1 & H2 & H3 & H4 & H5)].
  unfold decrypt, isCryptoSupported. rewrite Hs, Hb. cbn [negb].
  rewrite H1, H2, H3. cbn [bind]. rewrite H4. cbn [bind].
  rewrite Ha, (decrypt_encrypt _ _ _ H5). reflexivity.
Qed.

(** The [catch] block of [decrypt] always throws. *)
Lemma decrypt_catch_throws (err : exn) : exists e, decrypt_catch err = Throw e.
Proof.
  destruct err as [n m|]; cbn [decrypt_catch]; [|eauto].
  destruct (includes _ m); [eauto|]. destruct (includes _ m); eauto.
Qed.

End WithPlatform.

End CryptoFacts.

(* ================================================================= *)
(** ** The reference platform meets the laws *)

Module ReferenceFacts.

Import Reference CryptoFacts.

Local Open Scope N_scope.

Lemma to_uint8_inj (m n : N) : m < 256 -> n < 256 -> to_uint8 m = to_uint8 n -> m = n.
Proof.
  intros Hm Hn E. apply (f_equal Byte.to_N) in E.
  rewrite !to_N_to_uint8 in E. lia.
Qed.

Lemma flip_changes (b : byte) (k : nat) :
  (k < 8)%nat -> Byte.to_N (flip b k) <> Byte.to_N b.
Proof.
  intros Hk.
  assert (H : forallb (fun n => forallb (fun j =>
                negb (Byte.to_N (flip (to_uint8 n) j) =? n)) (seq 0 8))
              (map N.of_nat (seq 0 256)) = true) by (vm_compute; reflexivity).
  rewrite forallb_forall in H.
  specialize (H (Byte.to_N b)).
  rewrite forallb_forall in H.
  pose proof (Byte.to_N_bounded b) as Hb.
  specialize (H ltac:(apply in_map_iff; exists (N.to_nat (Byte.to_N b));
                      split; [lia | apply in_seq; lia]) k
                ltac:(apply in_seq; lia)).
  rewrite to_uint8_to_N in H. lia.
Qed.

Lemma flip_bit_length (i : nat) (l : list byte) :
  List.length (flip_bit i l) = List.length l.
Proof.
  revert i. induction l as [|b l IH]; intros i; cbn [flip_bit]; [reflexivity|].
  destruct (i <? 8)%nat; cbn [List.length]; auto.
Qed.

Lemma flip_bit_app (i : nat) (l1 l2 : list byte) :
  flip_bit i (l1 ++ l2) =
  if (i <? 8 * List.length l1)%nat then flip_bit i l1 ++ l2
  else l1 ++ flip_bit (i - 8 * List.length l1) l2.
Proof.
  revert i. induction l1 as [|b l1 IH]; intros i.
  - cbn. now rewrite Nat.sub_0_r.
  - cbn [app flip_bit List.length].
    destruct (i <? 8)%nat eqn:E1.
    + destruct (i <? 8 * S (List.length l1))%nat eqn:E2; [reflexivity|lia].
    + rewrite IH.
      replace (i - 8 <? 8 * List.length l1)%nat with (i <? 8 * S (List.length l1))%nat by lia.
      replace (i - 8 - 8 * List.length l1)%nat with (i - 8 * S (List.length l1))%nat by lia.
      now destruct (i <? 8 * S (List.length l1))%nat.
Qed.

Lemma flip_bit_changes (i : nat) (l : list byte) :
  (i < 8 * List.length l)%nat -> flip_bit i l <> l.
Proof.
  revert i. induction l as [|b l IH]; intros i Hi; cbn [flip_bit List.length] in *.
  - lia.
  - destruct (i <? 8)%nat eqn:E.
    + intros [= H]. apply (flip_changes b (k := i)); [lia|]. now rewrite H.
    + intros [= H]. apply (IH (i - 8)%nat); [lia|assumption].
Qed.

Lemma checksum_flip (i : nat) (l : list byte) :
  (i < 8 * List.length l)%nat -> checksum (flip_bit i l) <> checksum l.
Proof.
  unfold checksum. revert i.
  induction l as [|b l IH]; intros i Hi; cbn [flip_bit List.length] in *; [lia|].
  destruct (i <? 8)%nat eqn:E; cbn [fold_right].
  - pose proof (@flip_changes b i ltac:(lia)).
    pose proof (Byte.to_N_bounded b). pose proof (Byte.to_N_bounded (flip b i)).
    lia.
  - specialize (IH (i - 8)%nat ltac:(lia)). lia.
Qed.

Lemma bytes_eqb_refl (l : list byte) : bytes_eqb l l = true.
Proof. unfold bytes_eqb. now destruct (list_eq_dec _ l l). Qed.

Lemma bytes_eqb_neq (l1 l2 : list byte) : l1 <> l2 -> bytes_eqb l1 l2 = false.
Proof. unfold bytes_eqb. now destruct (list_eq_dec _ l1 l2). Qed.

Lemma tag_length iv key body : List.length (tag iv key body) = 16%nat.
Proof. reflexivity. Qed.

Lemma checksum_bound (l : list byte) : checksum l < 256.
Proof. unfold checksum. lia. Qed.

Lemma to_uint8_eq (n : N) (b : byte) : n mod 256 = Byte.to_N b -> to_uint8 n = b.
Proof. intros H. unfold to_uint8. now rewrite H, Byte.of_to_N. Qed.

Lemma unmask (key : N) (data : list byte) :
  map (fun c => to_uint8 (Byte.to_N c + 256 - key mod 256))
      (map (fun d => to_uint8 (Byte.to_N d + key)) data) = data.
Proof.
  rewrite map_map. rewrite <- (map_id data) at 2. apply map_ext. intros d.
  rewrite to_N_to_uint8. apply to_uint8_eq.
  pose proof (Byte.to_N_bounded d). lia.
Qed.

Lemma seal_inv messages iv key data c :
  seal messages (js "AES-GCM") iv key data = Ok c ->
  exists body, c = body ++ tag iv key body /\
               body = map (fun d => to_uint8 (Byte.to_N d + key)) data.
Proof.
  unfold seal. change (str_eqb (js "AES-GCM") (js "AES-GCM")) with true.
  intros [= <-]. eauto.
Qed.

Lemma open_split messages iv key body t :
  List.length t = 16%nat ->
  open messages (js "AES-GCM") iv key (body ++ t) =
  if bytes_eqb t (tag iv key body)
  then Ok (map (fun c => to_uint8 (Byte.to_N c + 256 - key mod 256)) body)
  else Throw (ErrorObj (js "OperationError") (messages (js "OperationError"))).
Proof.
  intros Ht. unfold open.
  change (str_eqb (js "AES-GCM") (js "AES-GCM")) with true. cbv iota.
  rewrite length_app, Ht.
  replace (List.length body + 16 - 16)%nat with (List.length body) by lia.
  rewrite firstn_app, firstn_all, Nat.sub_diag, firstn_0, app_nil_r.
  rewrite skipn_app, skipn_all, Nat.sub_diag, skipn_0. cbn [app].
  replace (16 <=? List.length body + 16)%nat with true by lia.
  reflexivity.
Qed.

Ltac on_reference :=
  unfold OperationError, DOMException;
  cbn [platform_with crypto_available engine_message rng getRandomValues
       CryptoKey subtle_deriveKey subtle_encrypt subtle_decrypt
       TextEncoder_encode TextDecoder_decode JSON_parse JSON_stringify
       Number_toString_large].

#[export] Instance reference_cipher messages : CipherLaws (platform_with messages).
Proof.
  constructor; on_reference.
  - intros n r. unfold random_values. cbn. now rewrite length_map, length_seq.
  - intros passphrase salt n Hn. unfold derive.
    replace ((0 <? n)%Z && (n <? 2 ^ 32)%Z) with true by lia. eauto.
  - intros iv key data _. unfold seal.
    change (str_eqb (js "AES-GCM") (js "AES-GCM")) with true. eauto.
  - intros iv key data c H.
    apply seal_inv in H as (body & -> & ->).
    rewrite open_split by apply tag_length.
    now rewrite bytes_eqb_refl, unmask.
Qed.

#[export] Instance reference_tamper messages : TamperLaws (platform_with messages).
Proof.
  constructor; on_reference.
  - intros iv key data c i H Hi.
    apply seal_inv in H as (body & -> & Hbody).
    rewrite length_app, tag_length in Hi.
    rewrite flip_bit_app.
    destruct (i <? 8 * List.length body)%nat eqn:E.
    + rewrite open_split by apply tag_length.
      rewrite bytes_eqb_neq; [reflexivity|].
      unfold tag. intros [= H].
      apply to_uint8_inj in H; try apply checksum_bound.
      symmetry in H. revert H. apply checksum_flip. lia.
    + rewrite open_split by (rewrite flip_bit_length; apply tag_length).
      rewrite bytes_eqb_neq; [reflexivity|].
      apply flip_bit_changes. rewrite tag_length. lia.
  - intros iv key data c i H Hi.
    apply seal_inv in H as (body & -> & Hbody).
    rewrite open_split by apply tag_length.
    rewrite bytes_eqb_neq; [reflexivity|].
    unfold tag. intros [= H].
    apply to_uint8_inj in H; try apply checksum_bound.
    symmetry in H. revert H. apply checksum_flip. lia.
Qed.

End ReferenceFacts.

(* ================================================================= *)
(** ** The encryption engine: round trip, rejection, tampering *)

Module EngineClaims.

Import CryptoFacts ReferenceFacts.

Section WithPlatform.
Context {P : Platform}.

(** Whatever made [crypto.subtle.decrypt] reject with an
    [OperationError], [decrypt] ends in the same way. *)
Lemma decrypt_rejected payload passphrase salt_bytes iv_bytes c key :
  crypto_available = true ->
  passphrase_blank passphrase = false ->
  base64ToArrayBuffer (salt payload) = Ok salt_bytes ->
  base64ToArrayBuffer (iv payload) = Ok iv_bytes ->
  base64ToArrayBuffer (ct payload) = Ok c ->
  deriveKey passphrase salt_bytes (iterations payload) = Ok key ->
  subtle_decrypt (alg payload) iv_bytes key c = Throw OperationError ->
  decrypt payload passphrase = decrypt_catch OperationError.
Proof.
  intros Hs Hb H1 H2 H3 H4 H5.
  unfold decrypt, isCryptoSupported. rewrite Hs, Hb. cbn [negb].
  rewrite H1, H2, H3. cbn [bind]. rewrite H4. cbn [bind]. now rewrite H5.
Qed.

(** C1 (amended).  For every plaintext and every passphrase that is not
    made of white space only, in a browser with Web Crypto and with an
    iteration count PBKDF2 accepts, [encrypt] returns an envelope and
    [decrypt] of that envelope under the same passphrase returns the text
    [TextDecoder] makes of the plaintext bytes; for a text plaintext that
    [TextEncoder] and [TextDecoder] carry over unchanged, that text is the
    plaintext. *)
Theorem encrypt_decrypt_roundtrip {L : CipherLaws P}
    (plaintext : plaintext_input) (passphrase : jsstring)
    (options : EncryptionOptions) (r : rng) :
  crypto_available = true ->
  forallb is_js_whitespace passphrase = false ->
  (0 < resolve_iterations options < 2 ^ 32)%Z ->
  exists payload text,
    encrypt plaintext passphrase options r = Ok payload /\
    decrypt payload passphrase = Ok text /\
    text = TextDecoder_decode (plaintext_bytes plaintext) /\
    (forall s, plaintext = Text s ->
               TextDecoder_decode (TextEncoder_encode s) = s -> text = s).
Proof.
  intros Hs Hb Hit. rewrite <- passphrase_blank_spec in Hb.
  destruct (encrypt_total_ok plaintext passphrase options r Hs Hb Hit) as [payload He].
  exists payload, (TextDecoder_decode (plaintext_bytes plaintext)).
  repeat split.
  - exact He.
  - apply (decrypt_encrypted (options := options)). now apply encrypt_inv with (r := r).
  - intros s -> Hrt. exact Hrt.
Qed.

(** C3.  For an envelope [encrypt] produced, inverting any one bit of its
    ciphertext bytes or of its IV bytes makes [decrypt], under the
    passphrase it was made with, end in the [catch] block on the cipher's
    [OperationError]: it throws and returns no text.  That outcome is one
    and the same for every rejection by the cipher, a wrong passphrase
    included; it is the error "Incorrect passphrase or corrupted data"
    where the engine's message for [OperationError] speaks of an
    operation-specific reason. *)
Theorem tamper_detection {T : TamperLaws P}
    (plaintext : plaintext_input) (passphrase : jsstring)
    (options : EncryptionOptions) (r : rng) (payload : EncryptionPayload) (i : nat) :
  encrypt plaintext passphrase options r = Ok payload ->
  (i < 8 * byte_length (ct payload) ->
   exists tampered, flip_ciphertext_bit i payload = Ok tampered /\
                    decrypt tampered passphrase = decrypt_catch OperationError) /\
  (i < 8 * byte_length (iv payload) ->
   exists tampered, flip_iv_bit i payload = Ok tampered /\
                    decrypt tampered passphrase = decrypt_catch OperationError) /\
  (exists e, decrypt_catch OperationError = Throw e) /\
  (includes (js "operation-specific") (engine_message (js "OperationError")) = true ->
   decrypt_catch OperationError
   = Throw (Error (js "Incorrect passphrase or corrupted data"))) /\
  (forall other passphrase' salt_bytes iv_bytes c key,
     passphrase_blank passphrase' = false ->
     base64ToArrayBuffer (salt other) = Ok salt_bytes ->
     base64ToArrayBuffer (iv other) = Ok iv_bytes ->
     base64ToArrayBuffer (ct other) = Ok c ->
     deriveKey passphrase' salt_bytes (iterations other) = Ok key ->
     subtle_decrypt (alg other) iv_bytes key c = Throw OperationError ->
     decrypt other passphrase' = decrypt_catch OperationError).
Proof.
  intros He. apply encrypt_inv in He.
  destruct He as [Hs Hb Ha _ _ (salt_bytes & iv_bytes & key & c & H1 & H2 & H3 & H4 & H5)].
  repeat split.
  - unfold byte_length, flip_ciphertext_bit. rewrite H3. cbn [bind]. intros Hi.
    destruct (base64_roundtrip (flip_bit i c)) as (c64 & -> & Hc64). cbn [bind].
    eexists. split; [reflexivity|].
    eapply decrypt_rejected; cbn [salt iv ct alg iterations]; eauto.
    rewrite Ha. eapply tampered_ciphertext; eauto.
  - unfold byte_length, flip_iv_bit. rewrite H2. cbn [bind]. intros Hi.
    destruct (base64_roundtrip (flip_bit i iv_bytes)) as (i64 & -> & Hi64). cbn [bind].
    eexists. split; [reflexivity|].
    eapply decrypt_rejected; cbn [salt iv ct alg iterations]; eauto.
    rewrite Ha. eapply tampered_iv; eauto.
  - apply decrypt_catch_throws.
  - intros Hm. unfold OperationError, DOMException. cbn [decrypt_catch].
    now rewrite Hm.
  - intros. eapply decrypt_rejected; eauto.
Qed.

(** C4 (amended).  [encrypt] throws whenever the passphrase is empty or
    made of white space only, with the message "Passphrase cannot be
    empty" where Web Crypto is there, and returns no envelope.  The
    plaintext plays no part in that: with any other passphrase [encrypt]
    returns an envelope for every plaintext, the empty one included. *)
Theorem blank_passphrase_rejected {L : CipherLaws P}
    (plaintext : plaintext_input) (passphrase : jsstring)
    (options : EncryptionOptions) (r : rng) :
  (forallb is_js_whitespace passphrase = true ->
   (exists e, encrypt plaintext passphrase options r = Throw e) /\
   (crypto_available = true ->
    encrypt plaintext passphrase options r
    = Throw (Error (js "Passphrase cannot be empty")))) /\
  (forallb is_js_whitespace passphrase = false ->
   crypto_available = true ->
   (0 < resolve_iterations options < 2 ^ 32)%Z ->
   exists payload, encrypt plaintext passphrase options r = Ok payload).
Proof.
  rewrite <- passphrase_blank_spec. split.
  - intros Hb. unfold encrypt, isCryptoSupported. rewrite Hb.
    destruct crypto_available; cbn [negb]; split; eauto. discriminate.
  - intros Hb Hs Hit. now apply encrypt_total_ok.
Qed.

(** C10.  When [options.iterations] is left out, is 0 or is [NaN], the
    envelope [encrypt] returns carries 200000 iterations. *)
Theorem default_iterations_on_falsy {L : CipherLaws P}
    (plaintext : plaintext_input) (passphrase : jsstring)
    (options : EncryptionOptions) (r : rng) :
  crypto_available = true ->
  forallb is_js_whitespace passphrase = false ->
  iterations_falsy options = true ->
  exists payload,
    encrypt plaintext passphrase options r = Ok payload /\
    iterations payload = 200000%Z.
Proof.
  intros Hs Hb Hopt. rewrite <- passphrase_blank_spec in Hb.
  assert (Hres : resolve_iterations options = 200000%Z).
  { unfold iterations_falsy in Hopt. unfold resolve_iterations.
    destruct (opt_iterations options) as [[|n]|]; try reflexivity.
    now rewrite Hopt. }
  destruct (encrypt_total_ok plaintext passphrase options r Hs Hb) as [payload He].
  { rewrite Hres. lia. }
  exists payload. split; [exact He|].
  apply encrypt_inv in He. destruct He as [_ _ _ _ Hi _]. now rewrite Hi.
Qed.

End WithPlatform.

(** *** Runs on the reference platform *)

Lemma encrypt_decrypt_roundtrip_witness :
  exists payload,
    encrypt (P := Reference.platform) hello staple no_options 0%N = Ok payload /\
    decrypt (P := Reference.platform) payload staple = Ok (js "hello world").
Proof.
  destruct (encrypt_decrypt_roundtrip (P := Reference.platform)
              hello staple no_options 0%N eq_refl eq_refl
              ltac:(cbn; lia))
    as (payload & text & H1 & H2 & _ & H4).
  exists payload. split; [exact H1|].
  rewrite H2. f_equal. apply H4; reflexivity.
Defined.

(** C1 as stated fails: a passphrase of one space is not empty and is
    turned down, and a byte that is not UTF-8 comes back as U+FFFD. *)
Lemma roundtrip_counterexample :
  encrypt (P := Reference.platform) hello (js " ") no_options 0%N
    = Throw (Error (js "Passphrase cannot be empty")) /\
  exists payload,
    encrypt (P := Reference.platform) (Buffer [xff]) (js "pw") no_options 0%N
      = Ok payload /\
    decrypt (P := Reference.platform) payload (js "pw") = Ok [65533%N] /\
    ~ recovers (P := Reference.platform) (Buffer [xff]) [65533%N].
Proof.
  split; [reflexivity|].
  eexists. split; [reflexivity|]. split; [vm_compute; reflexivity|].
  vm_compute. discriminate.
Qed.

Lemma tamper_detection_witness :
  exists payload tampered,
    encrypt (P := Reference.platform) hello staple no_options 0%N = Ok payload /\
    flip_ciphertext_bit (P := Reference.platform) 3 payload = Ok tampered /\
    decrypt (P := Reference.platform) tampered staple
      = Throw (Error (js "Incorrect passphrase or corrupted data")).
Proof.
  destruct (encrypt (P := Reference.platform) hello staple no_options 0%N)
    as [payload|e] eqn:He; [|vm_compute in He; discriminate He].
  destruct (tamper_detection (P := Reference.platform) _ _ _ _ 3 He)
    as (Hct & _).
  assert (Hi : (3 < 8 * byte_length (P := Reference.platform) (ct payload))%nat).
  { vm_compute in He. injection He as <-. vm_compute. lia. }
  destruct (Hct Hi) as (tampered & Ht & Hd).
  exists payload, tampered. split; [reflexivity|]. split; [exact Ht|].
  rewrite Hd. reflexivity.
Defined.

(** Where the engine gives its [OperationError] no message text, the
    same tampering surfaces as that [DOMException] itself. *)
Example tamper_silent_engine :
  decrypt_catch (OperationError (P := Reference.platform_with Reference.silent_messages))
  = Throw (ErrorObj (js "OperationError") []).
Proof. reflexivity. Qed.

Lemma blank_passphrase_rejected_witness :
  encrypt (P := Reference.platform) hello (js "  ") no_options 0%N
    = Throw (Error (js "Passphrase cannot be empty")) /\
  exists payload,
    encrypt (P := Reference.platform) (Text []) (js "pw") no_options 0%N = Ok payload.
Proof.
  split.
  - apply (blank_passphrase_rejected (P := Reference.platform)
             hello (js "  ") no_options 0%N); reflexivity.
  - apply (blank_passphrase_rejected (P := Reference.platform)
             (Text []) (js "pw") no_options 0%N); [reflexivity | reflexivity | cbn; lia].
Defined.

(** C4 as stated fails: [encrypt] takes an empty plaintext, text or
    bytes, and returns an envelope for it. *)
Lemma empty_plaintext_counterexample :
  (exists payload,
     encrypt (P := Reference.platform) (Text []) (js "pw") no_options 0%N
     = Ok payload) /\
  (exists payload,
     encrypt (P := Reference.platform) (Buffer []) (js "pw") no_options 0%N
     = Ok payload).
Proof. split; eexists; vm_compute; reflexivity. Qed.

Lemma default_iterations_on_falsy_witness :
  exists payload,
    encrypt (P := Reference.platform) hello staple
      {| opt_iterations := Some (Num 0); opt_algorithm := None |} 0%N = Ok payload /\
    iterations payload = 200000%Z.
Proof.
  apply (default_iterations_on_falsy (P := Reference.platform)).
  - reflexivity.
  - reflexivity.
  - reflexivity.
Defined.

End EngineClaims.

(* ================================================================= *)
(** ** The envelope codec: what [parsePayload] takes and refuses *)

Module CodecClaims.

Import Base64Facts CryptoFacts.

Lemma str_eqb_eq (a b : jsstring) : str_eqb a b = true <-> a = b.
Proof. unfold str_eqb. destruct (list_eq_dec N.eq_dec a b); split; congruence. Qed.

Lemma strict_eq_str_spec (v : value) (lit : jsstring) :
  strict_eq_str v lit = true <-> v = VStr lit.
Proof.
  destruct v; cbn [strict_eq_str]; try (split; [discriminate|congruence]).
  rewrite str_eqb_eq. split; congruence.
Qed.

Section WithPlatform.
Context {P : Platform}.

Lemma get_object props key : get (VObj props) key = Ok (field (VObj props) key).
Proof. reflexivity. Qed.

Lemma accepted_object (payload : value) :
  accepted payload -> exists props, payload = VObj props.
Proof.
  intros (Ha & _). unfold present in Ha.
  destruct payload; try discriminate Ha. eauto.
Qed.

Lemma check_object (props : list (jsstring * value)) :
  let payload := VObj props in
  check payload =
  if negb (truthy (field payload (js "alg")) && truthy (field payload (js "kdf"))
           && truthy (field payload (js "salt")) && truthy (field payload (js "iv"))
           && truthy (field payload (js "iterations")) && truthy (field payload (js "ct")))
  then Throw (Error (js "Payload missing required fields: alg, kdf, salt, iv, iterations, ct"))
  else if negb (strict_eq_str (field payload (js "alg")) (js "AES-GCM")) then
    named <- template (field payload (js "alg")) ;;
    Throw (Error (js "Unsupported algorithm: " ++ named
                    ++ js ". Only AES-GCM is supported."))
  else if negb (strict_eq_str (field payload (js "kdf")) (js "PBKDF2")) then
    named <- template (field payload (js "kdf")) ;;
    Throw (Error (js "Unsupported KDF: " ++ named
                    ++ js ". Only PBKDF2 is supported."))
  else Ok payload.
Proof.
  intros payload. subst payload. unfold check, absent, or_else.
  rewrite !get_object. set (payload := VObj props). cbn [bind].
  destruct (truthy (field payload (js "alg"))); cbn [negb andb bind]; [|reflexivity].
  destruct (truthy (field payload (js "kdf"))); cbn [negb andb bind]; [|reflexivity].
  destruct (truthy (field payload (js "salt"))); cbn [negb andb bind]; [|reflexivity].
  destruct (truthy (field payload (js "iv"))); cbn [negb andb bind]; [|reflexivity].
  destruct (truthy (field payload (js "iterations"))); cbn [negb andb bind]; [|reflexivity].
  destruct (truthy (field payload (js "ct"))); cbn [negb andb bind]; reflexivity.
Qed.

(** An error message with a value named in it: thrown, or the
    [TypeError] of naming the value thrown in its place. *)
Lemma named_throws (A : Type) (v : value) (message : jsstring -> jsstring) :
  (named <- template v ;; Throw (A := A) (Error (message named)))
  = if toString_throws v then Throw TypeError
    else Throw (Error (message (ToString v))).
Proof. unfold template. now destruct (toString_throws v). Qed.

Lemma named_never_returns (A : Type) (v : value) (message : jsstring -> jsstring) (x : A) :
  (named <- template v ;; Throw (A := A) (Error (message named))) <> Ok x.
Proof. rewrite named_throws. now destruct (toString_throws v). Qed.

Lemma check_accepted (payload : value) :
  check payload = Ok payload <-> accepted payload.
Proof.
  split.
  - intros H.
    destruct payload; try discriminate H.
    rewrite check_object in H. unfold accepted, present.
    destruct (truthy (field _ (js "alg"))); [|discriminate H].
    destruct (truthy (field _ (js "kdf"))); [|discriminate H].
    destruct (truthy (field _ (js "salt"))); [|discriminate H].
    destruct (truthy (field _ (js "iv"))); [|discriminate H].
    destruct (truthy (field _ (js "iterations"))); [|discriminate H].
    destruct (truthy (field _ (js "ct"))); [|discriminate H].
    cbn [andb negb] in H.
    destruct (strict_eq_str (field _ (js "alg")) _) eqn:Ea;
      [|now apply named_never_returns in H].
    destruct (strict_eq_str (field _ (js "kdf")) _) eqn:Ek;
      [|now apply named_never_returns in H].
    apply strict_eq_str_spec in Ea, Ek. repeat split; assumption.
  - intros Hacc. destruct (accepted_object Hacc) as [props ->].
    destruct Hacc as (H1 & H2 & H3 & H4 & H5 & H6 & Ha & Hk).
    unfold present in *. rewrite check_object.
    rewrite H1, H2, H3, H4, H5, H6. cbn [andb negb].
    apply strict_eq_str_spec in Ha, Hk. now rewrite Ha, Hk.
Qed.

Lemma check_returns_argument (payload out : value) :
  check payload = Ok out -> out = payload.
Proof.
  destruct payload; try discriminate.
  rewrite check_object.
  destruct (negb _); [discriminate|].
  destruct (negb _); [intros H; now apply named_never_returns in H|].
  destruct (negb _); [intros H; now apply named_never_returns in H|].
  congruence.
Qed.

(** C2 (amended).  [parsePayload] returns a payload exactly when the
    input parses to it and all six of its fields are there and not empty
    ([undefined], [null], [false], [0] and [""] count as empty), with
    [alg] the string "AES-GCM" and [kdf] the string "PBKDF2"; every other
    input makes it throw.  Nothing else is looked at: not whether [salt]
    and [iv] decode, not the sign of [iterations]. *)
Theorem parsePayload_accepts (input : payload_input) (payload : value) :
  (parsePayload input = Ok payload <->
   parse_input input = Ok payload /\ accepted payload) /\
  (~ (parse_input input = Ok payload /\ accepted payload) ->
   parsePayload input <> Ok payload) /\
  ((forall v, parse_input input = Ok v -> ~ accepted v) ->
   exists e, parsePayload input = Throw e).
Proof.
  assert (Hiff : parsePayload input = Ok payload <->
                 parse_input input = Ok payload /\ accepted payload).
  { unfold parsePayload.
    destruct (parse_input input) as [v|e]; cbn [bind].
    - split.
      + intros H. pose proof (check_returns_argument _ H) as ->.
        split; [reflexivity|]. now apply check_accepted.
      + intros [[= ->] Hacc]. now apply check_accepted.
    - split; [discriminate|]. intros [H _]. discriminate H. }
  split; [exact Hiff|]. split.
  - intros Hn H. apply Hn, Hiff, H.
  - intros Hn. unfold parsePayload.
    destruct (parse_input input) as [v|e]; cbn [bind]; [|eauto].
    destruct (check v) as [out|e] eqn:E; [|eauto].
    pose proof (check_returns_argument _ E) as ->.
    apply check_accepted in E. now destruct (Hn v eq_refl).
Qed.


End WithPlatform.

(** *** Runs on the reference platform *)

(** C2 as stated fails: a payload with a [salt] and an [iv] that are not
    Base64 and with -1 iterations is accepted, as an object and as the
    JSON text of that object. *)
Lemma unchecked_fields_counterexample :
  let bad := envelope_with (js "AES-GCM") (-1) in
  parsePayload (P := Reference.platform) (InObject bad) = Ok bad /\
  parsePayload (P := Reference.platform)
    (InString (Reference.stringify bad)) = Ok bad /\
  ~ envelope_invariant bad.
Proof.
  split; [reflexivity|]. split; [vm_compute; reflexivity|].
  intros (_ & _ & _ & _ & _ & _ & _ & _ & _ & _ & n & Hn & Hpos).
  vm_compute in Hn. injection Hn as <-. lia.
Qed.



End CodecClaims.

(* ================================================================= *)
(** ** The reference JSON reads back what it writes *)

Module ReferenceJSON.

Import Reference.

Local Open Scope N_scope.

Lemma below_forallb (k : nat) (f : N -> bool) :
  forallb f (map N.of_nat (seq 0 k)) = true ->
  forall n, n < N.of_nat k -> f n = true.
Proof.
  intros H n Hn. rewrite forallb_forall in H. apply H.
  apply in_map_iff. exists (N.to_nat n). split; [lia|]. apply in_seq. lia.
Qed.

Lemma hex_value_digit (n : N) : n < 16 -> hex_value (hex_digit n) = Some n.
Proof.
  intros Hn.
  pose proof (@below_forallb 16
    (fun n => match hex_value (hex_digit n) with Some m => m =? n | None => false end)
    ltac:(vm_compute; reflexivity) n Hn) as H.
  cbv beta in H. destruct (hex_value (hex_digit n)); [|discriminate].
  f_equal. lia.
Qed.

Lemma parse_unicode_escape (c : N) (rest : jsstring) :
  c < 65536 ->
  parse_chars (unicode_escape c ++ rest) = consed c (parse_chars rest).
Proof.
  intros Hc. unfold unicode_escape. cbn [app].
  cbn [parse_chars N.eqb Pos.eqb].
  rewrite !hex_value_digit by lia.
  f_equal. lia.
Qed.

Lemma parse_raw (c : N) (rest : jsstring) :
  32 <= c -> c <> 34 -> c <> 92 ->
  parse_chars (c :: rest) = consed c (parse_chars rest).
Proof.
  intros H1 H2 H3. cbn [parse_chars].
  destruct (c =? 34) eqn:E1; [lia|].
  destruct (c =? 92) eqn:E2; [lia|].
  destruct (c <? 32) eqn:E3; [lia|]. reflexivity.
Qed.

Lemma parse_quote_char (c : N) (rest : jsstring) :
  c < 65536 ->
  parse_chars (quote_char c ++ rest) = consed c (parse_chars rest).
Proof.
  intros Hc. unfold quote_char.
  destruct (c =? 34) eqn:E1; [apply N.eqb_eq in E1 as ->; reflexivity|].
  destruct (c =? 92) eqn:E2; [apply N.eqb_eq in E2 as ->; reflexivity|].
  destruct (c =? 8) eqn:E3; [apply N.eqb_eq in E3 as ->; reflexivity|].
  destruct (c =? 9) eqn:E4; [apply N.eqb_eq in E4 as ->; reflexivity|].
  destruct (c =? 10) eqn:E5; [apply N.eqb_eq in E5 as ->; reflexivity|].
  destruct (c =? 12) eqn:E6; [apply N.eqb_eq in E6 as ->; reflexivity|].
  destruct (c =? 13) eqn:E7; [apply N.eqb_eq in E7 as ->; reflexivity|].
  destruct (c <? 32) eqn:E8.
  - now apply parse_unicode_escape.
  - cbn [app]. apply parse_raw; lia.
Qed.

(** A string literal is read back, whatever its code units. *)
Lemma parse_quote_chars (s tail : jsstring) :
  parse_chars (quote_chars s ++ 34 :: tail) = Some (s, tail).
Proof.
  remember (List.length s) as n eqn:Hn.
  assert (Hle : (List.length s <= n)%nat) by lia. clear Hn.
  revert s Hle. induction n as [|n IH]; intros [|c rest] Hle;
    cbn [List.length] in Hle; try lia; try reflexivity.
  cbn [quote_chars].
  destruct (is_high_surrogate c) eqn:Eh.
  - unfold is_high_surrogate in Eh.
    destruct rest as [|d rest'].
    + rewrite parse_unicode_escape by lia. reflexivity.
    + destruct (is_low_surrogate d) eqn:El.
      * unfold is_low_surrogate in El. cbn [app].
        rewrite parse_raw by lia. rewrite parse_raw by lia.
        rewrite IH by (cbn [List.length] in Hle; lia). reflexivity.
      * rewrite <- app_assoc, parse_unicode_escape by lia.
        rewrite IH by lia. reflexivity.
  - destruct (is_low_surrogate c) eqn:El.
    + unfold is_low_surrogate in El.
      rewrite <- app_assoc, parse_unicode_escape by lia.
      rewrite IH by lia. reflexivity.
    + destruct (c <? 65536) eqn:Ec.
      * rewrite <- app_assoc, parse_quote_char by lia.
        rewrite IH by lia. reflexivity.
      * unfold quote_char.
        replace (c =? 34) with false by lia. replace (c =? 92) with false by lia.
        replace (c =? 8) with false by lia. replace (c =? 9) with false by lia.
        replace (c =? 10) with false by lia. replace (c =? 12) with false by lia.
        replace (c =? 13) with false by lia. replace (c <? 32) with false by lia.
        cbn [app]. rewrite parse_raw by lia.
        rewrite IH by lia. reflexivity.
Qed.

(** *** Numbers *)

Lemma parse_digits_chars (d : Decimal.uint) (c : N) (tail : jsstring) :
  (forall d', digit_of c d' = None) ->
  parse_digits (uint_chars d ++ c :: tail) = (d, c :: tail).
Proof.
  intros Hc. induction d; cbn [uint_chars app parse_digits];
    try (rewrite IHd; reflexivity).
  destruct (parse_digits tail) as [d' r]. now rewrite Hc.
Qed.

Lemma nzhead_no_zero (d : Decimal.uint) :
  match Decimal.nzhead d with Decimal.D0 _ => False | _ => True end.
Proof. induction d; cbn; auto. Qed.

Lemma unorm_canonical (d : Decimal.uint) : canonical (Decimal.unorm d).
Proof.
  unfold Decimal.unorm. pose proof (nzhead_no_zero d) as H.
  destruct (Decimal.nzhead d); cbn in *; try contradiction; exact I.
Qed.

Lemma to_int_canonical (n : Z) :
  match Z.to_int n with
  | Decimal.Pos d => canonical d
  | Decimal.Neg d => canonical d
  end.
Proof.
  pose proof (DecimalZ.to_of (Z.to_int n)) as H.
  rewrite DecimalZ.of_to in H.
  destruct (Z.to_int n) as [d|d]; cbn [Decimal.norm] in H.
  - injection H as H. rewrite H. apply unorm_canonical.
  - pose proof (nzhead_no_zero d) as Hz.
    destruct (Decimal.nzhead d) eqn:E; try discriminate H;
      try contradiction; injection H as H; rewrite H; exact I.
Qed.

Lemma parse_unsigned_chars (d : Decimal.uint) (c : N) (tail : jsstring) :
  canonical d -> ends_number c ->
  parse_unsigned (uint_chars d ++ c :: tail) = Some (d, c :: tail).
Proof.
  intros Hd (Hc & H1 & H2 & H3). unfold parse_unsigned.
  rewrite parse_digits_chars by assumption.
  replace ((c =? 46) || (c =? 101) || (c =? 69)) with false by lia.
  destruct d as [|d|d|d|d|d|d|d|d|d|d]; try reflexivity; try contradiction.
  destruct d; try contradiction. reflexivity.
Qed.

Lemma parse_number_chars (n : Z) (c : N) (tail : jsstring) :
  ends_number c ->
  parse_number (Number_toString n ++ c :: tail) = Some (n, c :: tail).
Proof.
  intros Hc. unfold Number_toString.
  pose proof (to_int_canonical n) as Hcan.
  pose proof (DecimalZ.of_to n) as Hof.
  destruct (Z.to_int n) as [d|d].
  - assert (H : parse_number (uint_chars d ++ c :: tail)
                = match parse_unsigned (uint_chars d ++ c :: tail) with
                  | Some (d, rest) => Some (Z.of_int (Decimal.Pos d), rest)
                  | None => None
                  end).
    { destruct d; try contradiction; reflexivity. }
    rewrite H, parse_unsigned_chars by assumption. now rewrite Hof.
  - cbn [app parse_number].
    rewrite parse_unsigned_chars by assumption. now rewrite Hof.
Qed.

Lemma parse_value_number (fuel : nat) (n : Z) (c : N) (tail : jsstring) :
  ends_number c ->
  parse_value (S fuel) (Number_toString n ++ c :: tail) = Some (VNum n, c :: tail).
Proof.
  intros Hc.
  assert (H : parse_value (S fuel) (Number_toString n ++ c :: tail)
              = match parse_number (Number_toString n ++ c :: tail) with
                | Some (n, rest) => Some (VNum n, rest)
                | None => None
                end).
  { unfold Number_toString. pose proof (to_int_canonical n) as Hcan.
    destruct (Z.to_int n) as [d|d]; [|reflexivity].
    destruct d; try contradiction; reflexivity. }
  now rewrite H, parse_number_chars.
Qed.

Lemma quote_app (s tail : jsstring) :
  quote s ++ tail = 34 :: quote_chars s ++ 34 :: tail.
Proof. unfold quote. cbn [app]. now rewrite <- app_assoc. Qed.

Ltac json_step :=
  cbn [app skip_ws is_json_whitespace N.eqb Pos.eqb orb].

Lemma parse_value_string (fuel : nat) (s tail : jsstring) :
  parse_value (S fuel) (quote s ++ tail) = Some (VStr s, tail).
Proof.
  rewrite quote_app. cbn [parse_value]. json_step.
  now rewrite parse_quote_chars.
Qed.

(** *** Members of an object *)

Lemma parse_members_more fuel key vtext v tail props rest :
  parse_value fuel (vtext ++ 44 :: tail) = Some (v, 44 :: tail) ->
  parse_members fuel tail = Some (props, rest) ->
  parse_members (S fuel) (quote key ++ 58 :: vtext ++ 44 :: tail)
  = Some ((key, v) :: props, rest).
Proof.
  intros Hv Hm. rewrite quote_app. cbn [parse_members]. json_step.
  rewrite parse_quote_chars. json_step.
  rewrite Hv. json_step. now rewrite Hm.
Qed.

Lemma parse_members_last fuel key vtext v rest :
  parse_value fuel (vtext ++ 125 :: rest) = Some (v, 125 :: rest) ->
  parse_members (S fuel) (quote key ++ 58 :: vtext ++ 125 :: rest)
  = Some ([(key, v)], rest).
Proof.
  intros Hv. rewrite quote_app. cbn [parse_members]. json_step.
  rewrite parse_quote_chars. json_step.
  rewrite Hv. reflexivity.
Qed.

Lemma parse_value_object fuel key tail props rest :
  parse_members fuel (quote key ++ tail) = Some (props, rest) ->
  parse_value (S fuel) (123 :: quote key ++ tail) = Some (VObj props, rest).
Proof.
  rewrite quote_app. intros H. cbn [parse_value]. json_step. now rewrite H.
Qed.

(** The text of an envelope, spelled out. *)
Lemma stringify_payload (p : EncryptionPayload) :
  stringify (payload_value p) =
  123 :: quote (js "alg") ++ 58 :: quote (alg p) ++
  44 :: quote (js "kdf") ++ 58 :: quote (kdf p) ++
  44 :: quote (js "salt") ++ 58 :: quote (salt p) ++
  44 :: quote (js "iv") ++ 58 :: quote (iv p) ++
  44 :: quote (js "iterations") ++ 58 :: Number_toString (iterations p) ++
  44 :: quote (js "ct") ++ 58 :: quote (ct p) ++ 125 :: [].
Proof.
  unfold payload_value. cbn [stringify join].
  repeat (rewrite <- app_assoc; cbn [app]). reflexivity.
Qed.

Lemma ends_number_comma : ends_number 44.
Proof. repeat split; try reflexivity; discriminate. Qed.

Lemma parse_stringify_payload (p : EncryptionPayload) :
  parse (stringify (payload_value p)) = Some (payload_value p).
Proof.
  unfold parse. set (text := stringify (payload_value p)).
  assert (Hfuel : exists f, (2 * List.length text + 2 = 8 + f)%nat).
  { exists (2 * List.length text - 6)%nat. subst text.
    rewrite stringify_payload, quote_app. cbn [List.length].
    rewrite length_app. cbn [List.length]. lia. }
  destruct Hfuel as [f ->]. subst text. rewrite stringify_payload.
  cbn [Nat.add].
  erewrite parse_value_object; cycle 1.
  { apply parse_members_more; [apply parse_value_string|].
    apply parse_members_more; [apply parse_value_string|].
    apply parse_members_more; [apply parse_value_string|].
    apply parse_members_more; [apply parse_value_string|].
    apply parse_members_more; [apply parse_value_number, ends_number_comma|].
    apply parse_members_last. apply parse_value_string. }
  reflexivity.
Qed.

(** *** Code units of the text *)

Lemma latin1_app (a b : jsstring) : latin1 a -> latin1 b -> latin1 (a ++ b).
Proof. unfold latin1. intros Ha Hb. now rewrite forallb_app, Ha, Hb. Qed.

Lemma latin1_cons (c : N) (s : jsstring) : c < 256 -> latin1 s -> latin1 (c :: s).
Proof.
  unfold latin1. intros Hc Hs. cbn [forallb]. rewrite Hs.
  now replace (c <? 256) with true by lia.
Qed.

Lemma latin1_inv (c : N) (s : jsstring) : latin1 (c :: s) -> c < 256 /\ latin1 s.
Proof.
  unfold latin1. cbn [forallb]. intros H.
  apply andb_prop in H as [H1 H2]. split; [lia|assumption].
Qed.

Lemma latin1_quote_char (c : N) : c < 256 -> latin1 (quote_char c).
Proof.
  intros Hc. unfold quote_char, unicode_escape, hex_digit.
  repeat match goal with
         | |- context [if ?b then _ else _] => destruct b eqn:?
         end;
    repeat (apply latin1_cons; [lia|]); reflexivity.
Qed.

Lemma latin1_quote_chars (s : jsstring) : latin1 s -> latin1 (quote_chars s).
Proof.
  induction s as [|c s IH]; intros H; [reflexivity|].
  apply latin1_inv in H as [Hc Hs]. cbn [quote_chars].
  replace (is_high_surrogate c) with false by (unfold is_high_surrogate; lia).
  replace (is_low_surrogate c) with false by (unfold is_low_surrogate; lia).
  apply latin1_app; [now apply latin1_quote_char | auto].
Qed.

Lemma latin1_quote (s : jsstring) : latin1 s -> latin1 (quote s).
Proof.
  intros H. unfold quote. apply latin1_cons; [lia|].
  apply latin1_app; [now apply latin1_quote_chars | reflexivity].
Qed.

Lemma latin1_uint_chars (d : Decimal.uint) : latin1 (uint_chars d).
Proof. induction d; cbn [uint_chars]; try reflexivity; apply latin1_cons; auto; lia. Qed.

Lemma latin1_Number_toString (n : Z) : latin1 (Number_toString n).
Proof.
  unfold Number_toString. destruct (Z.to_int n).
  - apply latin1_uint_chars.
  - apply latin1_cons; [lia | apply latin1_uint_chars].
Qed.

#[export] Instance reference_json messages : JSONLaws (platform_with messages).
Proof.
  constructor; cbn [platform_with JSON_parse JSON_stringify].
  - apply parse_stringify_payload.
  - intros p Ha Hk Hs Hi Hc. rewrite stringify_payload.
    eexists. split; [reflexivity|].
    repeat first
      [ apply latin1_quote; first [assumption | reflexivity]
      | apply latin1_Number_toString
      | apply latin1_app
      | apply latin1_cons; [lia|]
      | reflexivity ].
Qed.

End ReferenceJSON.

(* ================================================================= *)
(** ** The envelope codec: both text forms are read back *)

Module CodecSymmetry.

Import Base64Facts CryptoFacts CodecClaims ReferenceJSON.

Local Open Scope N_scope.

Lemma strip_padding_keeps (data : jsstring) (c : N) :
  In c data -> c <> 61 -> In c (strip_padding data).
Proof.
  unfold strip_padding. intros Hin Hc.
  destruct (List.length data mod 4 =? 0)%nat; [|auto].
  destruct (rev data) as [|c1 r1] eqn:E; [auto|].
  assert (Hd : data = rev r1 ++ [c1]).
  { rewrite <- (rev_involutive data), E. reflexivity. }
  destruct (c1 =? 61) eqn:E1; [|auto].
  rewrite Hd in Hin. apply in_app_or in Hin as [Hin|[<-|[]]]; [|lia].
  destruct r1 as [|c2 r2]; [exact Hin|].
  destruct (c2 =? 61) eqn:E2; [|exact Hin].
  cbn [rev] in Hin. apply in_app_or in Hin as [Hin|[<-|[]]]; [exact Hin|lia].
Qed.

Lemma indices_all (data : jsstring) (sx : list N) :
  indices data = Some sx -> forall c, In c data -> b64_index c <> None.
Proof.
  revert sx. induction data as [|d data IH]; intros sx H c Hin; [destruct Hin|].
  cbn [indices] in H.
  destruct (b64_index d) eqn:Ed; [|discriminate].
  destruct (indices data) eqn:Ei; [|discriminate].
  destruct Hin as [<-|Hin]; [congruence|]. eapply IH; eauto.
Qed.

Lemma b64_index_small (c : N) : b64_index c <> None -> c < 123.
Proof.
  unfold b64_index. intros H.
  repeat match type of H with
         | context [if ?b then _ else _] => destruct b eqn:?
         end; try lia. congruence.
Qed.

(** A text [atob] decodes has no code unit above 0xFF. *)
Lemma atob_latin1 (s bytes : jsstring) : atob s = Some bytes -> latin1 s.
Proof.
  unfold atob. intros H.
  destruct (_ =? 1)%nat; [discriminate|].
  destruct (indices _) as [sx|] eqn:E; [|discriminate].
  apply forallb_forall. intros c Hc.
  destruct (is_ascii_whitespace c) eqn:Ew.
  - unfold is_ascii_whitespace in Ew. lia.
  - destruct (N.eq_dec c 61) as [->|Hne]; [reflexivity|].
    assert (Hin : In c (strip_padding (filter (fun c => negb (is_ascii_whitespace c)) s))).
    { apply strip_padding_keeps; [|assumption].
      apply filter_In. split; [assumption|]. now rewrite Ew. }
    pose proof (@b64_index_small c (@indices_all _ _ E c Hin)). lia.
Qed.

(** [atob] turns down a text that opens with a brace. *)
Lemma atob_brace (rest : jsstring) : atob (123 :: rest) = None.
Proof.
  unfold atob.
  destruct (_ =? 1)%nat; [reflexivity|].
  destruct (indices _) as [sx|] eqn:E; [|reflexivity].
  exfalso. apply (@indices_all _ _ E 123); [|reflexivity].
  apply strip_padding_keeps; [|lia]. cbn. now left.
Qed.

Lemma decodes_nonempty_text (s : jsstring) : decodes_nonempty s -> s <> [] /\ latin1 s.
Proof.
  intros (bytes & H & Hne). split.
  - intros ->. cbn in H. injection H as <-. now apply Hne.
  - eapply atob_latin1; eauto.
Qed.

Lemma valid_accepted (E : EncryptionPayload) :
  valid_envelope E -> accepted (payload_value E).
Proof.
  intros (Ha & Hk & Hs & Hi & Hn & Hc).
  apply decodes_nonempty_text in Hs as [Hs _], Hi as [Hi _], Hc as [Hc _].
  unfold accepted, present, payload_value.
  repeat split.
  - now rewrite Ha.
  - now rewrite Hk.
  - change (truthy (VStr (salt E)) = true). cbn. now destruct (salt E).
  - change (truthy (VStr (iv E)) = true). cbn. now destruct (iv E).
  - change (truthy (VNum (iterations E)) = true). cbn. lia.
  - change (truthy (VStr (ct E)) = true). cbn. now destruct (ct E).
  - now rewrite Ha.
  - now rewrite Hk.
Qed.

Section WithPlatform.
Context {P : Platform}.

(** C5.  For every valid envelope, [encodePayload] returns a text,
    [parsePayload] of that text is the envelope, and [parsePayload] of
    the bare [JSON.stringify] text of the envelope is the envelope too. *)
Theorem codec_symmetry {J : JSONLaws P} (E : EncryptionPayload) :
  valid_envelope E ->
  exists text,
    encodePayload E = Ok text /\
    parsePayload (InString text) = Ok (payload_value E) /\
    parsePayload (InString (JSON_stringify (payload_value E))) = Ok (payload_value E).
Proof.
  intros Hv.
  pose proof (valid_accepted Hv) as Hacc. apply check_accepted in Hacc.
  destruct Hv as (Ha & Hk & Hs & Hi & Hn & Hc).
  apply decodes_nonempty_text in Hs as [_ Hs], Hi as [_ Hi], Hc as [_ Hc].
  destruct (stringify_object E) as (rest & Hjson & Hrest);
    try assumption; try (rewrite Ha || rewrite Hk; reflexivity).
  pose proof (parse_stringify E) as Hparse.
  set (json := JSON_stringify (payload_value E)) in *.
  assert (Hb : exists text, btoa json = Some text).
  { unfold btoa. rewrite Hjson. cbn [forallb].
    unfold latin1 in Hrest. rewrite Hrest. cbn. eauto. }
  destruct Hb as [text Hb]. exists text.
  split; [|split].
  - unfold encodePayload. fold json. now rewrite Hb.
  - unfold parsePayload, parse_input.
    rewrite (atob_btoa _ Hb). cbn [lift_atob bind].
    rewrite Hparse. cbn [lift_json try_catch bind]. exact Hacc.
  - unfold parsePayload, parse_input.
    rewrite Hjson at 1. rewrite atob_brace. cbn [lift_atob bind try_catch].
    rewrite Hparse. cbn [lift_json try_catch bind]. exact Hacc.
Qed.

End WithPlatform.

(** *** A run on the reference platform *)

Lemma sample_valid : valid_envelope sample.
Proof.
  repeat split; try reflexivity;
    (eexists; split; [vm_compute; reflexivity | discriminate]).
Qed.

Lemma codec_symmetry_witness :
  exists text,
    encodePayload (P := Reference.platform) sample = Ok text /\
    parsePayload (P := Reference.platform) (InString text) = Ok (payload_value sample) /\
    parsePayload (P := Reference.platform)
      (InString (Reference.stringify (payload_value sample)))
    = Ok (payload_value sample).
Proof.
  exact (codec_symmetry (P := Reference.platform) sample_valid).
Defined.

End CodecSymmetry.

(* ================================================================= *)
(** ** The history store *)

Module HistoryClaims.

Local Open Scope Z_scope.

Lemma insert_length x l :
  List.length (insert_newest_first x l) = S (List.length l).
Proof.
  induction l as [|y l IH]; cbn [insert_newest_first]; [reflexivity|].
  destruct (timestamp x <? timestamp y); cbn [List.length]; congruence.
Qed.


Lemma insert_in x l y : In y (insert_newest_first x l) -> y = x \/ In y l.
Proof.
  induction l as [|z l IH]; cbn [insert_newest_first].
  - intros [<-|[]]. now left.
  - destruct (timestamp x <? timestamp z).
    + intros [<-|H]; [right; now left|].
      destruct (IH H); [now left | right; now right].
    + intros [<-|H]; [now left | now right].
Qed.

Lemma insert_sorted x l :
  newest_first l -> newest_first (insert_newest_first x l).
Proof.
  unfold newest_first.
  induction 1 as [|y l Hl IH Hy]; cbn [insert_newest_first].
  - repeat constructor.
  - destruct (timestamp x <? timestamp y) eqn:E.
    + constructor; [exact IH|].
      apply Forall_forall. intros z Hz.
      destruct (insert_in _ _ _ Hz) as [->|Hz']; [lia|].
      rewrite Forall_forall in Hy. now apply Hy.
    + constructor; [now constructor|].
      constructor; [lia|].
      eapply Forall_impl; [|exact Hy]. cbn. intros z Hz. lia.
Qed.

(** [getHistory] always hands out its items newest first. *)
Lemma sort_sorted l : newest_first (sort_newest_first l).
Proof.
  induction l as [|x l IH]; cbn [sort_newest_first].
  - constructor.
  - now apply insert_sorted.
Qed.

(** The sort is stable: it leaves a sorted list alone. *)
Lemma sort_of_sorted l : newest_first l -> sort_newest_first l = l.
Proof.
  unfold newest_first.
  induction 1 as [|x l Hl IH Hx]; cbn [sort_newest_first]; [reflexivity|].
  rewrite IH. destruct l as [|y l']; [reflexivity|].
  cbn [insert_newest_first].
  inversion_clear Hx as [|? ? Hy _].
  now replace (timestamp x <? timestamp y) with false by lia.
Qed.

Lemma getHistory_sorted w : newest_first (getHistory w).
Proof.
  destruct w as [[[| |items] ok]|]; cbn; try constructor.
  apply sort_sorted.
Qed.

(** A cleared store lists nothing. *)
Lemma clearHistory_empty w : getHistory (clearHistory w) = [].
Proof. now destruct w as [[c ok]|]. Qed.

(** One successful [addToHistory]. *)
Lemma addToHistory_inv item uuid now w w' :
  addToHistory item uuid now w = Ok w' ->
  getHistory w' =
  sort_newest_first
    (firstn MAX_ITEMS
       ({| id := uuid; name := new_name item; timestamp := now;
           payload := new_payload item; size := new_size item |}
        :: getHistory w)).
Proof.
  unfold addToHistory, setItem.
  destruct w as [ls|]; cbn [try_catch]; [|discriminate].
  destruct (accepts ls _); cbn [try_catch]; [|discriminate].
  intros [= <-]. reflexivity.
Qed.

Lemma firstn_sorted n l : newest_first l -> newest_first (firstn n l).
Proof.
  unfold newest_first. intros H. revert n.
  induction H as [|x l Hl IH Hx]; intros [|n]; cbn [firstn]; try constructor.
  - apply IH.
  - apply Forall_forall. intros y Hy.
    rewrite Forall_forall in Hx. apply Hx.
    rewrite <- (firstn_skipn n l). apply in_or_app. now left.
Qed.








(** *** A run of 25 calls *)



End HistoryClaims.

(* ================================================================= *)
(** ** The strength estimate *)

Module StrengthClaims.

Import StrengthSpec.

Local Open Scope Z_scope.

Lemma charSetSize_cases (password : jsstring) :
  0 <= charSetSize password <= 94.
Proof.
  unfold charSetSize.
  destruct (test is_lower password), (test is_upper password),
    (test is_digit password), (test is_symbol password); lia.
Qed.

Lemma charset_floor (size : Z) :
  0 <= size -> (if size =? 0 then 1 else size) = Z.max 1 size.
Proof. intros H. destruct (size =? 0) eqn:E; lia. Qed.

(** The result of [calculatePasswordStrength] on a password that is not
    empty, by its length and charset size. *)
Lemma strength_unfold (password : jsstring) :
  password <> [] ->
  let e := {| chars := Z.of_nat (List.length password);
              charset := Z.max 1 (charSetSize password) |} in
  calculatePasswordStrength password =
  {| score := if entropy_ltb e 28 then 0 else if entropy_ltb e 36 then 1
              else if entropy_ltb e 60 then 2 else if entropy_ltb e 128 then 3 else 4;
     entropy := Math_round e;
     feedback := if entropy_ltb e 28 then js "Very weak - use longer passphrase"
                 else if entropy_ltb e 36 then js "Weak - add more characters"
                 else if entropy_ltb e 60 then js "Fair - consider more complexity"
                 else if entropy_ltb e 128 then js "Strong - good passphrase"
                 else js "Very strong - excellent" |}.
Proof.
  intros Hne e. destruct password as [|c s]; [contradiction|].
  unfold calculatePasswordStrength.
  rewrite charset_floor by apply charSetSize_cases. fold e.
  destruct (entropy_ltb e 28); [reflexivity|].
  destruct (entropy_ltb e 36); [reflexivity|].
  destruct (entropy_ltb e 60); [reflexivity|].
  destruct (entropy_ltb e 128); reflexivity.
Qed.

Section Exact.

Import Stdlib.Reals.Reals Stdlib.micromega.Lra.
Local Open Scope R_scope.

Lemma ln_2_pos : 0 < ln 2.
Proof. rewrite <- ln_1. apply ln_increasing; lra. Qed.

(** Comparing integer powers is comparing the logarithms. *)
Lemma pow_lt_log2 (n t : nat) (c : Z) :
  (1 <= c)%Z ->
  (c ^ Z.of_nat n < 2 ^ Z.of_nat t)%Z <-> INR n * log2 (IZR c) < INR t.
Proof.
  intros Hc.
  assert (H0 : 0 < IZR c) by (apply IZR_lt; lia).
  pose proof ln_2_pos as H2.
  assert (Hmul : INR n * log2 (IZR c) * ln 2 = INR n * ln (IZR c)).
  { unfold log2. field. lra. }
  split.
  - intros H. apply IZR_lt in H. rewrite <- !pow_IZR in H.
    apply ln_increasing in H; [|now apply pow_lt].
    rewrite !ln_pow in H by lra.
    apply (Rmult_lt_reg_r (ln 2)); [assumption|]. now rewrite Hmul.
  - intros H. apply lt_IZR. rewrite <- !pow_IZR.
    apply ln_lt_inv; try (apply pow_lt; lra).
    rewrite !ln_pow by lra. rewrite <- Hmul.
    now apply Rmult_lt_compat_r.
Qed.

Lemma pow_le_log2 (n t : nat) (c : Z) :
  (1 <= c)%Z ->
  (2 ^ Z.of_nat t <= c ^ Z.of_nat n)%Z <-> INR t <= INR n * log2 (IZR c).
Proof.
  intros Hc. pose proof (pow_lt_log2 n t Hc) as H. split.
  - intros Hz. apply Rnot_lt_le. intros Hr. apply H in Hr. lia.
  - intros Hr. apply Z.le_ngt. intros Hz. apply H in Hz. lra.
Qed.

Lemma entropy_ltb_exact (password : jsstring) (t : nat) :
  let e := {| chars := Z.of_nat (List.length password);
              charset := Z.max 1 (charSetSize password) |} in
  (entropy_ltb e (Z.of_nat t) = true -> exact_entropy password < INR t) /\
  (entropy_ltb e (Z.of_nat t) = false -> INR t <= exact_entropy password).
Proof.
  intros e. unfold entropy_ltb, exact_entropy. cbn [chars charset e].
  split; intros H.
  - apply pow_lt_log2; lia.
  - apply pow_le_log2; lia.
Qed.

Lemma Math_round_exact (password : jsstring) :
  let e := {| chars := Z.of_nat (List.length password);
              charset := Z.max 1 (charSetSize password) |} in
  rounds_to (exact_entropy password) (Math_round e).
Proof.
  intros e. unfold rounds_to, Math_round, exact_entropy. cbn [chars charset e].
  set (n := List.length password). set (c := Z.max 1 (charSetSize password)).
  assert (Hc : (1 <= c)%Z) by lia.
  set (h := INR n * log2 (IZR c)).
  replace (2 * Z.of_nat n)%Z with (Z.of_nat (2 * n)) by lia.
  assert (Hpos : (0 < c ^ Z.of_nat (2 * n))%Z) by (apply Z.pow_pos_nonneg; lia).
  destruct (Z.log2_spec _ Hpos) as [Hlo Hhi].
  set (m := Z.log2 (c ^ Z.of_nat (2 * n))) in *.
  assert (Hm : (0 <= m)%Z) by apply Z.log2_nonneg.
  rewrite <- (Z2Nat.id m) in Hlo by assumption.
  replace (Z.succ m) with (Z.of_nat (S (Z.to_nat m))) in Hhi by lia.
  apply pow_le_log2 in Hlo; [|assumption].
  apply pow_lt_log2 in Hhi; [|assumption].
  rewrite !INR_IZR_INZ in Hlo, Hhi.
  rewrite Z2Nat.id in Hlo by assumption.
  replace (Z.of_nat (S (Z.to_nat m))) with (m + 1)%Z in Hhi by lia.
  replace (IZR (Z.of_nat (2 * n))) with (2 * INR n) in Hlo, Hhi
    by (rewrite Nat2Z.inj_mul, mult_IZR, (INR_IZR_INZ n); reflexivity).
  rewrite plus_IZR in Hhi.
  fold h in Hlo, Hhi. rewrite Rmult_assoc in Hlo, Hhi. fold h in Hlo, Hhi.
  set (k := ((m + 1) / 2)%Z).
  assert (Hk : (2 * k <= m + 1 <= 2 * k + 1)%Z) by (subst k; lia).
  assert (Hk1 : 2 * IZR k <= IZR m + 1).
  { change 2 with (IZR 2). change 1 with (IZR 1).
    rewrite <- mult_IZR, <- plus_IZR. apply IZR_le. lia. }
  assert (Hk2 : IZR m + 1 <= 2 * IZR k + 1).
  { change 2 with (IZR 2). change 1 with (IZR 1).
    rewrite <- mult_IZR, <- !plus_IZR. apply IZR_le. lia. }
  lra.
Qed.

(** C8 (amended).  For the empty password the estimate is score 0,
    entropy 0 and the feedback "Password required".  For any other
    password, with [h] the product of its length and the base-2 logarithm
    of its charset size (26 for a lowercase letter, 26 for an uppercase
    letter, 10 for a digit, 32 for any other character, each counted when
    present, and 1 when the sum is 0): the score and the feedback are
    those of the step function on [h] itself, 0 below 28, 1 below 36, 2
    below 60, 3 below 128 and 4 from there on, and the reported entropy
    is [h] rounded to the nearest integer. *)
Theorem strength_step_function (password : jsstring) :
  let r := calculatePasswordStrength password in
  match password with
  | [] => r = {| score := 0; entropy := 0; feedback := js "Password required" |}
  | _ =>
      step (exact_entropy password) (score r) (feedback r) /\
      rounds_to (exact_entropy password) (entropy r)
  end.
Proof.
  intros r. destruct password as [|c s]; [reflexivity|].
  set (password := c :: s) in *.
  assert (Hne : password <> []) by discriminate.
  subst r. rewrite (strength_unfold Hne). cbn [score feedback entropy].
  split; [|apply Math_round_exact].
  destruct (entropy_ltb_exact password 28) as [H28 H28'].
  destruct (entropy_ltb_exact password 36) as [H36 H36'].
  destruct (entropy_ltb_exact password 60) as [H60 H60'].
  destruct (entropy_ltb_exact password 128) as [H128 H128'].
  rewrite !INR_IZR_INZ in *. cbn [Z.of_nat Pos.of_succ_nat Pos.succ] in *.
  destruct (entropy_ltb _ 28); [apply very_weak; auto|].
  destruct (entropy_ltb _ 36); [apply weak; auto|].
  destruct (entropy_ltb _ 60); [apply fair; auto|].
  destruct (entropy_ltb _ 128); [apply strong; auto|].
  apply very_strong; auto.
Qed.

End Exact.

(** C8 as stated fails: "abcDE1" has 6 characters over a charset of 62,
    so 35.7 bits; it is reported as 36 bits with score 1, where the
    thresholds read on the reported 36 give 2. *)
Lemma rounded_entropy_counterexample :
  let r := calculatePasswordStrength (js "abcDE1") in
  entropy r = 36 /\ score r = 1 /\
  feedback r = js "Weak - add more characters" /\
  score_of_reported (entropy r) = 2 /\
  score r <> score_of_reported (entropy r).
Proof. vm_compute. repeat split; discriminate. Qed.

(** *** Monotonicity *)

Lemma score_unfold (password : jsstring) :
  score (calculatePasswordStrength password) =
  match password with
  | [] => 0
  | _ =>
      let x := Z.max 1 (charSetSize password) ^ Z.of_nat (List.length password) in
      if x <? 2 ^ 28 then 0 else if x <? 2 ^ 36 then 1
      else if x <? 2 ^ 60 then 2 else if x <? 2 ^ 128 then 3 else 4
  end.
Proof.
  destruct password as [|c s]; [reflexivity|].
  rewrite strength_unfold by discriminate. reflexivity.
Qed.

Lemma score_range (password : jsstring) :
  0 <= score (calculatePasswordStrength password) <= 4.
Proof.
  rewrite score_unfold. destruct password; [lia|]. cbv zeta.
  repeat match goal with
         | |- context [if ?b then _ else _] => destruct b
         end; lia.
Qed.

(** With the same charset size, a password that is not shorter does not
    score lower. *)
Lemma score_monotone (p q : jsstring) :
  charSetSize p = charSetSize q ->
  (List.length p <= List.length q)%nat ->
  score (calculatePasswordStrength p) <= score (calculatePasswordStrength q).
Proof.
  intros Hsize Hlen.
  destruct p as [|c p']; [apply score_range|].
  destruct q as [|d q']; [cbn in Hlen; lia|].
  rewrite !score_unfold. cbv zeta. rewrite <- Hsize.
  set (b := Z.max 1 (charSetSize (c :: p'))).
  assert (Hb : 1 <= b) by lia.
  assert (Hpow : b ^ Z.of_nat (List.length (c :: p'))
                 <= b ^ Z.of_nat (List.length (d :: q'))).
  { apply Z.pow_le_mono_r; lia. }
  set (x := b ^ Z.of_nat (List.length (c :: p'))) in *.
  set (y := b ^ Z.of_nat (List.length (d :: q'))) in *.
  assert (H1 : 2 ^ 28 < 2 ^ 36) by reflexivity.
  assert (H2 : 2 ^ 36 < 2 ^ 60) by reflexivity.
  assert (H3 : 2 ^ 60 < 2 ^ 128) by reflexivity.
  generalize dependent (2 ^ 28). generalize dependent (2 ^ 36).
  generalize dependent (2 ^ 60). generalize dependent (2 ^ 128).
  intros t4 t3 H3 t2 H2 t1 H1.
  destruct (x <? t1) eqn:?, (x <? t2) eqn:?, (x <? t3) eqn:?, (x <? t4) eqn:?,
    (y <? t1) eqn:?, (y <? t2) eqn:?, (y <? t3) eqn:?, (y <? t4) eqn:?; lia.
Qed.

Lemma classes_disjoint (cls other : char_class) (c : N) :
  in_class cls c = true -> cls <> other -> in_class other c = false.
Proof.
  destruct cls, other; cbn [in_class]; intros H Hne; try contradiction;
    unfold is_symbol, is_lower, is_upper, is_digit in *; lia.
Qed.

Lemma test_own_class (cls : char_class) (password : jsstring) :
  password <> [] ->
  forallb (in_class cls) password = true ->
  test (in_class cls) password = true.
Proof.
  destruct password as [|c s]; [contradiction|]. intros _ H.
  cbn [forallb] in H. apply andb_prop in H as [H _].
  unfold test. cbn [existsb]. now rewrite H.
Qed.

Lemma test_other_class (cls other : char_class) (password : jsstring) :
  forallb (in_class cls) password = true ->
  cls <> other ->
  test (in_class other) password = false.
Proof.
  intros H Hne. unfold test.
  induction password as [|c s IH]; [reflexivity|].
  cbn [forallb] in H. apply andb_prop in H as [Hc Hs].
  cbn [existsb]. rewrite (@classes_disjoint cls other c Hc Hne). now apply IH.
Qed.

Lemma class_charset (cls : char_class) (password : jsstring) :
  password <> [] ->
  forallb (in_class cls) password = true ->
  charSetSize password = class_size cls.
Proof.
  intros Hne H. unfold charSetSize.
  change is_lower with (in_class Lowercase).
  change is_upper with (in_class Uppercase).
  change is_digit with (in_class Digit).
  change is_symbol with (in_class Symbol).
  destruct cls;
    rewrite (@test_own_class _ password Hne H);
    rewrite !(fun other => @test_other_class _ other password H) by discriminate;
    reflexivity.
Qed.

(** C9.  For two passwords drawn from one character class (lowercase
    letters, uppercase letters, digits, or the other characters), the
    one that is not shorter does not score lower. *)
Theorem strength_monotone (cls : char_class) (p q : jsstring) :
  forallb (in_class cls) p = true ->
  forallb (in_class cls) q = true ->
  (List.length p <= List.length q)%nat ->
  score (calculatePasswordStrength p) <= score (calculatePasswordStrength q).
Proof.
  intros Hp Hq Hlen.
  destruct p as [|c p']; [apply score_range|].
  destruct q as [|d q']; [cbn in Hlen; lia|].
  apply score_monotone; [|assumption].
  rewrite (@class_charset cls (c :: p')) by (discriminate || assumption).
  rewrite (@class_charset cls (d :: q')) by (discriminate || assumption).
  reflexivity.
Qed.

Lemma strength_monotone_witness :
  score (calculatePasswordStrength (js "abcde"))
  <= score (calculatePasswordStrength (js "abcdefg")).
Proof.
  apply (@strength_monotone Lowercase); [reflexivity | reflexivity | cbn; lia].
Defined.

End StrengthClaims.

(* ================================================================= *)
(** ** The thresholds are not close calls

    The score is decided by comparing [length * Math.log2(charSetSize)]
    with 28, 36, 60 and 128.  In binary64 the product carries an error far
    below 1/8, and the exact product is never within 1/8 of a threshold
    unless the charset size is 1 or 32, where the logarithm is the
    integer 0 or 5: the exact comparisons above decide as the code
    does. *)

Module StrengthMargins.

Import StrengthSpec StrengthClaims.
Import Stdlib.Reals.Reals Stdlib.micromega.Lra.

Local Open Scope Z_scope.

Lemma margin_check_sound (c : Z) (t n : nat) :
  1 <= c -> margin_check c t = true ->
  c ^ Z.of_nat (8 * n) < 2 ^ Z.of_nat (8 * t - 1) \/
  2 ^ Z.of_nat (8 * t + 1) <= c ^ Z.of_nat (8 * n).
Proof.
  intros Hc H. unfold margin_check in H. cbv zeta in H.
  set (n0 := last_below c t) in *.
  apply andb_prop in H as [H1 H2].
  apply Z.ltb_lt in H1. apply Z.leb_le in H2.
  destruct (Nat.le_gt_cases n n0) as [Hn|Hn].
  - left. eapply Z.le_lt_trans; [|exact H1].
    apply Z.pow_le_mono_r; lia.
  - right. eapply Z.le_trans; [exact H2|].
    apply Z.pow_le_mono_r; lia.
Qed.

Lemma charset_values (password : jsstring) :
  In (Z.max 1 (charSetSize password)) [1; 10; 26; 32; 36; 42; 52; 58; 62; 68; 84; 94].
Proof.
  unfold charSetSize.
  destruct (test is_lower password), (test is_upper password),
    (test is_digit password), (test is_symbol password); cbn; tauto.
Qed.

Lemma margins_checked :
  forallb (fun c => forallb (margin_check c) [28; 36; 60; 128]%nat)
    [10; 26; 36; 42; 52; 58; 62; 68; 84; 94] = true.
Proof. vm_compute. reflexivity. Qed.

Local Open Scope R_scope.

(** Unless the charset size is 1 or 32, the exact entropy of a password
    is at least 1/8 away from each threshold. *)
Lemma threshold_margin (password : jsstring) (t : nat) :
  In t [28; 36; 60; 128]%nat ->
  let c := Z.max 1 (charSetSize password) in
  c = 1%Z \/ c = 32%Z \/
  exact_entropy password < INR t - 1 / 8 \/
  INR t + 1 / 8 <= exact_entropy password.
Proof.
  intros Ht c.
  assert (Hc : (1 <= c)%Z) by (subst c; lia).
  destruct (Z.eq_dec c 1) as [?|H1]; [now left|].
  destruct (Z.eq_dec c 32) as [?|H32]; [now right; left|].
  right. right.
  assert (Hcheck : margin_check c t = true).
  { pose proof margins_checked as H. rewrite forallb_forall in H.
    assert (Hin : In c [10; 26; 36; 42; 52; 58; 62; 68; 84; 94]%Z).
    { pose proof (charset_values password) as Hv. fold c in Hv.
      cbn [In] in Hv |- *. intuition congruence. }
    specialize (H c Hin). rewrite forallb_forall in H. now apply H. }
  unfold exact_entropy. fold c. set (n := List.length password).
  assert (H8 : INR (8 * n) * log2 (IZR c) = 8 * (INR n * log2 (IZR c))).
  { rewrite mult_INR. cbn [INR]. ring. }
  assert (Ht1 : (1 <= t)%nat) by (cbn [In] in Ht; lia).
  destruct (@margin_check_sound c t n Hc Hcheck) as [H|H].
  - left. apply pow_lt_log2 in H; [|assumption].
    rewrite H8, minus_INR, mult_INR in H by lia.
    cbn [INR] in H. lra.
  - right. apply pow_le_log2 in H; [|assumption].
    rewrite H8, plus_INR, mult_INR in H.
    cbn [INR] in H. lra.
Qed.

(** For a charset of 32 the entropy is 5 bits a character, and for a
    charset of 1 it is 0. *)
Lemma exact_entropy_32 (password : jsstring) :
  Z.max 1 (charSetSize password) = 32%Z ->
  exact_entropy password = 5 * INR (List.length password).
Proof.
  intros H. unfold exact_entropy, log2. rewrite H.
  replace (IZR 32) with (2 ^ 5) by (cbn; lra).
  rewrite ln_pow by lra. pose proof ln_2_pos. cbn [INR]. field. lra.
Qed.

Lemma exact_entropy_1 (password : jsstring) :
  Z.max 1 (charSetSize password) = 1%Z -> exact_entropy password = 0.
Proof.
  intros H. unfold exact_entropy, log2. rewrite H, ln_1.
  pose proof ln_2_pos. field. lra.
Qed.

End StrengthMargins.

(* ================================================================= *)
(** ** The reference UTF-8 codec carries well-formed text over *)

Module ReferenceUTF8.

Import Reference CryptoFacts ReferenceFacts.

Local Open Scope N_scope.

Lemma lead_byte_1 (b : N) : b <= 127 -> lead_byte b = ([b], None).
Proof. intros H. unfold lead_byte. now replace (b <=? 127) with true by lia. Qed.

Lemma lead_byte_2 (b : N) :
  194 <= b <= 223 ->
  lead_byte b = ([], Some {| code_point := b - 192; bytes_needed := 1;
                             lower_boundary := 128; upper_boundary := 191 |}).
Proof.
  intros H. unfold lead_byte.
  replace (b <=? 127) with false by lia.
  now replace ((194 <=? b) && (b <=? 223)) with true by lia.
Qed.

Lemma lead_byte_3 (b : N) :
  224 <= b <= 239 ->
  lead_byte b = ([], Some {| code_point := b - 224; bytes_needed := 2;
                             lower_boundary := if b =? 224 then 160 else 128;
                             upper_boundary := if b =? 237 then 159 else 191 |}).
Proof.
  intros H. unfold lead_byte.
  replace (b <=? 127) with false by lia.
  replace ((194 <=? b) && (b <=? 223)) with false by lia.
  now replace ((224 <=? b) && (b <=? 239)) with true by lia.
Qed.

Lemma lead_byte_4 (b : N) :
  240 <= b <= 244 ->
  lead_byte b = ([], Some {| code_point := b - 240; bytes_needed := 3;
                             lower_boundary := if b =? 240 then 144 else 128;
                             upper_boundary := if b =? 244 then 143 else 191 |}).
Proof.
  intros H. unfold lead_byte.
  replace (b <=? 127) with false by lia.
  replace ((194 <=? b) && (b <=? 223)) with false by lia.
  replace ((224 <=? b) && (b <=? 239)) with false by lia.
  now replace ((240 <=? b) && (b <=? 244)) with true by lia.
Qed.

Lemma continue_last (cp lo hi b : N) (rest : list N) :
  lo <= b <= hi ->
  utf8_code_points
    (Some {| code_point := cp; bytes_needed := 1;
             lower_boundary := lo; upper_boundary := hi |}) (b :: rest)
  = (cp * 64 + (b - 128)) :: utf8_code_points None rest.
Proof.
  intros H. cbn [utf8_code_points lower_boundary upper_boundary code_point bytes_needed].
  now replace ((lo <=? b) && (b <=? hi)) with true by lia.
Qed.

Lemma continue_more (cp k lo hi b : N) (rest : list N) :
  lo <= b <= hi -> 1 < k ->
  utf8_code_points
    (Some {| code_point := cp; bytes_needed := k;
             lower_boundary := lo; upper_boundary := hi |}) (b :: rest)
  = utf8_code_points
      (Some {| code_point := cp * 64 + (b - 128); bytes_needed := k - 1;
               lower_boundary := 128; upper_boundary := 191 |}) rest.
Proof.
  intros H Hk. cbn [utf8_code_points lower_boundary upper_boundary code_point bytes_needed].
  replace ((lo <=? b) && (b <=? hi)) with true by lia.
  now replace (k =? 1) with false by lia.
Qed.

Lemma start_with (b : N) (rest : list N) :
  utf8_code_points None (b :: rest)
  = fst (lead_byte b) ++ utf8_code_points (snd (lead_byte b)) rest.
Proof. cbn [utf8_code_points]. now destruct (lead_byte b). Qed.

(** The decoder reads back the bytes of one scalar value. *)
Lemma decode_one (cp : N) (rest : list N) :
  scalar cp ->
  utf8_code_points None (utf8_bytes cp ++ rest) = cp :: utf8_code_points None rest.
Proof.
  intros [Hmax Hsur]. unfold utf8_bytes.
  destruct (cp <? 128) eqn:E1; [|destruct (cp <? 2048) eqn:E2;
                                 [|destruct (cp <? 65536) eqn:E3]];
    cbn [app]; rewrite start_with.
  - rewrite lead_byte_1 by lia. reflexivity.
  - rewrite lead_byte_2 by lia. cbn [fst snd app].
    rewrite continue_last by lia. f_equal. lia.
  - rewrite lead_byte_3 by lia. cbn [fst snd app].
    rewrite continue_more; [|destruct (_ =? 224) eqn:?, (_ =? 237) eqn:?; lia|lia].
    change (2 - 1) with 1.
    rewrite continue_last by lia. f_equal. lia.
  - rewrite lead_byte_4 by lia. cbn [fst snd app].
    rewrite continue_more; [|destruct (_ =? 240) eqn:?, (_ =? 244) eqn:?; lia|lia].
    change (3 - 1) with 2.
    rewrite continue_more by lia. change (2 - 1) with 1.
    rewrite continue_last by lia. f_equal. lia.
Qed.

Lemma decode_all (cps : list N) :
  Forall scalar cps -> utf8_code_points None (flat_map utf8_bytes cps) = cps.
Proof.
  induction 1 as [|cp cps Hcp _ IH]; [reflexivity|].
  cbn [flat_map]. now rewrite decode_one, IH.
Qed.

Lemma utf8_bytes_small (cp : N) :
  cp < 1114112 -> Forall (fun b => b < 256) (utf8_bytes cp).
Proof.
  intros H. unfold utf8_bytes.
  destruct (cp <? 128) eqn:E1; [|destruct (cp <? 2048) eqn:E2;
                                 [|destruct (cp <? 65536) eqn:E3]];
    repeat constructor; lia.
Qed.

Lemma bytes_back (l : list N) :
  Forall (fun b => b < 256) l -> map Byte.to_N (map to_uint8 l) = l.
Proof.
  induction 1 as [|b l Hb _ IH]; [reflexivity|].
  cbn [map]. rewrite to_N_to_uint8, IH. f_equal. lia.
Qed.

Lemma scalar_values_scalar (s : jsstring) :
  well_formed s = true -> Forall scalar (scalar_values s).
Proof.
  remember (List.length s) as n eqn:Hn.
  assert (Hle : (List.length s <= n)%nat) by lia. clear Hn.
  revert s Hle. induction n as [|n IH]; intros [|c rest] Hle Hwf;
    cbn [List.length] in Hle; try lia; try constructor.
  cbn [well_formed scalar_values] in *.
  destruct (is_high_surrogate c) eqn:Eh.
  - destruct rest as [|d rest']; [discriminate|].
    apply andb_prop in Hwf as [Hd Hwf]. rewrite Hd.
    unfold is_high_surrogate, is_low_surrogate in *.
    constructor; [unfold scalar; lia|].
    apply IH; [cbn [List.length] in Hle; lia | assumption].
  - apply andb_prop in Hwf as [Hc Hwf]. apply andb_prop in Hc as [Hl Hc].
    destruct (is_low_surrogate c) eqn:El; [discriminate|].
    unfold is_high_surrogate, is_low_surrogate in *.
    constructor; [unfold scalar; lia|].
    apply IH; [lia | assumption].
Qed.

Lemma utf16_back (s : jsstring) :
  well_formed s = true -> flat_map utf16_units (scalar_values s) = s.
Proof.
  remember (List.length s) as n eqn:Hn.
  assert (Hle : (List.length s <= n)%nat) by lia. clear Hn.
  revert s Hle. induction n as [|n IH]; intros [|c rest] Hle Hwf;
    cbn [List.length] in Hle; try lia; try reflexivity;
    cbn [well_formed scalar_values] in *.
  destruct (is_high_surrogate c) eqn:Eh.
  - destruct rest as [|d rest']; [discriminate|].
    apply andb_prop in Hwf as [Hd Hwf]. rewrite Hd.
    unfold is_high_surrogate, is_low_surrogate in *.
    cbn [flat_map]. rewrite IH by (cbn [List.length] in Hle; lia || assumption).
    unfold utf16_units.
    replace (_ <? 65536) with false by lia. cbn [app].
    f_equal; [lia|]. f_equal. lia.
  - apply andb_prop in Hwf as [Hc Hwf]. apply andb_prop in Hc as [Hl Hc].
    destruct (is_low_surrogate c) eqn:El; [discriminate|].
    cbn [flat_map]. rewrite IH by (lia || assumption).
    unfold utf16_units. now rewrite Hc.
Qed.

Lemma strip_bom_other (cp : N) (rest : list N) :
  cp <> 65279 -> strip_bom (utf8_bytes cp ++ rest) = utf8_bytes cp ++ rest.
Proof.
  intros H. unfold utf8_bytes.
  destruct (cp <? 128) eqn:E1; [|destruct (cp <? 2048) eqn:E2;
                                 [|destruct (cp <? 65536) eqn:E3]];
    cbn [app]; unfold strip_bom.
  - destruct (N.eq_dec cp 239) as [->|Hne]; [discriminate|].
    destruct cp as [|p]; [reflexivity|].
    do 8 (destruct p as [p|p|]; try reflexivity; try lia).
  - set (b := 192 + cp / 64).
    assert (Hb : b <> 239) by (subst b; lia).
    destruct b as [|p]; [reflexivity|].
    do 8 (destruct p as [p|p|]; try reflexivity; try lia).
  - set (b1 := 224 + cp / 4096). set (b2 := 128 + (cp / 64) mod 64).
    set (b3 := 128 + cp mod 64).
    assert (Hb : ~ (b1 = 239 /\ b2 = 187 /\ b3 = 191)) by (subst b1 b2 b3; lia).
    destruct (N.eq_dec b1 239) as [->|H1].
    + destruct (N.eq_dec b2 187) as [->|H2].
      * destruct (N.eq_dec b3 191) as [->|H3]; [tauto|].
        destruct b3 as [|p]; [reflexivity|].
        do 8 (destruct p as [p|p|]; try reflexivity; try lia).
      * destruct b2 as [|p]; [reflexivity|].
        do 8 (destruct p as [p|p|]; try reflexivity; try lia).
    + destruct b1 as [|p]; [reflexivity|].
      do 8 (destruct p as [p|p|]; try reflexivity; try lia).
  - set (b := 240 + cp / 262144).
    assert (Hb : b <> 239) by (subst b; lia).
    destruct b as [|p]; [reflexivity|].
    do 8 (destruct p as [p|p|]; try reflexivity; try lia).
Qed.

(** Text with no lone surrogate that does not open with U+FEFF comes
    back from [utf8_decode] as it went into [utf8_encode]. *)
Theorem utf8_roundtrip (s : jsstring) :
  well_formed s = true -> starts_with_bom s = false ->
  utf8_decode (utf8_encode s) = s.
Proof.
  intros Hwf Hbom. unfold utf8_decode, utf8_encode.
  pose proof (scalar_values_scalar s Hwf) as Hsc.
  rewrite bytes_back.
  2:{ apply Forall_flat_map. eapply Forall_impl; [|exact Hsc].
      intros cp [H _]. now apply utf8_bytes_small. }
  assert (Hstrip : strip_bom (flat_map utf8_bytes (scalar_values s))
                   = flat_map utf8_bytes (scalar_values s)).
  { destruct s as [|c rest]; [reflexivity|].
    cbn [starts_with_bom] in Hbom. cbn [scalar_values].
    destruct (is_high_surrogate c) eqn:Eh.
    - unfold is_high_surrogate in Eh. cbn [well_formed] in Hwf.
      replace (is_high_surrogate c) with true in Hwf
        by (unfold is_high_surrogate; lia).
      destruct rest as [|d rest']; [discriminate|].
      apply andb_prop in Hwf as [Hd _]. rewrite Hd. cbn [flat_map].
      unfold is_low_surrogate in Hd. apply strip_bom_other. lia.
    - cbn [well_formed] in Hwf. rewrite Eh in Hwf.
      destruct (is_low_surrogate c); [discriminate|].
      cbn [flat_map]. apply strip_bom_other. lia. }
  now rewrite Hstrip, decode_all, utf16_back.
Qed.

(** A leading U+FEFF is dropped, and a lone surrogate is replaced. *)
Example bom_is_dropped : utf8_decode (utf8_encode [65279; 104]) = [104].
Proof. reflexivity. Qed.

Example lone_surrogate_is_replaced :
  utf8_decode (utf8_encode [104; 55357]) = [104; 65533].
Proof. reflexivity. Qed.

(** On the reference platform every such text, encrypted under a usable
    passphrase, decrypts to itself. *)
Corollary reference_text_roundtrip (s passphrase : jsstring)
    (options : EncryptionOptions) (r : N) :
  well_formed s = true -> starts_with_bom s = false ->
  forallb is_js_whitespace passphrase = false ->
  (0 < resolve_iterations options < 2 ^ 32)%Z ->
  exists payload,
    encrypt (P := platform) (Text s) passphrase options r = Ok payload /\
    decrypt (P := platform) payload passphrase = Ok s.
Proof.
  intros Hwf Hbom Hb Hit. rewrite <- passphrase_blank_spec in Hb.
  destruct (encrypt_total_ok (P := platform) (Text s) passphrase options r
              eq_refl Hb Hit) as [payload He].
  exists payload. split; [exact He|].
  apply encrypt_inv in He.
  rewrite (decrypt_encrypted He). cbn [plaintext_bytes].
  f_equal. now apply utf8_roundtrip.
Qed.

End ReferenceUTF8.

(* ================================================================= *)
(** ** Keys: [exportKey], [importKey], [decryptWithKey] *)

Module KeyFacts.

Import Base64Facts CryptoFacts ReferenceFacts.

Section WithPlatform.
Context {P : Platform} {K : KeyPlatform P}.

(** X1.  The text [exportKey] returns for a key is read back by
    [importKey] as that key: whenever the platform exports the key as a
    JSON Web Key, [exportKey] returns a text and [importKey] of that text
    returns the key. *)
Theorem key_file_roundtrip {L : KeyLaws K} (key : CryptoKey) (jwk : value) :
  subtle_exportKey key = Ok jwk ->
  exists text, exportKey key = Ok text /\ importKey text = Ok key.
Proof.
  intros He. unfold exportKey, importKey. rewrite He. cbn [bind].
  pose proof (jwk_latin1 _ He) as Hl. unfold latin1 in Hl.
  destruct (btoa (JSON_stringify jwk)) as [text|] eqn:Hb.
  - exists text. split; [reflexivity|].
    rewrite (atob_btoa _ Hb). cbn [lift_atob bind].
    rewrite (jwk_parse _ He). cbn [lift_json bind].
    now rewrite (import_export _ He).
  - unfold btoa in Hb. rewrite Hl in Hb. discriminate.
Qed.

(** X2.  [importKey] has one way to fail: it returns a key exactly when
    the text is Base64 of a JSON text that the platform imports as a
    key, and whatever it throws is the error "Invalid key format". *)
Theorem importKey_invalid_key_format (text : jsstring) :
  (forall key,
     importKey text = Ok key <->
     exists decoded jwk,
       atob text = Some decoded /\ JSON_parse decoded = Some jwk /\
       subtle_importKey jwk = Ok key) /\
  (forall e, importKey text = Throw e -> e = Error (js "Invalid key format")).
Proof.
  unfold importKey. split.
  - intros key. split.
    + destruct (atob text) as [decoded|]; cbn [lift_atob bind try_catch]; [|discriminate].
      destruct (JSON_parse decoded) as [jwk|] eqn:Hj; cbn [lift_json bind try_catch];
        [|discriminate].
      destruct (subtle_importKey jwk) as [k|] eqn:Hi; [|discriminate].
      cbn [bind try_catch]. intros [= <-]. exists decoded, jwk. auto.
    + intros (decoded & jwk & -> & H2 & H3). cbn [lift_atob bind].
      rewrite H2. cbn [lift_json bind]. now rewrite H3.
  - intros e.
    destruct (atob text) as [decoded|]; cbn [lift_atob bind try_catch];
      [|now intros [= <-]].
    destruct (JSON_parse decoded) as [jwk|]; cbn [lift_json bind try_catch];
      [|now intros [= <-]].
    destruct (subtle_importKey jwk) as [k|]; [discriminate|].
    now intros [= <-].
Qed.

(** What a successful [decrypt] did. *)
Lemma decrypt_inv (payload : EncryptionPayload) (passphrase text : jsstring) :
  decrypt payload passphrase = Ok text ->
  crypto_available = true /\ passphrase_blank passphrase = false /\
  exists salt_bytes iv_bytes c key bytes,
    base64ToArrayBuffer (salt payload) = Ok salt_bytes /\
    base64ToArrayBuffer (iv payload) = Ok iv_bytes /\
    base64ToArrayBuffer (ct payload) = Ok c /\
    deriveKey passphrase salt_bytes (iterations payload) = Ok key /\
    subtle_decrypt (alg payload) iv_bytes key c = Ok bytes /\
    text = TextDecoder_decode bytes.
Proof.
  unfold decrypt, isCryptoSupported.
  destruct crypto_available; cbn [negb]; [|discriminate].
  destruct (passphrase_blank passphrase); [discriminate|].
  destruct (base64ToArrayBuffer (salt payload)) as [salt_bytes|e1];
    cbn [bind try_catch];
    [|destruct (decrypt_catch_throws e1) as [e ->]; discriminate].
  destruct (base64ToArrayBuffer (iv payload)) as [iv_bytes|e2];
    cbn [bind try_catch];
    [|destruct (decrypt_catch_throws e2) as [e ->]; discriminate].
  destruct (base64ToArrayBuffer (ct payload)) as [c|e3];
    cbn [bind try_catch];
    [|destruct (decrypt_catch_throws e3) as [e ->]; discriminate].
  destruct (deriveKey passphrase salt_bytes (iterations payload)) as [key|e4] eqn:Hk;
    cbn [bind try_catch];
    [|destruct (decrypt_catch_throws e4) as [e ->]; discriminate].
  destruct (subtle_decrypt (alg payload) iv_bytes key c) as [bytes|e5] eqn:Hd;
    cbn [bind try_catch];
    [|destruct (decrypt_catch_throws e5) as [e ->]; discriminate].
  intros [= <-]. repeat split.
  exists salt_bytes, iv_bytes, c, key, bytes. auto 10.
Qed.

(** What a successful [decryptWithKey] did. *)
Lemma decryptWithKey_inv (payload : EncryptionPayload) (key : CryptoKey) (text : jsstring) :
  decryptWithKey payload key = Ok text ->
  crypto_available = true /\
  exists iv_bytes c bytes,
    base64ToArrayBuffer (iv payload) = Ok iv_bytes /\
    base64ToArrayBuffer (ct payload) = Ok c /\
    subtle_decrypt (alg payload) iv_bytes key c = Ok bytes /\
    text = TextDecoder_decode bytes.
Proof.
  unfold decryptWithKey, isCryptoSupported.
  destruct crypto_available; cbn [negb]; [|discriminate].
  destruct (base64ToArrayBuffer (iv payload)) as [iv_bytes|]; cbn [bind try_catch];
    [|discriminate].
  destruct (base64ToArrayBuffer (ct payload)) as [c|]; cbn [bind try_catch];
    [|discriminate].
  destruct (subtle_decrypt (alg payload) iv_bytes key c) as [bytes|] eqn:Hd;
    cbn [bind try_catch]; [|discriminate].
  intros [= <-]. split; [reflexivity|].
  exists iv_bytes, c, bytes. auto.
Qed.

(** X3.  [decryptWithKey] under the key that the passphrase, the salt
    and the iteration count of the envelope derive returns the text that
    [decrypt] returns under the passphrase. *)
Theorem decryptWithKey_agrees (payload : EncryptionPayload)
    (passphrase : jsstring) (salt_bytes : list byte) (key : CryptoKey)
    (text : jsstring) :
  base64ToArrayBuffer (salt payload) = Ok salt_bytes ->
  deriveKey passphrase salt_bytes (iterations payload) = Ok key ->
  decrypt payload passphrase = Ok text ->
  decryptWithKey payload key = Ok text.
Proof.
  intros Hs Hk Hd. apply decrypt_inv in Hd.
  destruct Hd as (Hc & _ & s' & iv_bytes & c & key' & bytes & H1 & H2 & H3 & H4 & H5 & ->).
  rewrite Hs in H1. injection H1 as <-. rewrite Hk in H4. injection H4 as <-.
  unfold decryptWithKey, isCryptoSupported. rewrite Hc. cbn [negb].
  rewrite H2, H3. cbn [bind]. rewrite H5. reflexivity.
Qed.

(** X4.  [decryptWithKey] returns a text only when the cipher released
    one, under the envelope's own algorithm name, IV and ciphertext; it
    reads neither salt, KDF nor iteration count; and in a browser with
    Web Crypto whatever it throws is the one error "Decryption with key
    failed. The key may not match this payload." *)
Theorem decryptWithKey_outcomes (payload : EncryptionPayload) (key : CryptoKey) :
  (forall text,
     decryptWithKey payload key = Ok text ->
     exists iv_bytes c bytes,
       base64ToArrayBuffer (iv payload) = Ok iv_bytes /\
       base64ToArrayBuffer (ct payload) = Ok c /\
       subtle_decrypt (alg payload) iv_bytes key c = Ok bytes /\
       text = TextDecoder_decode bytes) /\
  (forall other,
     alg other = alg payload -> iv other = iv payload -> ct other = ct payload ->
     decryptWithKey other key = decryptWithKey payload key) /\
  (forall e,
     crypto_available = true ->
     decryptWithKey payload key = Throw e ->
     e = Error (js "Decryption with key failed. The key may not match this payload.")).
Proof.
  split; [|split].
  - intros text H. now apply decryptWithKey_inv in H.
  - intros other Ha Hi Hc. unfold decryptWithKey. now rewrite Ha, Hi, Hc.
  - intros e Hs. unfold decryptWithKey, isCryptoSupported. rewrite Hs. cbn [negb].
    destruct (base64ToArrayBuffer (iv payload)) as [iv_bytes|]; cbn [bind try_catch];
      [|now intros [= <-]].
    destruct (base64ToArrayBuffer (ct payload)) as [c|]; cbn [bind try_catch];
      [|now intros [= <-]].
    destruct (subtle_decrypt (alg payload) iv_bytes key c) as [bytes|];
      cbn [bind try_catch]; [discriminate | now intros [= <-]].
Qed.

(** X5.  An envelope with one bit of its ciphertext or of its IV
    inverted is turned down by [decryptWithKey] under the envelope's own
    key, with its one error, whatever message text the engine gives. *)
Theorem decryptWithKey_tamper {T : TamperLaws P}
    (plaintext : plaintext_input) (passphrase : jsstring)
    (options : EncryptionOptions) (r : rng) (payload : EncryptionPayload)
    (salt_bytes : list byte) (key : CryptoKey) (i : nat) :
  encrypt plaintext passphrase options r = Ok payload ->
  base64ToArrayBuffer (salt payload) = Ok salt_bytes ->
  deriveKey passphrase salt_bytes (iterations payload) = Ok key ->
  (i < 8 * byte_length (ct payload) ->
   exists tampered,
     flip_ciphertext_bit i payload = Ok tampered /\
     decryptWithKey tampered key = Throw (Error
       (js "Decryption with key failed. The key may not match this payload."))) /\
  (i < 8 * byte_length (iv payload) ->
   exists tampered,
     flip_iv_bit i payload = Ok tampered /\
     decryptWithKey tampered key = Throw (Error
       (js "Decryption with key failed. The key may not match this payload."))).
Proof.
  intros He Hs Hk. apply encrypt_inv in He.
  destruct He as [Hc Hb Ha _ _ (s' & iv_bytes & key' & c & H1 & H2 & H3 & H4 & H5)].
  rewrite Hs in H1. injection H1 as <-. rewrite Hk in H4. injection H4 as <-.
  split.
  - unfold byte_length, flip_ciphertext_bit. rewrite H3. cbn [bind]. intros Hi.
    destruct (base64_roundtrip (flip_bit i c)) as (c64 & -> & Hc64). cbn [bind].
    eexists. split; [reflexivity|].
    unfold decryptWithKey, isCryptoSupported. rewrite Hc.
    cbn [negb iv ct alg]. rewrite H2, Hc64. cbn [bind]. rewrite Ha.
    now rewrite (tampered_ciphertext _ _ _ H5 Hi).
  - unfold byte_length, flip_iv_bit. rewrite H2. cbn [bind]. intros Hi.
    destruct (base64_roundtrip (flip_bit i iv_bytes)) as (i64 & -> & Hi64). cbn [bind].
    eexists. split; [reflexivity|].
    unfold decryptWithKey, isCryptoSupported. rewrite Hc.
    cbn [negb iv ct alg]. rewrite Hi64, H3. cbn [bind]. rewrite Ha.
    now rewrite (tampered_iv _ _ _ H5 Hi).
Qed.

End WithPlatform.

(** *** Runs on the reference platform *)

(** Every one-byte key: its JSON Web Key is read back from its text,
    and that text has no code unit above 0xFF. *)
Lemma reference_jwk_texts :
  Forall (fun key : N =>
            forall jwk, export_jwk Reference.gecko_messages key = Ok jwk ->
                        Reference.parse (Reference.stringify jwk) = Some jwk /\
                        latin1 (Reference.stringify jwk))
         (map N.of_nat (seq 0 256)).
Proof.
  let l := eval vm_compute in (map N.of_nat (seq 0 256)) in
  change (map N.of_nat (seq 0 256)) with l.
  repeat (apply Forall_cons;
          [intros jwk H; vm_compute in H; injection H as <-;
           split; vm_compute; reflexivity|]).
  apply Forall_nil.
Qed.

Lemma export_jwk_byte (key : N) (jwk : value) :
  export_jwk Reference.gecko_messages key = Ok jwk ->
  In key (map N.of_nat (seq 0 256)).
Proof.
  unfold export_jwk, btoa. cbn [forallb].
  destruct (key <? 256)%N eqn:E; cbn [andb]; [|discriminate]. intros _.
  apply in_map_iff. exists (N.to_nat key). split; [lia|].
  apply in_seq. lia.
Qed.

#[export] Instance reference_key_laws : KeyLaws reference_keys.
Proof.
  constructor; intros key jwk He;
    change (export_jwk Reference.gecko_messages key = Ok jwk) in He.
  - change (import_jwk Reference.gecko_messages jwk = Ok key).
    revert He. unfold export_jwk.
    destruct (btoa [(key : N)]) as [k|] eqn:Hb; [|discriminate].
    intros [= <-]. unfold import_jwk.
    change (field (jwk_of k) (js "kty")) with (VStr (js "oct")).
    change (field (jwk_of k) (js "k")) with (VStr k).
    change (str_eqb (js "oct") (js "oct")) with true. cbv iota.
    now rewrite (atob_btoa _ Hb).
  - pose proof reference_jwk_texts as H. rewrite Forall_forall in H.
    apply (H key (export_jwk_byte _ He) jwk He).
  - pose proof reference_jwk_texts as H. rewrite Forall_forall in H.
    apply (H key (export_jwk_byte _ He) jwk He).
Qed.

Lemma key_file_roundtrip_witness :
  exists text,
    exportKey (K := reference_keys) sealed_key = Ok text /\
    importKey (K := reference_keys) text = Ok sealed_key.
Proof.
  apply (key_file_roundtrip (K := reference_keys) sealed_key
           (jwk := jwk_of (js "Pw=="))).
  reflexivity.
Defined.

Lemma decryptWithKey_agrees_witness :
  decryptWithKey (P := Reference.platform) sealed_hello sealed_key
  = Ok (js "hello world").
Proof.
  apply (@decryptWithKey_agrees Reference.platform sealed_hello staple sealed_salt).
  - vm_compute. reflexivity.
  - vm_compute. reflexivity.
  - vm_compute. reflexivity.
Defined.

Lemma decryptWithKey_tamper_witness :
  exists payload tampered,
    encrypt (P := Reference.platform) hello staple no_options 0%N = Ok payload /\
    flip_ciphertext_bit (P := Reference.platform) 3 payload = Ok tampered /\
    decryptWithKey (P := Reference.platform) tampered sealed_key
      = Throw (Error
          (js "Decryption with key failed. The key may not match this payload.")).
Proof.
  destruct (encrypt (P := Reference.platform) hello staple no_options 0%N)
    as [payload|e] eqn:He; [|vm_compute in He; discriminate He].
  assert (Hs : base64ToArrayBuffer (P := Reference.platform) (salt payload)
               = Ok sealed_salt).
  { vm_compute in He. injection He as <-. vm_compute. reflexivity. }
  assert (Hk : deriveKey (P := Reference.platform) staple sealed_salt
                 (iterations payload)
               = Ok (sealed_key : @CryptoKey Reference.platform)).
  { vm_compute in He. injection He as <-. vm_compute. reflexivity. }
  destruct (decryptWithKey_tamper (P := Reference.platform) _ _ _ _ 3 He Hs Hk)
    as (Hct & _).
  assert (Hi : (3 < 8 * byte_length (P := Reference.platform) (ct payload))%nat).
  { vm_compute in He. injection He as <-. vm_compute. lia. }
  destruct (Hct Hi) as (tampered & Ht & Hd).
  exists payload, tampered. split; [reflexivity|]. split; [exact Ht | exact Hd].
Defined.

End KeyFacts.
(* ================================================================= *)
(** ** [generatePassphrase] *)

Module PassphraseFacts.

Import CryptoFacts ReferenceFacts StrengthClaims.

(** Every word of the list is four to six lowercase letters. *)
Lemma words_shape :
  Forall (fun w => (4 <= List.length w <= 6)%nat /\ forallb is_lower w = true) words.
Proof. repeat (apply Forall_cons; [split; [cbn; lia | reflexivity]|]). apply Forall_nil. Qed.

Lemma word_shape (w : jsstring) :
  In w words -> (4 <= List.length w <= 6)%nat /\ forallb is_lower w = true.
Proof. pose proof words_shape as H. rewrite Forall_forall in H. apply H. Qed.

(** The word at an index reduced modulo the length of the list. *)
Lemma picked_word (v : N) :
  In (nth (N.to_nat (v mod N.of_nat (List.length words))) words []) words.
Proof.
  apply nth_In.
  assert (v mod N.of_nat (List.length words) < N.of_nat (List.length words))%N
    by (apply N.mod_lt; cbn; lia).
  lia.
Qed.

(** The characters of words joined by hyphens. *)
Lemma joined_chars (selected : list jsstring) :
  Forall (fun w => In w words) selected ->
  Forall (fun c => is_lower c = true \/ c = 45%N) (join (js "-") selected).
Proof.
  induction selected as [|w rest IH]; intros H; [constructor|].
  inversion H as [|? ? Hw Hrest]; subst.
  assert (Hl : Forall (fun c => is_lower c = true \/ c = 45%N) w).
  { apply Forall_forall. intros c Hc. left.
    destruct (word_shape Hw) as [_ Hall]. rewrite forallb_forall in Hall. auto. }
  destruct rest as [|w' rest']; [exact Hl|].
  change (join (js "-") (w :: w' :: rest'))
    with (w ++ 45%N :: join (js "-") (w' :: rest')).
  apply Forall_app. split; [exact Hl|].
  constructor; [now right | auto].
Qed.

Lemma joined_length (selected : list jsstring) :
  Forall (fun w => In w words) selected ->
  (5 * List.length selected <= List.length (join (js "-") selected) + 1
   <= 7 * List.length selected + 1)%nat.
Proof.
  induction selected as [|w rest IH]; intros H; [cbn; lia|].
  inversion H as [|? ? Hw Hrest]; subst.
  destruct (word_shape Hw) as [Hlen _].
  destruct rest as [|w' rest']; [cbn [join List.length]; lia|].
  change (join (js "-") (w :: w' :: rest'))
    with (w ++ 45%N :: join (js "-") (w' :: rest')).
  rewrite length_app. specialize (IH Hrest).
  cbn [List.length] in *. lia.
Qed.

Lemma joined_head (w : jsstring) (rest : list jsstring) :
  In w words ->
  exists c tail, join (js "-") (w :: rest) = c :: tail /\ is_lower c = true.
Proof.
  intros Hw. destruct (word_shape Hw) as [Hlen Hall].
  destruct w as [|c w']; [cbn in Hlen; lia|].
  cbn [forallb] in Hall. apply andb_prop in Hall as [Hc _].
  destruct rest as [|w2 rest']; [exists c, w'; auto|].
  exists c, (w' ++ 45%N :: join (js "-") (w2 :: rest')). auto.
Qed.

Lemma joined_hyphen (w w' : jsstring) (rest : list jsstring) :
  In 45%N (join (js "-") (w :: w' :: rest)).
Proof.
  change (join (js "-") (w :: w' :: rest))
    with (w ++ 45%N :: join (js "-") (w' :: rest)).
  apply in_or_app. right. now left.
Qed.

Section WithPlatform.
Context {P : Platform}.

(** What [generatePassphrase] returns. *)
Lemma generatePassphrase_inv (n : nat) (r r' : rng) (s : jsstring) :
  generatePassphrase n r = Ok (s, r') ->
  exists selected,
    List.length selected = n /\
    Forall (fun w => In w words) selected /\
    s = join (js "-") selected.
Proof.
  unfold generatePassphrase, getRandomUint32.
  destruct (65536 <? 4 * N.of_nat n)%N; [discriminate|].
  destruct (getRandomValues (4 * n) r) as [bytes r1]. cbn [bind].
  intros [= <- <-]. eexists. split; [|split; [|reflexivity]].
  - now rewrite length_map, length_seq.
  - apply Forall_forall. intros w Hw. apply in_map_iff in Hw as (i & <- & _).
    apply picked_word.
Qed.

(** X6.  For a word count up to 16384 [generatePassphrase] returns, and
    what it returns is that many words of its list joined by hyphens. *)
Theorem generatePassphrase_words (n : nat) (r : rng) :
  ((N.of_nat n <= 16384)%N -> exists s r', generatePassphrase n r = Ok (s, r')) /\
  (forall s r',
     generatePassphrase n r = Ok (s, r') ->
     exists selected,
       List.length selected = n /\
       Forall (fun w => In w words) selected /\
       s = join (js "-") selected).
Proof.
  split.
  - intros Hn. unfold generatePassphrase, getRandomUint32.
    destruct (65536 <? 4 * N.of_nat n)%N eqn:E; [lia|].
    destruct (getRandomValues (4 * n) r) as [bytes r1]. cbn [bind]. eauto.
  - intros s r'. apply generatePassphrase_inv.
Qed.

(** X7.  A generated passphrase of at least one word is never blank:
    [encrypt] takes it, and [decrypt] under it gives the plaintext back.
    With no word at all the passphrase is the empty string. *)
Theorem generated_passphrase_usable {L : CipherLaws P}
    (n : nat) (r r' r2 : rng) (s : jsstring) (plaintext : plaintext_input) :
  crypto_available = true ->
  generatePassphrase n r = Ok (s, r') ->
  (n = 0%nat -> s = []) /\
  ((1 <= n)%nat ->
   forallb is_js_whitespace s = false /\
   exists payload,
     encrypt plaintext s no_options r2 = Ok payload /\
     decrypt payload s = Ok (TextDecoder_decode (plaintext_bytes plaintext))).
Proof.
  intros Hs Hg. apply generatePassphrase_inv in Hg as (selected & Hlen & Hall & ->).
  split.
  - intros ->. now destruct selected.
  - intros Hn. destruct selected as [|w rest]; [cbn in Hlen; lia|].
    inversion Hall as [|? ? Hw _]; subst.
    destruct (joined_head rest Hw) as (c & tail & Hj & Hc).
    assert (Hb : forallb is_js_whitespace (join (js "-") (w :: rest)) = false).
    { rewrite Hj. cbn [forallb].
      replace (is_js_whitespace c) with false; [reflexivity|].
      unfold is_lower in Hc. unfold is_js_whitespace. lia. }
    split; [exact Hb|].
    rewrite <- passphrase_blank_spec in Hb.
    destruct (encrypt_total_ok plaintext (join (js "-") (w :: rest)) no_options r2 Hs Hb)
      as [payload He]; [cbn; lia|].
    exists payload. split; [exact He|].
    apply encrypt_inv in He. now apply decrypt_encrypted with (options := no_options).
Qed.

(** X8.  [calculatePasswordStrength] gives every generated passphrase of
    four words the score 3 or 4, and every one of five words or more the
    score 4. *)
Theorem generated_passphrase_strength (n : nat) (r r' : rng) (s : jsstring) :
  generatePassphrase n r = Ok (s, r') ->
  ((4 <= n)%nat -> (3 <= score (calculatePasswordStrength s))%Z) /\
  ((5 <= n)%nat ->
   score (calculatePasswordStrength s) = 4%Z /\
   feedback (calculatePasswordStrength s) = js "Very strong - excellent").
Proof.
  intros Hg. apply generatePassphrase_inv in Hg as (selected & Hlen & Hall & ->).
  assert (Hcs : (2 <= n)%nat -> charSetSize (join (js "-") selected) = 58%Z).
  { intros Hn. destruct selected as [|w [|w' rest]]; try (cbn in Hlen; lia).
    inversion Hall as [|? ? Hw _]; subst.
    destruct (joined_head (w' :: rest) Hw) as (c & tail & Hj & Hc).
    pose proof (joined_hyphen w w' rest) as Hh.
    pose proof (joined_chars Hall) as Hch. rewrite Forall_forall in Hch.
    set (p := join (js "-") (w :: w' :: rest)) in *.
    unfold charSetSize, test.
    assert (H1 : existsb is_lower p = true).
    { rewrite Hj. cbn [existsb]. now rewrite Hc. }
    assert (H2 : existsb is_upper p = false).
    { apply not_true_is_false. intros H. apply existsb_exists in H as (x & Hx & Hu).
      destruct (Hch x Hx) as [Hl | ->]; unfold is_upper, is_lower in *; lia. }
    assert (H3 : existsb is_digit p = false).
    { apply not_true_is_false. intros H. apply existsb_exists in H as (x & Hx & Hu).
      destruct (Hch x Hx) as [Hl | ->]; unfold is_digit, is_lower in *; lia. }
    assert (H4 : existsb is_symbol p = true).
    { apply existsb_exists. exists 45%N. split; [exact Hh | reflexivity]. }
    now rewrite H1, H2, H3, H4. }
  pose proof (joined_length Hall) as Hjl. rewrite Hlen in Hjl.
  set (p := join (js "-") selected) in *.
  assert (Hsc : forall k : Z, (2 <= n)%nat -> (k <= Z.of_nat (List.length p))%Z ->
                (0 <= k)%Z -> (58 ^ k <= Z.max 1 (charSetSize p) ^ Z.of_nat (List.length p))%Z).
  { intros k Hn Hk H0. rewrite (Hcs Hn). change (Z.max 1 58) with 58%Z.
    apply Z.pow_le_mono_r; lia. }
  split.
  - intros Hn. rewrite score_unfold.
    destruct p as [|c t] eqn:Ep; [cbn in Hjl; lia|]. rewrite <- Ep in *. cbv zeta.
    pose proof (Hsc 19%Z ltac:(lia) ltac:(lia) ltac:(lia)) as Hx.
    set (x := (Z.max 1 (charSetSize p) ^ Z.of_nat (List.length p))%Z) in *.
    assert (H19 : (2 ^ 60 <= 58 ^ 19)%Z) by (vm_compute; discriminate).
    assert (H1 : (2 ^ 28 < 2 ^ 36)%Z) by reflexivity.
    assert (H2 : (2 ^ 36 < 2 ^ 60)%Z) by reflexivity.
    destruct (x <? 2 ^ 28)%Z eqn:?; [lia|]. destruct (x <? 2 ^ 36)%Z eqn:?; [lia|].
    destruct (x <? 2 ^ 60)%Z eqn:?; [lia|]. destruct (x <? 2 ^ 128)%Z; lia.
  - intros Hn.
    assert (Hne : p <> []) by (intros E; rewrite E in Hjl; cbn in Hjl; lia).
    rewrite (strength_unfold Hne). cbn [score feedback]. unfold entropy_ltb.
    cbn [chars charset].
    pose proof (Hsc 24%Z ltac:(lia) ltac:(lia) ltac:(lia)) as Hx.
    set (x := (Z.max 1 (charSetSize p) ^ Z.of_nat (List.length p))%Z) in *.
    assert (H24 : (2 ^ 128 <= 58 ^ 24)%Z) by (vm_compute; discriminate).
    assert (H1 : (2 ^ 28 < 2 ^ 36)%Z) by reflexivity.
    assert (H2 : (2 ^ 36 < 2 ^ 60)%Z) by reflexivity.
    assert (H3 : (2 ^ 60 < 2 ^ 128)%Z) by reflexivity.
    destruct (x <? 2 ^ 28)%Z eqn:?; [lia|]. destruct (x <? 2 ^ 36)%Z eqn:?; [lia|].
    destruct (x <? 2 ^ 60)%Z eqn:?; [lia|]. destruct (x <? 2 ^ 128)%Z eqn:?; [lia|].
    split; reflexivity.
Qed.

End WithPlatform.

(** *** Runs on the reference platform *)

Lemma generated_passphrase_usable_witness :
  generatePassphrase (P := Reference.platform) 4 7%N
    = Ok (js "waves-echo-knight-knight", 23%N) /\
  exists payload,
    encrypt (P := Reference.platform) hello (js "waves-echo-knight-knight")
      no_options 0%N = Ok payload /\
    decrypt (P := Reference.platform) payload (js "waves-echo-knight-knight")
      = Ok (js "hello world").
Proof.
  assert (Hg : generatePassphrase (P := Reference.platform) 4 7%N
               = Ok (js "waves-echo-knight-knight", 23%N))
    by (vm_compute; reflexivity).
  split; [exact Hg|].
  destruct (@generated_passphrase_usable Reference.platform _ 4 7%N 23%N 0%N _
              hello eq_refl Hg) as [_ H].
  destruct (H ltac:(lia)) as (_ & payload & He & Hd).
  exists payload. split; [exact He|]. rewrite Hd. vm_compute. reflexivity.
Defined.

Lemma generated_passphrase_strength_witness :
  generatePassphrase (P := Reference.platform) 6 1%N
    = Ok (js "gamma-ember-unity-quest-anchor-coral", 25%N) /\
  score (calculatePasswordStrength (js "gamma-ember-unity-quest-anchor-coral")) = 4%Z.
Proof.
  assert (Hg : generatePassphrase (P := Reference.platform) 6 1%N
               = Ok (js "gamma-ember-unity-quest-anchor-coral", 25%N))
    by (vm_compute; reflexivity).
  split; [exact Hg|].
  destruct (@generated_passphrase_strength Reference.platform 6 1%N 25%N _ Hg)
    as [_ H].
  apply H. lia.
Defined.

End PassphraseFacts.
(* ================================================================= *)
(** ** The history store: removal and look-up *)

Module HistoryFacts.

Import CodecClaims HistoryClaims.

Local Open Scope Z_scope.

Lemma in_insert x l y : y = x \/ In y l -> In y (insert_newest_first x l).
Proof.
  induction l as [|z l IH]; cbn [insert_newest_first].
  - intros [->|[]]. now left.
  - destruct (timestamp x <? timestamp z).
    + intros [->|[->|H]]; [right; apply IH; now left | now left | right; apply IH; now right].
    + intros [->|H]; [now left | now right].
Qed.

Lemma sort_in l y : In y (sort_newest_first l) <-> In y l.
Proof.
  induction l as [|x l IH]; cbn [sort_newest_first]; [tauto|]. split.
  - intros H. apply insert_in in H as [->|H]; [now left | right; now apply IH].
  - intros [->|H]; apply in_insert; [now left | right; now apply IH].
Qed.

Lemma filter_sorted (f : HistoryItem -> bool) l :
  newest_first l -> newest_first (filter f l).
Proof.
  induction 1 as [|x l Hs IH Hall]; cbn [filter]; [constructor|].
  destruct (f x); [|exact IH].
  constructor; [exact IH|].
  rewrite Forall_forall in *. intros y Hy. apply filter_In in Hy as [Hy _]. auto.
Qed.

Lemma keeps_spec target item : keeps target item = true <-> id item <> target.
Proof.
  unfold keeps. rewrite negb_true_iff. split.
  - intros H E. apply str_eqb_eq in E. congruence.
  - intros H. apply not_true_is_false. intros E. now apply str_eqb_eq in E.
Qed.

Lemma filter_insert_dropped f x l :
  f x = false ->
  filter f (insert_newest_first x l) = filter f l.
Proof.
  intros Hx. induction l as [|y l IH]; cbn [insert_newest_first filter].
  - now rewrite Hx.
  - destruct (timestamp x <? timestamp y); cbn [filter].
    + now rewrite IH.
    + now rewrite Hx.
Qed.

Lemma filter_all (A : Type) (f : A -> bool) l :
  Forall (fun x => f x = true) l -> filter f l = l.
Proof.
  induction 1 as [|x l Hx _ IH]; cbn [filter]; [reflexivity|].
  now rewrite Hx, IH.
Qed.

Lemma find_none_forall (A : Type) (f : A -> bool) l :
  find f l = None <-> Forall (fun x => f x = false) l.
Proof.
  induction l as [|x l IH]; cbn [find]; [split; auto|].
  destruct (f x) eqn:E.
  - split; [discriminate|]. intros H. inversion H; congruence.
  - rewrite IH. split; [now constructor | now inversion 1].
Qed.

(** What [removeFromHistory] leaves where the browser stores the list. *)
Lemma removeFromHistory_stored target ls :
  accepts ls (filter (keeps target) (getHistory (Some ls))) = true ->
  getHistory (removeFromHistory target (Some ls))
  = filter (keeps target) (getHistory (Some ls)).
Proof.
  intros Hacc. unfold removeFromHistory. fold (keeps target).
  pose proof (getHistory_sorted (Some ls)) as Hs.
  set (h := getHistory (Some ls)) in *. clearbody h.
  cbn [setItem]. rewrite Hacc.
  cbn [getHistory content]. now apply sort_of_sorted, filter_sorted.
Qed.

(** X9.  Where the browser stores the list, [removeFromHistory] leaves
    the items with another id, in the order they had, and no item with
    the id; [getHistoryItem] then finds none.  Where the list cannot be
    stored the history stays as it was. *)
Theorem removeFromHistory_listing (target : jsstring) (ls : localStorage) :
  let before := getHistory (Some ls) in
  let after := removeFromHistory target (Some ls) in
  (accepts ls (filter (fun item => negb (str_eqb (id item) target)) before) = true ->
   getHistory after = filter (fun item => negb (str_eqb (id item) target)) before /\
   Forall (fun item => id item <> target) (getHistory after) /\
   (forall item, In item before -> id item <> target -> In item (getHistory after)) /\
   getHistoryItem target after = None) /\
  (accepts ls (filter (fun item => negb (str_eqb (id item) target)) before) = false ->
   after = Some ls).
Proof.
  intros before after. fold (keeps target). split.
  - intros Hacc. pose proof (removeFromHistory_stored target ls Hacc) as H.
    fold before after in H. rewrite H. repeat split.
    + apply Forall_forall. intros item Hi. apply filter_In in Hi as [_ Hk].
      now apply keeps_spec.
    + intros item Hi Hne. apply filter_In. split; [exact Hi|]. now apply keeps_spec.
    + unfold getHistoryItem. fold after. rewrite H.
      apply find_none_forall, Forall_forall. intros item Hi.
      apply filter_In in Hi as [_ Hk]. unfold keeps in Hk.
      now apply negb_true_iff in Hk.
  - intros Hacc. subst after. unfold removeFromHistory. fold (keeps target).
    fold before. cbn [setItem]. now rewrite Hacc.
Qed.

(** X10.  [getHistoryItem] returns an item of the history with the id
    asked for, the newest one when several have it, and returns nothing
    exactly when no item has the id. *)
Theorem getHistoryItem_newest (target : jsstring) (w : window) :
  (forall item,
     getHistoryItem target w = Some item ->
     In item (getHistory w) /\ id item = target /\
     forall other, In other (getHistory w) -> id other = target ->
                   timestamp other <= timestamp item) /\
  (getHistoryItem target w = None <->
   Forall (fun item => id item <> target) (getHistory w)).
Proof.
  unfold getHistoryItem. pose proof (getHistory_sorted w) as Hs.
  set (h := getHistory w) in *. clearbody h. split.
  - induction Hs as [|x l Hs IH Hall]; cbn [find]; [discriminate|].
    intros item. destruct (str_eqb (id x) target) eqn:E.
    + intros [= <-]. apply str_eqb_eq in E. repeat split; [now left | exact E |].
      intros other [<-|Ho] _; [lia|]. rewrite Forall_forall in Hall. auto.
    + intros Hf. destruct (IH item Hf) as (Hi & Hid & Hnew).
      repeat split; [now right | exact Hid |].
      intros other [<-|Ho] Ho'; [|auto].
      apply str_eqb_eq in Ho'. congruence.
  - rewrite find_none_forall. split; intros H; apply Forall_forall; intros x Hx;
      rewrite Forall_forall in H; specialize (H x Hx).
    + intros E. apply str_eqb_eq in E. congruence.
    + apply not_true_is_false. intros E. now apply str_eqb_eq in E.
Qed.

Lemma firstn_in (A : Type) n (l : list A) x : In x (firstn n l) -> In x l.
Proof.
  revert l. induction n as [|n IH]; intros [|y l]; cbn [firstn In]; try tauto.
  intros [->|H]; [now left | right; auto].
Qed.

Lemma find_unique (A : Type) (f : A -> bool) l x :
  In x l -> f x = true -> (forall y, In y l -> f y = true -> y = x) ->
  find f l = Some x.
Proof.
  induction l as [|z l IH]; cbn [find]; intros Hin Hx Huniq; [destruct Hin|]. destruct (f z) eqn:E.
  - f_equal. apply Huniq; [now left | exact E].
  - destruct Hin as [->|Hin]; [congruence|].
    apply IH; auto. intros y Hy. apply Huniq. now right.
Qed.

(** The listing after a call that went through, by the listing before. *)
Lemma addToHistory_listing item uuid now w w' :
  addToHistory item uuid now w = Ok w' ->
  getHistory w'
  = insert_newest_first (new_item item uuid now)
      (firstn (MAX_ITEMS - 1) (getHistory w)).
Proof.
  intros H. rewrite (addToHistory_inv _ _ _ _ H). fold (new_item item uuid now).
  change (firstn MAX_ITEMS (new_item item uuid now :: getHistory w))
    with (new_item item uuid now :: firstn (MAX_ITEMS - 1) (getHistory w)).
  cbn [sort_newest_first]. f_equal.
  apply sort_of_sorted, firstn_sorted, getHistory_sorted.
Qed.

(** X11.  After an [addToHistory] call that went through with an id no
    listed item has, [getHistoryItem] of that id returns the item just
    added, with the name, payload and size passed in. *)
Theorem added_item_found (item : NewItem) (uuid : jsstring) (now : Z)
    (w w' : window) :
  addToHistory item uuid now w = Ok w' ->
  Forall (fun old => id old <> uuid) (getHistory w) ->
  getHistoryItem uuid w'
  = Some {| id := uuid; name := new_name item; timestamp := now;
            payload := new_payload item; size := new_size item |}.
Proof.
  intros Ha Hfresh. unfold getHistoryItem.
  rewrite (addToHistory_listing _ _ _ _ Ha). fold (new_item item uuid now).
  apply find_unique.
  - apply in_insert. now left.
  - apply str_eqb_eq. reflexivity.
  - intros y Hy Hid. apply insert_in in Hy as [->|Hy]; [reflexivity|].
    apply firstn_in in Hy. rewrite Forall_forall in Hfresh.
    apply str_eqb_eq in Hid. now destruct (Hfresh y Hy).
Qed.

(** X12.  Adding an item under a fresh id and then removing that id
    gives back the listing there was, cut to its 19 newest items: the
    whole listing where it held fewer than 20. *)
Theorem add_then_remove (item : NewItem) (uuid : jsstring) (now : Z)
    (w : window) (ls' : localStorage) :
  addToHistory item uuid now w = Ok (Some ls') ->
  Forall (fun old => id old <> uuid) (getHistory w) ->
  accepts ls' (firstn 19 (getHistory w)) = true ->
  getHistory (removeFromHistory uuid (Some ls')) = firstn 19 (getHistory w) /\
  ((List.length (getHistory w) < 20)%nat ->
   getHistory (removeFromHistory uuid (Some ls')) = getHistory w).
Proof.
  intros Ha Hfresh Hacc.
  assert (Hf : filter (keeps uuid) (getHistory (Some ls')) = firstn 19 (getHistory w)).
  { rewrite (addToHistory_listing _ _ _ _ Ha).
    rewrite filter_insert_dropped.
    - apply filter_all, Forall_forall. intros y Hy. apply firstn_in in Hy.
      rewrite Forall_forall in Hfresh. apply keeps_spec. auto.
    - unfold keeps, new_item. cbn [id].
      apply negb_false_iff, str_eqb_eq. reflexivity. }
  assert (Hr : getHistory (removeFromHistory uuid (Some ls')) = firstn 19 (getHistory w)).
  { rewrite removeFromHistory_stored; rewrite Hf; [reflexivity | exact Hacc]. }
  split; [exact Hr|].
  intros Hlen. rewrite Hr. apply firstn_all2. lia.
Qed.

(** X13.  [addToHistory] fails in one way, with "Could not save to
    history. Storage may be full.", and it fails exactly where there is
    no window or the browser turns the write down.  After a call that
    went through on a store that holds a list of items, of whatever
    length, or is absent or unreadable, the listing holds the new item,
    has at most 20 items and is ordered newest first; over an empty,
    absent or unreadable store it is the new item alone. *)
Theorem addToHistory_outcome (item : NewItem) (uuid : jsstring) (now : Z)
    (w : window) :
  let added := {| id := uuid; name := new_name item; timestamp := now;
                  payload := new_payload item; size := new_size item |} in
  (forall e, addToHistory item uuid now w = Throw e ->
             e = Error (js "Could not save to history. Storage may be full.")) /\
  ((exists w', addToHistory item uuid now w = Ok w') <->
   exists ls, w = Some ls /\
              accepts ls (firstn 20 (added :: getHistory w)) = true) /\
  (forall w', addToHistory item uuid now w = Ok w' ->
     In added (getHistory w') /\
     (List.length (getHistory w') <= 20)%nat /\
     newest_first (getHistory w') /\
     (getHistory w = [] -> getHistory w' = [added])).
Proof.
  intros added. split; [|split].
  - intros e. unfold addToHistory.
    destruct (setItem w _); cbn [try_catch]; [discriminate | now intros [= <-]].
  - unfold addToHistory. fold added. change MAX_ITEMS with 20%nat.
    destruct w as [ls|]; cbn [setItem].
    + destruct (accepts ls _) eqn:E; cbn [try_catch].
      * split; eauto.
      * split; [intros [w' H]; discriminate|].
        intros (ls0 & [= <-] & H). congruence.
    + cbn [try_catch]. split; [intros [w' H]; discriminate|].
      intros (ls0 & H & _). discriminate.
  - intros w' Ha. pose proof (addToHistory_listing _ _ _ _ Ha) as Hl.
    fold added in Hl. change (new_item item uuid now) with added in Hl.
    rewrite Hl. repeat split.
    + apply in_insert. now left.
    + rewrite insert_length, length_firstn. change MAX_ITEMS with 20%nat. lia.
    + apply insert_sorted, firstn_sorted, getHistory_sorted.
    + intros ->. reflexivity.
Qed.

(** *** Runs in a browser that stores every list *)

Lemma added_item_found_witness :
  exists w w',
    appends (map call (seq 1 3)) empty_browser = Ok w /\
    addToHistory blank_item (js "new") 4 w = Ok w' /\
    getHistoryItem (js "new") w'
    = Some {| id := js "new"; name := js "Untitled"; timestamp := 4;
              payload := sample; size := 11 |}.
Proof.
  destruct (appends (map call (seq 1 3)) empty_browser) as [w|e] eqn:Hw;
    [|vm_compute in Hw; discriminate Hw].
  vm_compute in Hw. injection Hw as <-.
  match goal with
  | |- exists w w', Ok ?w0 = Ok w /\ _ =>
      destruct (addToHistory blank_item (js "new") 4 w0) as [w'|e] eqn:Ha;
        [exists w0, w' | vm_compute in Ha; discriminate Ha]
  end.
  split; [reflexivity|]. split; [exact Ha|].
  apply (@added_item_found _ _ _ _ _ Ha).
  repeat (apply Forall_cons; [intros E; vm_compute in E; discriminate E|]).
  apply Forall_nil.
Defined.

Lemma add_then_remove_witness :
  exists w ls',
    appends (map call (seq 1 3)) empty_browser = Ok w /\
    addToHistory blank_item (js "new") 4 w = Ok (Some ls') /\
    getHistory (removeFromHistory (js "new") (Some ls')) = getHistory w /\
    map timestamp (getHistory w) = [3; 2; 1].
Proof.
  destruct (appends (map call (seq 1 3)) empty_browser) as [w|e] eqn:Hw;
    [|vm_compute in Hw; discriminate Hw].
  vm_compute in Hw. injection Hw as <-.
  match goal with
  | |- exists w ls', Ok ?w0 = Ok w /\ _ =>
      destruct (addToHistory blank_item (js "new") 4 w0) as [[ls'|]|e] eqn:Ha;
        [exists w0, ls' | vm_compute in Ha; discriminate Ha
         | vm_compute in Ha; discriminate Ha]
  end.
  split; [reflexivity|]. split; [exact Ha|]. split; [|reflexivity].
  apply (@add_then_remove _ _ _ _ _ Ha).
  - repeat (apply Forall_cons; [intros E; vm_compute in E; discriminate E|]).
    apply Forall_nil.
  - vm_compute in Ha. injection Ha as <-. reflexivity.
  - cbn. lia.
Defined.

End HistoryFacts.
(* ================================================================= *)
(** ** More on the strength estimate *)

Module StrengthFacts.

Import StrengthClaims.

Local Open Scope Z_scope.

(** The number the score is read from. *)
Lemma score_by_power (p q : jsstring) :
  p <> [] -> q <> [] ->
  Z.max 1 (charSetSize p) ^ Z.of_nat (List.length p)
  <= Z.max 1 (charSetSize q) ^ Z.of_nat (List.length q) ->
  score (calculatePasswordStrength p) <= score (calculatePasswordStrength q).
Proof.
  intros Hp Hq Hpow. rewrite !score_unfold.
  destruct p as [|c p']; [contradiction|]. destruct q as [|d q']; [contradiction|].
  cbv zeta.
  set (x := Z.max 1 (charSetSize (c :: p')) ^ Z.of_nat (List.length (c :: p'))) in *.
  set (y := Z.max 1 (charSetSize (d :: q')) ^ Z.of_nat (List.length (d :: q'))) in *.
  assert (H1 : 2 ^ 28 < 2 ^ 36) by reflexivity.
  assert (H2 : 2 ^ 36 < 2 ^ 60) by reflexivity.
  assert (H3 : 2 ^ 60 < 2 ^ 128) by reflexivity.
  generalize dependent (2 ^ 28). generalize dependent (2 ^ 36).
  generalize dependent (2 ^ 60). generalize dependent (2 ^ 128).
  intros t4 t3 H3 t2 H2 t1 H1.
  destruct (x <? t1) eqn:?, (x <? t2) eqn:?, (x <? t3) eqn:?, (x <? t4) eqn:?,
    (y <? t1) eqn:?, (y <? t2) eqn:?, (y <? t3) eqn:?, (y <? t4) eqn:?; lia.
Qed.

Lemma charSetSize_app_l (p q : jsstring) :
  charSetSize p <= charSetSize (p ++ q) /\ charSetSize q <= charSetSize (p ++ q).
Proof.
  unfold charSetSize, test. rewrite !existsb_app.
  destruct (existsb is_lower p), (existsb is_lower q),
    (existsb is_upper p), (existsb is_upper q),
    (existsb is_digit p), (existsb is_digit q),
    (existsb is_symbol p), (existsb is_symbol q); cbn [orb]; lia.
Qed.

(** Every character is in one of the four classes. *)
Lemma charSetSize_nonempty (p : jsstring) : p <> [] -> 10 <= charSetSize p.
Proof.
  destruct p as [|c s]; [contradiction|]. intros _.
  unfold charSetSize, test. cbn [existsb].
  unfold is_symbol at 1.
  destruct (is_lower c), (is_upper c), (is_digit c); cbn [orb negb];
    destruct (existsb is_lower s), (existsb is_upper s),
      (existsb is_digit s), (existsb is_symbol s); lia.
Qed.

(** X14.  A password with characters added, in front or behind, does
    not score lower. *)
Theorem strength_extension (p q : jsstring) :
  score (calculatePasswordStrength p) <= score (calculatePasswordStrength (p ++ q)) /\
  score (calculatePasswordStrength p) <= score (calculatePasswordStrength (q ++ p)).
Proof.
  assert (H : forall a b, (a = p ++ q \/ a = q ++ p) -> b = a ->
              score (calculatePasswordStrength p) <= score (calculatePasswordStrength b)).
  { intros a b Ha ->. destruct p as [|c p']; [apply score_range|].
    assert (Hne : a <> []) by (destruct Ha as [->| ->]; [discriminate | now destruct q]).
    apply score_by_power; [discriminate | exact Hne |].
    assert (Hc : charSetSize (c :: p') <= charSetSize a).
    { destruct Ha as [->| ->]; apply charSetSize_app_l. }
    assert (Hl : (List.length (c :: p') <= List.length a)%nat).
    { destruct Ha as [->| ->]; rewrite length_app; lia. }
    pose proof (charSetSize_cases (c :: p')).
    apply Z.pow_le_mono; lia. }
  split; [apply (H (p ++ q)) | apply (H (q ++ p))]; auto.
Qed.

(** X15.  Whatever its characters, a password of fewer than five
    characters scores 0 and one of 39 characters or more scores 4; and a
    password that is not empty is never reported as having 0 bits. *)
Theorem strength_by_length (password : jsstring) :
  ((List.length password < 5)%nat -> score (calculatePasswordStrength password) = 0) /\
  ((39 <= List.length password)%nat -> score (calculatePasswordStrength password) = 4) /\
  (password <> [] -> 3 <= entropy (calculatePasswordStrength password)).
Proof.
  split; [|split].
  - intros Hlen. rewrite score_unfold. destruct password as [|c s]; [reflexivity|].
    cbv zeta. set (p := c :: s) in *.
    pose proof (charSetSize_cases p) as Hc.
    assert (Hx : Z.max 1 (charSetSize p) ^ Z.of_nat (List.length p) <= 94 ^ 4).
    { apply Z.pow_le_mono; lia. }
    assert (H94 : 94 ^ 4 < 2 ^ 28) by reflexivity.
    destruct (_ <? 2 ^ 28) eqn:E; [reflexivity | lia].
  - intros Hlen. rewrite score_unfold. destruct password as [|c s]; [cbn in Hlen; lia|].
    cbv zeta. set (p := c :: s) in *.
    pose proof (@charSetSize_nonempty p ltac:(discriminate)) as Hc.
    assert (Hx : 10 ^ 39 <= Z.max 1 (charSetSize p) ^ Z.of_nat (List.length p)).
    { apply Z.pow_le_mono; lia. }
    assert (H10 : 2 ^ 128 <= 10 ^ 39) by (vm_compute; discriminate).
    assert (H1 : 2 ^ 28 < 2 ^ 36) by reflexivity.
    assert (H2 : 2 ^ 36 < 2 ^ 60) by reflexivity.
    assert (H3 : 2 ^ 60 < 2 ^ 128) by reflexivity.
    destruct (_ <? 2 ^ 28) eqn:?; [lia|]. destruct (_ <? 2 ^ 36) eqn:?; [lia|].
    destruct (_ <? 2 ^ 60) eqn:?; [lia|]. destruct (_ <? 2 ^ 128) eqn:?; [lia|].
    reflexivity.
  - intros Hne. rewrite (strength_unfold Hne). cbn [entropy]. unfold Math_round.
    cbn [chars charset].
    pose proof (charSetSize_nonempty Hne) as Hc.
    assert (Hlen : 1 <= Z.of_nat (List.length password))
      by (destruct password; [contradiction | cbn [List.length]; lia]).
    assert (Hx : 10 ^ 2 <= Z.max 1 (charSetSize password)
                            ^ (2 * Z.of_nat (List.length password))).
    { apply Z.pow_le_mono; lia. }
    assert (Hlog : 6 <= Z.log2 (Z.max 1 (charSetSize password)
                                  ^ (2 * Z.of_nat (List.length password)))).
    { change 6 with (Z.log2 (10 ^ 2)). now apply Z.log2_le_mono. }
    apply Z.div_le_lower_bound; lia.
Qed.

(** X16.  The estimate looks at nothing but the length of the password
    and at which of the four character classes occur in it: two
    passwords alike in both get the same score, entropy and feedback. *)
Theorem strength_by_classes (p q : jsstring) :
  List.length p = List.length q ->
  (forall cls, test (in_class cls) p = test (in_class cls) q) ->
  calculatePasswordStrength p = calculatePasswordStrength q.
Proof.
  intros Hlen Hcls.
  assert (Hsize : charSetSize p = charSetSize q).
  { unfold charSetSize.
    change is_lower with (in_class Lowercase).
    change is_upper with (in_class Uppercase).
    change is_digit with (in_class Digit).
    change is_symbol with (in_class Symbol).
    now rewrite !Hcls. }
  destruct p as [|c p'], q as [|d q']; try discriminate; [reflexivity|].
  rewrite !strength_unfold by discriminate. cbv zeta.
  now rewrite Hsize, Hlen.
Qed.

Lemma strength_by_classes_witness :
  calculatePasswordStrength (js "aaaaaaaa") = calculatePasswordStrength (js "qwertyui").
Proof.
  apply strength_by_classes; [reflexivity|].
  intros cls. destruct cls; reflexivity.
Defined.

(** X17.  [PasswordStrengthMeter] renders nothing for the empty password
    and, for any other, lights the first [score + 1] of its five bars in
    the colour of the score: neither fallback colour class nor the
    feedback "Password required" is ever rendered. *)
Theorem meter_rendering (password : jsstring) :
  (PasswordStrengthMeter password = None <-> password = []) /\
  (forall m, PasswordStrengthMeter password = Some m ->
     let s := score (calculatePasswordStrength password) in
     meter_bars m = repeat (getColor s) (Z.to_nat (s + 1))
              ++ repeat (js "bg-slate-200 dark:bg-slate-700") (Z.to_nat (4 - s)) /\
     getColor s <> js "bg-slate-300" /\
     meter_text_colour m <> js "text-slate-500" /\
     meter_text m <> js "Password required").
Proof.
  split.
  - unfold PasswordStrengthMeter. destruct password; split; congruence.
  - intros m Hm s. pose proof (score_range password) as Hr. fold s in Hr.
    assert (Hne : password <> []).
    { intros ->. discriminate Hm. }
    assert (Hf : feedback (calculatePasswordStrength password) <> js "Password required").
    { rewrite (strength_unfold Hne). cbn [feedback].
      repeat match goal with
             | |- context [if ?b then _ else _] => destruct b
             end; vm_compute; discriminate. }
    unfold PasswordStrengthMeter in Hm. fold s in Hm.
    set (r := calculatePasswordStrength password) in *. clearbody r.
    destruct password as [|c t]; [contradiction|].
    injection Hm as <-. cbn [meter_bars meter_text_colour meter_text].
    assert (Hs : s = 0 \/ s = 1 \/ s = 2 \/ s = 3 \/ s = 4) by lia.
    clearbody s.
    repeat split.
    + destruct Hs as [->|[->|[->|[->| ->]]]]; reflexivity.
    + destruct Hs as [->|[->|[->|[->| ->]]]]; vm_compute; discriminate.
    + destruct Hs as [->|[->|[->|[->| ->]]]]; vm_compute; discriminate.
    + exact Hf.
Qed.

End StrengthFacts.
(* ================================================================= *)
(** ** More on [encrypt], [decrypt] and the Base64 helpers *)

Module EngineFacts.

Import Base64Facts CryptoFacts ReferenceFacts CodecClaims ReferenceJSON CodecSymmetry.

Section WithPlatform.
Context {P : Platform}.

(** X18.  [arrayBufferToBase64] takes every byte sequence, to a text of
    four characters for every three bytes begun, made of the 64 Base64
    characters and [=]; [base64ToArrayBuffer] gives the bytes back, so
    two byte sequences with one text are the same. *)
Theorem base64_bytes (bytes : list byte) :
  (exists s,
     arrayBufferToBase64 bytes = Ok s /\
     base64ToArrayBuffer s = Ok bytes /\
     List.length s = (4 * ((List.length bytes + 2) / 3))%nat /\
     Forall (fun c => b64_index c <> None \/ c = 61%N) s) /\
  (forall other, arrayBufferToBase64 other = arrayBufferToBase64 bytes -> other = bytes).
Proof.
  split.
  - destruct (base64_roundtrip bytes) as (s & Hs & Hback).
    exists s. split; [exact Hs|]. split; [exact Hback|].
    unfold arrayBufferToBase64, btoa in Hs.
    set (binary := map Byte.to_N bytes) in *.
    destruct (forallb _ binary) eqn:Hf; [|discriminate Hs].
    cbn [lift_atob] in Hs. injection Hs as <-.
    assert (Hb : Forall (fun a => (a < 256)%N) binary).
    { apply Forall_forall. intros a Ha. rewrite forallb_forall in Hf.
      specialize (Hf a Ha). lia. }
    split.
    + rewrite length_app, length_map.
      replace (List.length bytes) with (List.length binary)
        by (unfold binary; apply length_map).
      apply sextets_length.
    + apply Forall_app. split.
      * apply Forall_forall. intros c Hc. left.
        apply in_map_iff in Hc as (i & <- & Hi).
        pose proof (sextets_bound Hb) as Hsx. rewrite Forall_forall in Hsx.
        rewrite (b64_index_char (Hsx i Hi)). discriminate.
      * apply Forall_forall. intros c Hc. right.
        destruct (padding_cases (List.length binary)) as [E|[E|E]];
          rewrite E in Hc; cbn [In] in Hc; intuition congruence.
  - intros other H.
    destruct (base64_roundtrip bytes) as (s & Hs & Hback).
    destruct (base64_roundtrip other) as (s' & Hs' & Hback').
    rewrite Hs, Hs' in H. injection H as ->. congruence.
Qed.

(** What [encrypt] drew and made, with the lengths of salt and IV. *)
Lemma encrypt_shape {L : CipherLaws P} plaintext passphrase options r payload :
  encrypt plaintext passphrase options r = Ok payload ->
  exists salt_bytes iv_bytes key c,
    List.length salt_bytes = 16%nat /\ List.length iv_bytes = 12%nat /\
    base64ToArrayBuffer (salt payload) = Ok salt_bytes /\
    base64ToArrayBuffer (iv payload) = Ok iv_bytes /\
    base64ToArrayBuffer (ct payload) = Ok c /\
    deriveKey passphrase salt_bytes (iterations payload) = Ok key /\
    subtle_encrypt (js "AES-GCM") iv_bytes key (plaintext_bytes plaintext) = Ok c.
Proof.
  unfold encrypt, isCryptoSupported.
  destruct crypto_available; cbn [negb]; [|discriminate].
  destruct (passphrase_blank passphrase); [discriminate|].
  rewrite resolve_algorithm_const. unfold generateSalt, generateIV.
  pose proof (random_length 16 r) as Hl1.
  destruct (getRandomValues 16 r) as [salt_bytes r1].
  pose proof (random_length 12 r1) as Hl2.
  destruct (getRandomValues 12 r1) as [iv_bytes r2]. cbn [fst] in *.
  destruct (deriveKey _ _ _) as [key|] eqn:Hk; cbn [bind]; [|discriminate].
  destruct (subtle_encrypt _ _ _ _) as [c|] eqn:Hc; cbn [bind]; [|discriminate].
  destruct (base64_roundtrip salt_bytes) as (s64 & -> & Hs64).
  destruct (base64_roundtrip iv_bytes) as (i64 & -> & Hi64).
  destruct (base64_roundtrip c) as (c64 & -> & Hc64).
  cbn [bind]. intros [= <-]. cbn [salt iv ct iterations].
  exists salt_bytes, iv_bytes, key, c. auto 10.
Qed.

(** X19.  Every envelope [encrypt] returns names AES-GCM and PBKDF2,
    carries the iteration count the call resolved, a salt of 16 bytes
    and an IV of 12 bytes, and a ciphertext 16 bytes longer than the
    plaintext bytes. *)
Theorem envelope_shape {L : CipherLaws P} {T : TagLaws P}
    (plaintext : plaintext_input) (passphrase : jsstring)
    (options : EncryptionOptions) (r : rng) (payload : EncryptionPayload) :
  encrypt plaintext passphrase options r = Ok payload ->
  alg payload = js "AES-GCM" /\ kdf payload = js "PBKDF2" /\
  iterations payload = resolve_iterations options /\
  byte_length (salt payload) = 16%nat /\
  byte_length (iv payload) = 12%nat /\
  byte_length (ct payload) = (List.length (plaintext_bytes plaintext) + 16)%nat.
Proof.
  intros He.
  destruct (encrypt_shape _ _ _ _ He)
    as (salt_bytes & iv_bytes & key & c & H16 & H12 & H1 & H2 & H3 & _ & H5).
  apply encrypt_inv in He. destruct He as [_ _ Ha Hk Hi _].
  unfold byte_length. rewrite H1, H2, H3.
  repeat split; try assumption.
  now apply ciphertext_length in H5.
Qed.

Lemma decoded_nonempty (s : jsstring) (bytes : list byte) :
  base64ToArrayBuffer s = Ok bytes -> bytes <> [] -> decodes_nonempty s.
Proof.
  unfold base64ToArrayBuffer, decodes_nonempty.
  destruct (atob s) as [binary|]; cbn [lift_atob bind]; [|discriminate].
  intros [= <-] Hne. exists binary. split; [reflexivity|].
  intros ->. now apply Hne.
Qed.

(** The text of a valid envelope is read back as the envelope. *)
Lemma encoded_valid {J : JSONLaws P} (E : EncryptionPayload) :
  valid_envelope E ->
  exists text,
    encodePayload E = Ok text /\
    atob text = Some (JSON_stringify (payload_value E)) /\
    parsePayload (InString text) = Ok (payload_value E).
Proof.
  intros Hv.
  pose proof (valid_accepted Hv) as Hacc. apply check_accepted in Hacc.
  destruct Hv as (Ha & Hk & Hs & Hi & Hn & Hc).
  apply decodes_nonempty_text in Hs as [_ Hs], Hi as [_ Hi], Hc as [_ Hc].
  destruct (stringify_object E) as (rest & Hjson & Hrest);
    try assumption; try (rewrite Ha || rewrite Hk; reflexivity).
  pose proof (parse_stringify E) as Hparse.
  set (json := JSON_stringify (payload_value E)) in *.
  assert (Hb : exists text, btoa json = Some text).
  { unfold btoa. rewrite Hjson. cbn [forallb].
    unfold latin1 in Hrest. rewrite Hrest. cbn. eauto. }
  destruct Hb as [text Hb]. exists text.
  split; [|split].
  - unfold encodePayload. fold json. now rewrite Hb.
  - apply (atob_btoa _ Hb).
  - unfold parsePayload, parse_input.
    rewrite (atob_btoa _ Hb). cbn [lift_atob bind].
    rewrite Hparse. cbn [lift_json try_catch bind]. exact Hacc.
Qed.

(** Every envelope [encrypt] returns is a valid one. *)
Lemma encrypt_valid {L : CipherLaws P} {T : TagLaws P}
    plaintext passphrase options r payload :
  (0 < resolve_iterations options)%Z ->
  encrypt plaintext passphrase options r = Ok payload ->
  valid_envelope payload.
Proof.
  intros Hit He.
  destruct (encrypt_shape _ _ _ _ He)
    as (salt_bytes & iv_bytes & key & c & H16 & H12 & H1 & H2 & H3 & _ & H5).
  apply ciphertext_length in H5.
  apply encrypt_inv in He. destruct He as [_ _ Ha Hk Hi _].
  repeat split; try assumption.
  - apply (decoded_nonempty _ H1). intros ->. discriminate H16.
  - apply (decoded_nonempty _ H2). intros ->. discriminate H12.
  - now rewrite Hi.
  - apply (decoded_nonempty _ H3). intros ->. cbn in H5. lia.
Qed.

(** X20.  What [encrypt] returns goes through [encodePayload],
    [parsePayload] and [decrypt] unharmed: the text [encodePayload]
    makes of the envelope is read by [parsePayload] as that envelope,
    and [decrypt] of it under the passphrase returns the plaintext. *)
Theorem sealed_text_opens {L : CipherLaws P} {T : TagLaws P} {J : JSONLaws P}
    (plaintext : plaintext_input) (passphrase : jsstring)
    (options : EncryptionOptions) (r : rng) :
  crypto_available = true ->
  forallb is_js_whitespace passphrase = false ->
  (0 < resolve_iterations options < 2 ^ 32)%Z ->
  exists payload text,
    encrypt plaintext passphrase options r = Ok payload /\
    encodePayload payload = Ok text /\
    parsePayload (InString text) = Ok (payload_value payload) /\
    decrypt payload passphrase = Ok (TextDecoder_decode (plaintext_bytes plaintext)).
Proof.
  intros Hs Hb Hit. rewrite <- passphrase_blank_spec in Hb.
  destruct (encrypt_total_ok plaintext passphrase options r Hs Hb Hit) as [payload He].
  assert (Hv : valid_envelope payload).
  { apply (encrypt_valid plaintext passphrase options r); [lia | exact He]. }
  destruct (encoded_valid Hv) as (text & Henc & _ & Hparse).
  exists payload, text. repeat split; try assumption.
  apply encrypt_inv in He. now apply decrypt_encrypted with (options := options).
Qed.

(** X21.  [decrypt] checks the browser first and the passphrase second,
    before it looks at the envelope; a salt, IV or ciphertext that is not
    Base64 then ends it with the platform's [InvalidCharacterError], which
    it passes on unchanged unless the message text of that error holds
    one of the two phrases it looks for. *)
Theorem decrypt_guards (payload : EncryptionPayload) (passphrase : jsstring) :
  (crypto_available = false ->
   decrypt payload passphrase
   = Throw (Error (js "Web Crypto API is not supported in this browser"))) /\
  (crypto_available = true -> forallb is_js_whitespace passphrase = true ->
   decrypt payload passphrase = Throw (Error (js "Passphrase cannot be empty"))) /\
  (crypto_available = true -> forallb is_js_whitespace passphrase = false ->
   atob (salt payload) = None \/ atob (iv payload) = None \/ atob (ct payload) = None ->
   decrypt payload passphrase = decrypt_catch InvalidCharacterError /\
   (includes (js "operation-specific") (engine_message (js "InvalidCharacterError")) = false ->
    includes (js "InvalidAccessError") (engine_message (js "InvalidCharacterError")) = false ->
    decrypt payload passphrase = Throw InvalidCharacterError)).
Proof.
  rewrite <- passphrase_blank_spec. unfold decrypt, isCryptoSupported.
  split; [|split].
  - now intros ->.
  - now intros -> ->.
  - intros -> -> Hbad. cbn [negb].
    assert (H : try_catch
                  (salt <- base64ToArrayBuffer (salt payload) ;;
                   iv <- base64ToArrayBuffer (iv payload) ;;
                   ciphertext <- base64ToArrayBuffer (ct payload) ;;
                   key <- deriveKey passphrase salt (iterations payload) ;;
                   plaintextBuffer <- subtle_decrypt (alg payload) iv key ciphertext ;;
                   Ok (TextDecoder_decode plaintextBuffer))
                  decrypt_catch
                = decrypt_catch InvalidCharacterError).
    { unfold base64ToArrayBuffer.
      destruct (atob (salt payload)) as [s|]; cbn [lift_atob bind try_catch];
        [|reflexivity].
      destruct (atob (iv payload)) as [i|]; cbn [lift_atob bind try_catch];
        [|reflexivity].
      destruct (atob (ct payload)) as [c|]; cbn [lift_atob bind try_catch];
        [|reflexivity].
      destruct Hbad as [Hbad|[Hbad|Hbad]]; discriminate Hbad. }
    split; [exact H|].
    intros H1 H2. rewrite H. unfold InvalidCharacterError, DOMException.
    cbn [decrypt_catch]. now rewrite H1, H2.
Qed.

(** X22.  [decrypt] returns a text only when the cipher released one,
    under the key derived from the passphrase with the salt and the
    iteration count of the envelope itself; the [kdf] field is not read. *)
Theorem decrypt_reads (payload : EncryptionPayload) (passphrase : jsstring) :
  (forall text,
     decrypt payload passphrase = Ok text ->
     exists salt_bytes iv_bytes c key bytes,
       base64ToArrayBuffer (salt payload) = Ok salt_bytes /\
       base64ToArrayBuffer (iv payload) = Ok iv_bytes /\
       base64ToArrayBuffer (ct payload) = Ok c /\
       deriveKey passphrase salt_bytes (iterations payload) = Ok key /\
       subtle_decrypt (alg payload) iv_bytes key c = Ok bytes /\
       text = TextDecoder_decode bytes) /\
  (forall other,
     alg other = alg payload -> salt other = salt payload -> iv other = iv payload ->
     iterations other = iterations payload -> ct other = ct payload ->
     decrypt other passphrase = decrypt payload passphrase).
Proof.
  split.
  - intros text H. now apply KeyFacts.decrypt_inv in H.
  - intros other Ha Hs Hi Hn Hc. unfold decrypt. now rewrite Ha, Hs, Hi, Hn, Hc.
Qed.

Lemma parse_input_throws (input : payload_input) (e : exn) :
  parse_input input = Throw e ->
  e = Error (js "Invalid payload format. Must be valid JSON or Base64-encoded JSON.").
Proof.
  unfold parse_input.
  destruct (match input with InString _ => _ | InObject _ => _ end);
    cbn [try_catch]; [discriminate | now intros [= <-]].
Qed.

(** The checks on a payload that is no object. *)
Lemma check_primitive (v : value) :
  (exists props, v = VObj props) \/
  check v = Throw TypeError \/
  check v = Throw (Error
    (js "Payload missing required fields: alg, kdf, salt, iv, iterations, ct")).
Proof.
  destruct v; eauto; right; ((left; reflexivity) || (right; reflexivity)).
Qed.

(** X23.  [parsePayload] throws one of five errors and no other: the
    invalid-format error, the missing-fields error, the two
    unsupported-identifier errors, and the platform's [TypeError], which
    is what a payload that is [null] gets.  What it returns, it accepts
    again as an object. *)
Theorem parsePayload_outcomes (input : payload_input) :
  (forall e, parsePayload input = Throw e ->
     e = Error (js "Invalid payload format. Must be valid JSON or Base64-encoded JSON.") \/
     e = Error (js "Payload missing required fields: alg, kdf, salt, iv, iterations, ct") \/
     (exists a, e = Error (js "Unsupported algorithm: " ++ ToString a
                             ++ js ". Only AES-GCM is supported.")) \/
     (exists k, e = Error (js "Unsupported KDF: " ++ ToString k
                             ++ js ". Only PBKDF2 is supported.")) \/
     e = TypeError) /\
  (parse_input input = Ok VNull -> parsePayload input = Throw TypeError) /\
  (forall payload, parsePayload input = Ok payload ->
                   parsePayload (InObject payload) = Ok payload).
Proof.
  unfold parsePayload. split; [|split].
  - intros e. destruct (parse_input input) as [v|e0] eqn:Hp; cbn [bind].
    + destruct (check_primitive v) as [[props ->]|[Hc|Hc]];
        [| rewrite Hc; intros [= <-]; right; right; right; right; reflexivity
         | rewrite Hc; intros [= <-]; right; left; reflexivity].
      rewrite check_object.
      rewrite (named_throws _ _ (fun named => js "Unsupported algorithm: " ++ named
                                   ++ js ". Only AES-GCM is supported.")).
      rewrite (named_throws _ _ (fun named => js "Unsupported KDF: " ++ named
                                   ++ js ". Only PBKDF2 is supported.")).
      repeat match goal with
             | |- context [if ?b then _ else _] => destruct b
             end; try discriminate; intros [= <-];
        first [ right; left; reflexivity
              | right; right; left; eexists; reflexivity
              | right; right; right; left; eexists; reflexivity
              | right; right; right; right; reflexivity ].
    + intros [= <-]. left. now apply parse_input_throws in Hp.
  - now intros ->.
  - intros payload. destruct (parse_input input) as [v|e0]; cbn [bind]; [|discriminate].
    intros H. pose proof (check_returns_argument _ H) as ->. exact H.
Qed.

(** [atob] looks at no ASCII white space. *)
Lemma atob_whitespace (s s' : jsstring) :
  filter (fun c => negb (is_ascii_whitespace c)) s'
  = filter (fun c => negb (is_ascii_whitespace c)) s ->
  atob s' = atob s.
Proof. intros H. unfold atob. now rewrite H. Qed.

(** X24.  A text that [parsePayload] reads as Base64 is read the same
    with spaces, tabs and line breaks put anywhere into it. *)
Theorem parsePayload_ignores_whitespace (s s' decoded : jsstring) (v : value) :
  filter (fun c => negb (is_ascii_whitespace c)) s'
  = filter (fun c => negb (is_ascii_whitespace c)) s ->
  atob s = Some decoded ->
  JSON_parse decoded = Some v ->
  parsePayload (InString s') = parsePayload (InString s).
Proof.
  intros Hf Ha Hj. unfold parsePayload, parse_input.
  rewrite (atob_whitespace _ _ Hf), Ha. cbn [lift_atob bind].
  now rewrite Hj.
Qed.

End WithPlatform.

(** *** Runs on the reference platform *)

#[export] Instance reference_tag messages : TagLaws (Reference.platform_with messages).
Proof.
  constructor; on_reference.
  intros iv key data c H.
  apply seal_inv in H as (body & -> & ->).
  now rewrite length_app, tag_length, length_map.
Qed.

Lemma envelope_shape_witness :
  exists payload,
    encrypt (P := Reference.platform) hello staple no_options 0%N = Ok payload /\
    byte_length (P := Reference.platform) (salt payload) = 16%nat /\
    byte_length (P := Reference.platform) (iv payload) = 12%nat /\
    byte_length (P := Reference.platform) (ct payload) = 27%nat.
Proof.
  destruct (encrypt (P := Reference.platform) hello staple no_options 0%N)
    as [payload|e] eqn:He; [|vm_compute in He; discriminate He].
  destruct (envelope_shape (P := Reference.platform) _ _ _ _ He)
    as (_ & _ & _ & H16 & H12 & Hc).
  exists payload. repeat split; assumption.
Defined.

Lemma sealed_text_opens_witness :
  exists payload text,
    encrypt (P := Reference.platform) hello staple no_options 0%N = Ok payload /\
    encodePayload (P := Reference.platform) payload = Ok text /\
    parsePayload (P := Reference.platform) (InString text) = Ok (payload_value payload) /\
    decrypt (P := Reference.platform) payload staple = Ok (js "hello world").
Proof.
  destruct (sealed_text_opens (P := Reference.platform) hello staple no_options 0%N
              eq_refl eq_refl ltac:(cbn; lia))
    as (payload & text & H1 & H2 & H3 & H4).
  exists payload, text. repeat split; assumption.
Defined.

Lemma parsePayload_ignores_whitespace_witness :
  exists text,
    encodePayload (P := Reference.platform) sealed_hello = Ok text /\
    parsePayload (P := Reference.platform) (InString (10%N :: text ++ [32%N; 10%N]))
    = parsePayload (P := Reference.platform) (InString text).
Proof.
  destruct (encodePayload (P := Reference.platform) sealed_hello)
    as [text|e] eqn:He; [|vm_compute in He; discriminate He].
  exists text. split; [reflexivity|].
  vm_compute in He. injection He as <-.
  eapply (parsePayload_ignores_whitespace (P := Reference.platform)).
  - vm_compute. reflexivity.
  - vm_compute. reflexivity.
  - vm_compute. reflexivity.
Defined.

End EngineFacts.
(* ================================================================= *)
(** ** The encryption tab *)

Module TabFacts.

Import CryptoFacts ReferenceFacts HistoryClaims HistoryFacts EncryptTab.

Section WithPlatform.
Context {P : Platform}.

Lemma blank_spec (s : jsstring) : blank s = passphrase_blank s.
Proof.
  unfold blank, passphrase_blank. destruct s as [|c s]; [reflexivity|].
  now destruct (trim (c :: s)).
Qed.

(** The key [handleEncrypt] derives again opens the envelope. *)
Lemma rederived_key {L : CipherLaws P} plaintext passphrase options payload :
  encrypted plaintext passphrase options payload ->
  exists key,
    (binary <- lift_atob (atob (salt payload)) ;;
     deriveKey passphrase (map to_uint8 binary) (iterations payload)) = Ok key /\
    decryptWithKey payload key = Ok (TextDecoder_decode (plaintext_bytes plaintext)).
Proof.
  intros [Hs Hb Ha _ _ (salt_bytes & iv_bytes & key & c & H1 & H2 & H3 & H4 & H5)].
  exists key. split.
  - unfold base64ToArrayBuffer in H1.
    destruct (atob (salt payload)) as [binary|]; cbn [lift_atob bind] in *;
      [|discriminate H1].
    injection H1 as <-. exact H4.
  - unfold decryptWithKey, isCryptoSupported. rewrite Hs. cbn [negb].
    rewrite H2, H3. cbn [bind]. rewrite Ha, (decrypt_encrypt _ _ _ H5). reflexivity.
Qed.

(** The run of [handleEncrypt] up to [setResult]. *)
Lemma handleEncrypt_sealed {L : CipherLaws P} (st : state) (r : rng) :
  crypto_available = true ->
  blank (st_passphrase st) = false ->
  exists payload key,
    encrypt (Text (st_plaintext st)) (st_passphrase st) no_options r = Ok payload /\
    (payload <- encrypt (Text (st_plaintext st)) (st_passphrase st) no_options r ;;
     binary <- lift_atob (atob (salt payload)) ;;
     key <- deriveKey (st_passphrase st) (map to_uint8 binary) (iterations payload) ;;
     Ok (payload, key)) = Ok (payload, key) /\
    decryptWithKey payload key
    = Ok (TextDecoder_decode (TextEncoder_encode (st_plaintext st))).
Proof.
  intros Hs Hb. rewrite blank_spec in Hb.
  destruct (encrypt_total_ok (Text (st_plaintext st)) (st_passphrase st) no_options r Hs Hb)
    as [payload He]; [cbn; lia|].
  destruct (rederived_key (encrypt_inv _ _ _ _ He)) as (key & Hk & Hd).
  exists payload, key. split; [exact He|]. split; [|exact Hd].
  rewrite He. cbn [bind].
  destruct (atob (salt payload)) as [binary|]; cbn [lift_atob bind] in *;
    [|discriminate Hk].
  now rewrite Hk.
Qed.

(** X25.  With a text, a passphrase, Web Crypto and a browser that
    stores the history, [handleEncrypt] leaves no error, an envelope of
    the text with a key that opens it, and a history of at most 20 items
    that lists the envelope under the file name (or "Untitled") with the
    length of the text. *)
Theorem handleEncrypt_success {L : CipherLaws P}
    (st : state) (r : rng) (uuid : jsstring) (now : Z) (ls : localStorage) :
  crypto_available = true ->
  blank (st_plaintext st) = false ->
  blank (st_passphrase st) = false ->
  (forall items, accepts ls items = true) ->
  let out := handleEncrypt st r uuid now (Some ls) in
  exists payload key,
    encrypt (Text (st_plaintext st)) (st_passphrase st) no_options r = Ok payload /\
    st_result (fst out) = Some (payload, key) /\
    decryptWithKey payload key
    = Ok (TextDecoder_decode (TextEncoder_encode (st_plaintext st))) /\
    st_error (fst out) = None /\
    st_isEncrypting (fst out) = false /\
    st_history (fst out) = getHistory (snd out) /\
    In {| id := uuid;
          name := match st_filename st with [] => js "Untitled" | _ => st_filename st end;
          timestamp := now;
          payload := payload;
          size := Z.of_nat (List.length (st_plaintext st)) |} (st_history (fst out)) /\
    (List.length (st_history (fst out)) <= 20)%nat.
Proof.
  intros Hs Hpt Hpw Hacc out.
  destruct (handleEncrypt_sealed st r Hs Hpw) as (payload & key & He & Hrun & Hd).
  exists payload, key. split; [exact He|].
  subst out. unfold handleEncrypt. rewrite Hpt, Hpw.
  cbv zeta.
  cbn [setResult setError setIsEncrypting st_plaintext st_passphrase st_filename].
  rewrite Hrun.
  set (item := {| new_name := _; new_payload := payload; new_size := _ |}).
  destruct (addToHistory item uuid now (Some ls)) as [w'|e] eqn:Ha.
  - cbn [fst snd setHistory setIsEncrypting setResult st_result st_error
           st_isEncrypting st_history].
    pose proof (addToHistory_listing _ _ _ _ Ha) as Hl.
    repeat split; try assumption.
    + rewrite Hl. apply in_insert. left. reflexivity.
    + rewrite Hl, insert_length, length_firstn. change MAX_ITEMS with 20%nat. lia.
  - exfalso. unfold addToHistory in Ha. cbn [setItem] in Ha.
    rewrite Hacc in Ha. discriminate Ha.
Qed.

(** X26.  In a browser that turns the write of the history down (its
    storage is full), [handleEncrypt] still leaves the envelope and its
    key as the result; the error is then "Could not save to history.
    Storage may be full.", and the listed history and the storage stay
    as they were. *)
Theorem handleEncrypt_storage_failure {L : CipherLaws P}
    (st : state) (r : rng) (uuid : jsstring) (now : Z) (ls : localStorage) :
  crypto_available = true ->
  blank (st_plaintext st) = false ->
  blank (st_passphrase st) = false ->
  (forall items, accepts ls items = false) ->
  let out := handleEncrypt st r uuid now (Some ls) in
  exists payload key,
    encrypt (Text (st_plaintext st)) (st_passphrase st) no_options r = Ok payload /\
    st_result (fst out) = Some (payload, key) /\
    decryptWithKey payload key
    = Ok (TextDecoder_decode (TextEncoder_encode (st_plaintext st))) /\
    st_error (fst out) = Some (js "Could not save to history. Storage may be full.") /\
    st_isEncrypting (fst out) = false /\
    st_history (fst out) = st_history st /\
    snd out = Some ls.
Proof.
  intros Hs Hpt Hpw Hacc out.
  destruct (handleEncrypt_sealed st r Hs Hpw) as (payload & key & He & Hrun & Hd).
  exists payload, key. split; [exact He|].
  subst out. unfold handleEncrypt. rewrite Hpt, Hpw.
  cbv zeta.
  cbn [setResult setError setIsEncrypting st_plaintext st_passphrase st_filename].
  rewrite Hrun.
  set (item := {| new_name := _; new_payload := payload; new_size := _ |}).
  assert (Ha : addToHistory item uuid now (Some ls)
               = Throw (Error (js "Could not save to history. Storage may be full."))).
  { unfold addToHistory. cbn [setItem]. now rewrite Hacc. }
  rewrite Ha. cbn. auto 10.
Qed.

(** X27.  [handleEncrypt] turns down a text, and then a passphrase, that
    is empty or white space only, before anything is encrypted: only the
    error changes, and the storage is not touched.  Without Web Crypto
    the error is the one [encrypt] throws, and there is no result. *)
Theorem handleEncrypt_guards (st : state) (r : rng) (uuid : jsstring) (now : Z)
    (w : window) :
  (forallb is_js_whitespace (st_plaintext st) = true ->
   handleEncrypt st r uuid now w
   = (setError (Some (js "Please enter text or upload a file")) st, w)) /\
  (forallb is_js_whitespace (st_plaintext st) = false ->
   forallb is_js_whitespace (st_passphrase st) = true ->
   handleEncrypt st r uuid now w
   = (setError (Some (js "Please enter a passphrase")) st, w)) /\
  (forallb is_js_whitespace (st_plaintext st) = false ->
   forallb is_js_whitespace (st_passphrase st) = false ->
   crypto_available = false ->
   let out := handleEncrypt st r uuid now w in
   st_error (fst out) = Some (js "Web Crypto API is not supported in this browser") /\
   st_result (fst out) = None /\ st_history (fst out) = st_history st /\ snd out = w).
Proof.
  rewrite <- !passphrase_blank_spec, <- !blank_spec. unfold handleEncrypt.
  split; [|split].
  - now intros ->.
  - now intros -> ->.
  - intros -> -> Hs.
    cbn [setResult setError setIsEncrypting st_plaintext st_passphrase st_filename].
    unfold encrypt, isCryptoSupported. rewrite Hs. cbn. auto.
Qed.

(** X28.  The history the tab shows stays the history in the storage:
    where the two agree before [handleEncrypt], [handleClearHistory] or
    [handleDeleteHistoryItem] runs, they agree after it, whether the
    handler got through or not. *)
Theorem shown_history_in_step (st : state) (w : window) :
  st_history st = getHistory w ->
  (forall r uuid now,
     let out := handleEncrypt st r uuid now w in
     st_history (fst out) = getHistory (snd out)) /\
  (forall confirmed,
     let out := handleClearHistory confirmed st w in
     st_history (fst out) = getHistory (snd out)) /\
  (forall target,
     let out := handleDeleteHistoryItem target st w in
     st_history (fst out) = getHistory (snd out)).
Proof.
  intros Hinv. split; [|split].
  - intros r uuid now out. subst out. unfold handleEncrypt.
    destruct (blank (st_plaintext st)); [exact Hinv|].
    destruct (blank (st_passphrase st)); [exact Hinv|].
    cbv zeta.
    cbn [setResult setError setIsEncrypting st_plaintext st_passphrase st_filename].
    match goal with
    | |- context [match ?run with Ok _ => _ | Throw _ => _ end] =>
        destruct run as [[payload key]|e]
    end; [|exact Hinv].
    match goal with
    | |- context [addToHistory ?item uuid now w] =>
        destruct (addToHistory item uuid now w) as [w'|e]
    end; [reflexivity | exact Hinv].
  - intros [|] out; subst out; cbn [handleClearHistory fst snd]; [|exact Hinv].
    cbn [setHistory st_history]. symmetry. apply clearHistory_empty.
  - intros target out. reflexivity.
Qed.

End WithPlatform.

(** *** Runs on the reference platform *)

Lemma shown_history_in_step_witness :
  let out := handleDeleteHistoryItem (js "id-1")
               (fst (handleEncrypt typed_in 0%N (js "id-1") 1 empty_browser))
               (snd (handleEncrypt typed_in 0%N (js "id-1") 1 empty_browser)) in
  st_history (fst out) = getHistory (snd out) /\ st_history (fst out) = [].
Proof.
  split; [|vm_compute; reflexivity].
  destruct (@shown_history_in_step Reference.platform typed_in empty_browser eq_refl)
    as (Hencrypt & _ & _).
  destruct (@shown_history_in_step Reference.platform _ _
              (Hencrypt 0%N (js "id-1") 1%Z))
    as (_ & _ & Hdelete).
  exact (Hdelete (js "id-1")).
Defined.

Lemma handleEncrypt_success_witness :
  let out := handleEncrypt typed_in 0%N (js "id-1") 1 empty_browser in
  st_error (fst out) = None /\
  map name (st_history (fst out)) = [js "encrypted"] /\
  exists payload key,
    st_result (fst out) = Some (payload, key) /\
    decryptWithKey (P := Reference.platform) payload key = Ok (js "hello world").
Proof.
  destruct (@handleEncrypt_success Reference.platform _ typed_in 0%N (js "id-1") 1%Z
              {| content := Absent; accepts := fun _ => true |}
              eq_refl eq_refl eq_refl (fun _ => eq_refl))
    as (payload & key & _ & Hr & Hd & Herr & _).
  split; [exact Herr|]. split; [vm_compute; reflexivity|].
  exists payload, key. split; [exact Hr | exact Hd].
Defined.

Lemma handleEncrypt_storage_failure_witness :
  let out := handleEncrypt typed_in 0%N (js "id-1") 1 full_browser in
  st_error (fst out) = Some (js "Could not save to history. Storage may be full.") /\
  snd out = full_browser /\
  exists payload key,
    st_result (fst out) = Some (payload, key) /\
    decryptWithKey (P := Reference.platform) payload key = Ok (js "hello world").
Proof.
  destruct (@handleEncrypt_storage_failure Reference.platform _ typed_in 0%N
              (js "id-1") 1%Z {| content := Absent; accepts := fun _ => false |}
              eq_refl eq_refl eq_refl (fun _ => eq_refl))
    as (payload & key & _ & Hr & Hd & Herr & _ & _ & Hw).
  split; [exact Herr|]. split; [exact Hw|].
  exists payload, key. split; [exact Hr | exact Hd].
Defined.

End TabFacts.

(* ================================================================= *)
(** ** The decryption tab *)

Module DecryptFacts.

Import Base64Facts CryptoFacts ReferenceFacts CodecClaims ReferenceJSON CodecSymmetry.
Import KeyFacts EngineFacts TabFacts DecryptTab.

Lemma b64_char_not_blank (i : N) : (i < 64)%N -> is_js_whitespace (b64_char i) = false.
Proof.
  intros Hi. pose proof (b64_index_char Hi) as H.
  unfold b64_index in H. unfold is_js_whitespace.
  destruct (65 <=? b64_char i)%N eqn:?, (b64_char i <=? 90)%N eqn:?,
    (97 <=? b64_char i)%N eqn:?, (b64_char i <=? 122)%N eqn:?,
    (48 <=? b64_char i)%N eqn:?, (b64_char i <=? 57)%N eqn:?,
    (b64_char i =? 43)%N eqn:?, (b64_char i =? 47)%N eqn:?;
    cbn [andb] in H; try discriminate H; lia.
Qed.

(** The Base64 text of a string that is not empty is not blank. *)
Lemma btoa_not_blank (s t : jsstring) :
  btoa s = Some t -> s <> [] -> forallb is_js_whitespace t = false.
Proof.
  unfold btoa. destruct (forallb _ s) eqn:Hf; [|discriminate].
  intros [= <-] Hne. destruct s as [|a rest]; [contradiction|].
  assert (Ha : (a < 256)%N).
  { cbn [forallb] in Hf. apply andb_prop in Hf as [Ha _]. lia. }
  assert (Hh : exists tail, sextets (a :: rest) = (a / 4)%N :: tail).
  { destruct rest as [|b [|c rest']]; cbn [sextets]; eauto. }
  destruct Hh as [tail ->]. cbn [map app forallb].
  rewrite b64_char_not_blank; [reflexivity|].
  apply N.Div0.div_lt_upper_bound. lia.
Qed.

Lemma as_payload_typed (p : EncryptionPayload) :
  as_EncryptionPayload (payload_value p) = Some p.
Proof. now destruct p. Qed.

Section WithPlatform.
Context {P : Platform} {K : KeyPlatform P}.

(** The text of a valid envelope is not blank. *)
Lemma encoded_not_blank {J : JSONLaws P} (E : EncryptionPayload) (text : jsstring) :
  valid_envelope E -> encodePayload E = Ok text -> EncryptTab.blank text = false.
Proof.
  intros (Ha & Hk & Hs & Hi & Hn & Hc) He.
  apply decodes_nonempty_text in Hs as [_ Hs], Hi as [_ Hi], Hc as [_ Hc].
  destruct (stringify_object E) as (rest & Hjson & _);
    try assumption; try (rewrite Ha || rewrite Hk; reflexivity).
  unfold encodePayload in He. rewrite blank_spec, passphrase_blank_spec.
  destruct (btoa (JSON_stringify (payload_value E))) as [t|] eqn:Hb;
    cbn [lift_atob] in He; [|discriminate He].
  injection He as <-. apply (btoa_not_blank Hb). rewrite Hjson. discriminate.
Qed.

(** The run of [handleDecrypt] on the text of a typed payload. *)
Lemma handleDecrypt_typed (st : state) (p : EncryptionPayload) :
  EncryptTab.blank (st_ciphertextInput st) = false ->
  (EncryptTab.blank (st_passphrase st) = false \/ st_importedKey st <> None) ->
  parsePayload (InString (st_ciphertextInput st)) = Ok (payload_value p) ->
  forall plaintext,
    match st_importedKey st with
    | Some key => decryptWithKey p key
    | None => decrypt p (st_passphrase st)
    end = Ok plaintext ->
    exists st',
      handleDecrypt st = Some st' /\
      st_result st' = Some plaintext /\ st_error st' = None /\
      st_metadata st' = Some (payload_value p) /\ st_isDecrypting st' = false /\
      st_passphrase st' = st_passphrase st.
Proof.
  intros Hb Hpw Hp plaintext Hd. unfold handleDecrypt. rewrite Hb.
  assert (Hg : EncryptTab.blank (st_passphrase st)
               && match st_importedKey st with Some _ => false | None => true end
               = false).
  { destruct Hpw as [->|Hk]; [reflexivity|].
    destruct (st_importedKey st); [apply andb_false_r | contradiction]. }
  rewrite Hg. cbv zeta.
  cbn [setMetadata setResult setError setIsDecrypting st_ciphertextInput
         st_passphrase st_importedKey].
  rewrite Hp, as_payload_typed, Hd.
  eexists. split; [reflexivity|]. cbn. auto 10.
Qed.

(** X29.  What the encryption side hands out is opened by the Decrypt
    button: for the text [encodePayload] makes of an envelope [encrypt]
    returned, pasted in with the passphrase, [handleDecrypt] ends with
    the plaintext as result, no error and the envelope as metadata. *)
Theorem handleDecrypt_opens {L : CipherLaws P} {T : TagLaws P} {J : JSONLaws P}
    (plaintext : plaintext_input) (passphrase : jsstring)
    (options : EncryptionOptions) (r : rng) :
  crypto_available = true ->
  forallb is_js_whitespace passphrase = false ->
  (0 < resolve_iterations options < 2 ^ 32)%Z ->
  exists payload text st',
    encrypt plaintext passphrase options r = Ok payload /\
    encodePayload payload = Ok text /\
    handleDecrypt (pasted text passphrase) = Some st' /\
    st_result st' = Some (TextDecoder_decode (plaintext_bytes plaintext)) /\
    st_error st' = None /\
    st_metadata st' = Some (payload_value payload) /\
    st_isDecrypting st' = false.
Proof.
  intros Hs Hb Hit. rewrite <- passphrase_blank_spec in Hb.
  destruct (encrypt_total_ok plaintext passphrase options r Hs Hb Hit) as [payload He].
  assert (Hv : valid_envelope payload).
  { apply (encrypt_valid plaintext passphrase options r); [lia | exact He]. }
  destruct (encoded_valid Hv) as (text & Henc & _ & Hparse).
  pose proof (encoded_not_blank Hv Henc) as Htext.
  apply encrypt_inv in He as Hinv.
  pose proof (decrypt_encrypted Hinv) as Hd.
  destruct (@handleDecrypt_typed (pasted text passphrase) payload Htext)
    with (plaintext := TextDecoder_decode (plaintext_bytes plaintext))
    as (st' & H1 & H2 & H3 & H4 & H5 & _).
  - left. cbn [pasted st_passphrase]. now rewrite blank_spec.
  - exact Hparse.
  - exact Hd.
  - exists payload, text, st'. auto 10.
Qed.

(** X30.  The key file takes the place of the passphrase: for an
    envelope [encrypt] returned and the key derived from its passphrase,
    salt and iteration count, [handleKeyImport] of the text [exportKey]
    makes of the key clears the passphrase and keeps the key, and
    [handleDecrypt] of the envelope's text then ends with the plaintext
    as result and no error. *)
Theorem key_file_opens {L : CipherLaws P} {T : TagLaws P} {J : JSONLaws P}
    {KL : KeyLaws K}
    (plaintext : plaintext_input) (passphrase typed : jsstring)
    (options : EncryptionOptions) (r : rng) (payload : EncryptionPayload)
    (salt_bytes : list byte) (key : CryptoKey) (jwk : value) :
  (0 < resolve_iterations options)%Z ->
  encrypt plaintext passphrase options r = Ok payload ->
  base64ToArrayBuffer (salt payload) = Ok salt_bytes ->
  deriveKey passphrase salt_bytes (iterations payload) = Ok key ->
  subtle_exportKey key = Ok jwk ->
  exists text keyfile st',
    encodePayload payload = Ok text /\
    exportKey key = Ok keyfile /\
    st_importedKey (handleKeyImport (Some (Ok keyfile)) (pasted text typed)) = Some key /\
    st_passphrase (handleKeyImport (Some (Ok keyfile)) (pasted text typed)) = [] /\
    handleDecrypt (handleKeyImport (Some (Ok keyfile)) (pasted text typed)) = Some st' /\
    st_result st' = Some (TextDecoder_decode (plaintext_bytes plaintext)) /\
    st_error st' = None.
Proof.
  intros Hit He Hsalt Hkey Hexp.
  assert (Hv : valid_envelope payload).
  { apply (encrypt_valid plaintext passphrase options r); [lia | exact He]. }
  destruct (encoded_valid Hv) as (text & Henc & _ & Hparse).
  pose proof (encoded_not_blank Hv Henc) as Htext.
  apply encrypt_inv in He as Hinv.
  destruct (rederived_key Hinv) as (key' & Hk' & Hd).
  assert (key' = key) as ->.
  { unfold base64ToArrayBuffer in Hsalt.
    destruct (atob (salt payload)) as [binary|]; cbn [lift_atob bind] in *;
      [|discriminate Hsalt].
    injection Hsalt as <-. congruence. }
  assert (Hfile : exists keyfile, exportKey key = Ok keyfile /\ importKey keyfile = Ok key).
  { unfold exportKey, importKey. rewrite Hexp. cbn [bind].
    pose proof (jwk_latin1 _ Hexp) as Hl. unfold latin1 in Hl.
    destruct (btoa (JSON_stringify jwk)) as [keyfile|] eqn:Hb.
    - exists keyfile. split; [reflexivity|].
      rewrite (atob_btoa _ Hb). cbn [lift_atob bind].
      rewrite (jwk_parse _ Hexp). cbn [lift_json bind].
      now rewrite (import_export _ Hexp).
    - unfold btoa in Hb. rewrite Hl in Hb. discriminate. }
  destruct Hfile as (keyfile & Hex & Him).
  set (st := handleKeyImport (Some (Ok keyfile)) (pasted text typed)).
  assert (Hst : st = setPassphrase [] (setError None
                       (setImportedKey (Some key) (pasted text typed)))).
  { unfold st, handleKeyImport. cbn [bind]. now rewrite Him. }
  destruct (@handleDecrypt_typed st payload)
    with (plaintext := TextDecoder_decode (plaintext_bytes plaintext))
    as (st' & H1 & H2 & H3 & _).
  - rewrite Hst. exact Htext.
  - right. rewrite Hst. discriminate.
  - rewrite Hst. exact Hparse.
  - rewrite Hst. exact Hd.
  - exists text, keyfile, st'. fold st.
    split; [exact Henc|]. split; [exact Hex|].
    split; [rewrite Hst; reflexivity|]. split; [rewrite Hst; reflexivity|]. auto.
Qed.

End WithPlatform.

(** *** Runs on the reference platform *)

Lemma handleDecrypt_opens_witness :
  exists payload text st',
    encrypt (P := Reference.platform) hello staple no_options 0%N = Ok payload /\
    encodePayload (P := Reference.platform) payload = Ok text /\
    handleDecrypt (pasted (P := Reference.platform) text staple) = Some st' /\
    st_result st' = Some (js "hello world") /\
    st_error st' = None.
Proof.
  destruct (@handleDecrypt_opens Reference.platform _ _ _ hello staple no_options 0%N
              eq_refl eq_refl ltac:(cbn; lia))
    as (payload & text & st' & H1 & H2 & H3 & H4 & H5 & _).
  exists payload, text, st'. auto 10.
Defined.

Lemma key_file_opens_witness :
  exists text keyfile st',
    encodePayload (P := Reference.platform) sealed_hello = Ok text /\
    exportKey (K := reference_keys) sealed_key = Ok keyfile /\
    handleDecrypt
      (handleKeyImport (K := reference_keys) (Some (Ok keyfile)) (pasted text []))
    = Some st' /\
    st_result st' = Some (js "hello world") /\
    st_error st' = None.
Proof.
  destruct (@key_file_opens Reference.platform reference_keys _ _ _ _
              hello staple [] no_options 0%N sealed_hello sealed_salt sealed_key
              (jwk_of (js "Pw==")))
    as (text & keyfile & st' & H1 & H2 & _ & _ & H5 & H6 & H7).
  - cbn. lia.
  - vm_compute. reflexivity.
  - vm_compute. reflexivity.
  - vm_compute. reflexivity.
  - reflexivity.
  - exists text, keyfile, st'. auto 10.
Defined.

End DecryptFacts.
